(** * Participation queries of [course/enrollment.py]

    A shallow embedding of the participation query language of
    [course/enrollment.py] (the lexer table, [parse_query] with its nested
    [parse_terminal] and [inner_parse], and the view [query_participations])
    together with the properties of it that the specification states, and
    further properties of the parser, of the view and of the admin action
    [decide_enrollment]. *)

From Stdlib Require Import String Ascii List ZArith Lia Bool Arith PeanoNat.
Import ListNotations.

Local Open Scope string_scope.
Local Open Scope list_scope.
Local Open Scope nat_scope.

(** ** Characters and strings

    Query text is a Python text string; the model reads it as a string of
    8-bit characters, the code points U+0000 to U+00FF. *)

Definition code (c : ascii) : nat := nat_of_ascii c.

Definition in_range (lo hi : nat) (c : ascii) : bool :=
  (lo <=? code c) && (code c <=? hi).

(** [[0-9]] *)
Definition is_digit (c : ascii) : bool := in_range 48 57 c.

(** [\w] under [re.UNICODE]: alphanumeric characters and the underscore. *)
Definition is_word (c : ascii) : bool :=
  is_digit c || in_range 65 90 c || in_range 97 122 c || (code c =? 95)
  || existsb (Nat.eqb (code c)) [170; 178; 179; 181; 185; 186; 188; 189; 190]
  || in_range 192 214 c || in_range 216 246 c || in_range 248 255 c.

(** [[ \t\n\r\f\v]] *)
Definition is_re_space (c : ascii) : bool :=
  existsb (Nat.eqb (code c)) [32; 9; 10; 13; 12; 11].

(** [[^ \t\n\r\f\v)]] *)
Definition is_email_char (c : ascii) : bool :=
  negb (is_re_space c || (code c =? 41)).

(** [[-\w]] and [[-_\w]] (the underscore is a word character already). *)
Definition is_dash_word (c : ascii) : bool := (code c =? 45) || is_word c.

(** [[ \t]] *)
Definition is_blank (c : ascii) : bool := (code c =? 32) || (code c =? 9).

(** What [str.strip()] removes from both ends of a text string. *)
Definition is_space (c : ascii) : bool :=
  in_range 9 13 c || in_range 28 32 c || (code c =? 133) || (code c =? 160).

Definition LF : ascii := ascii_of_nat 10.

Fixpoint take (n : nat) (s : string) : string :=
  match n, s with
  | S n', String c s' => String c (take n' s')
  | _, _ => ""
  end.

(** The longest prefix of [s] whose characters are all in the class. *)
Fixpoint take_while (cls : ascii -> bool) (s : string) : string :=
  match s with
  | String c s' => if cls c then String c (take_while cls s') else ""
  | "" => ""
  end.

Fixpoint string_forallb (cls : ascii -> bool) (s : string) : bool :=
  match s with
  | String c s' => cls c && string_forallb cls s'
  | "" => true
  end.

Definition is_empty (s : string) : bool :=
  match s with "" => true | _ => false end.

(** [s.startswith(p)], returning what follows the prefix. *)
Fixpoint strip_prefix (p s : string) : option string :=
  match p, s with
  | "", _ => Some s
  | String a p', String b s' =>
      if Ascii.eqb a b then strip_prefix p' s' else None
  | _, _ => None
  end.

(** [s.split("\n")] *)
Fixpoint split_lines (s : string) : list string :=
  match s with
  | "" => [""]
  | String c s' =>
      if Ascii.eqb c LF then "" :: split_lines s'
      else match split_lines s' with
           | l :: ls => String c l :: ls
           | [] => [String c ""]
           end
  end.

Fixpoint lstrip (s : string) : string :=
  match s with
  | String c s' => if is_space c then lstrip s' else s
  | "" => ""
  end.

Fixpoint rstrip (s : string) : string :=
  match s with
  | String c s' =>
      let r := rstrip s' in
      if is_space c && is_empty r then "" else String c r
  | "" => ""
  end.

(** [s.strip()] *)
Definition strip (s : string) : string := rstrip (lstrip s).

(** ** Lexer data *)

Inductive tag : Type :=
| _and | _or | _not | _openpar | _closepar
| _id | _email | _email_contains | _user | _user_contains
| _tagged | _role | _status | _has_started | _has_submitted
| _whitespace.

Definition tag_eq_dec (a b : tag) : {a = b} + {a <> b}.
Proof. decide equality. Defined.

(** [a is b] on interned tags. *)
Definition tag_is (a b : tag) : bool := if tag_eq_dec a b then true else false.

(** The regular expressions of [_LEX_TABLE] come in four shapes. *)
Inductive RE : Type :=
| RE_keyword (kw : string)                         (* kw\b *)
| RE_literal (lit : string)                        (* \( and \) *)
| RE_capture (prefix : string) (cls : ascii -> bool) (* prefix([cls]+) *)
| RE_class (cls : ascii -> bool).                  (* [cls]+ *)

(** A match object: the length of the match and its group 1, if any. *)
Record match_obj : Type := MatchObj { m_end : nat; m_group1 : option string }.

(** [rule.match(s, start)], on the text from [start] on.  No pattern of the
    table looks behind [start]: [\b] comes after a word character, so it
    holds exactly when no word character follows. *)
Definition re_match (rule : RE) (s : string) : option match_obj :=
  match rule with
  | RE_keyword kw =>
      match strip_prefix kw s with
      | Some (String c _) =>
          if is_word c then None else Some (MatchObj (String.length kw) None)
      | Some "" => Some (MatchObj (String.length kw) None)
      | None => None
      end
  | RE_literal lit =>
      match strip_prefix lit s with
      | Some _ => Some (MatchObj (String.length lit) None)
      | None => None
      end
  | RE_capture prefix cls =>
      match strip_prefix prefix s with
      | Some rest =>
          let g := take_while cls rest in
          if is_empty g then None
          else Some (MatchObj (String.length prefix + String.length g) (Some g))
      | None => None
      end
  | RE_class cls =>
      let g := take_while cls s in
      if is_empty g then None else Some (MatchObj (String.length g) None)
  end.

Definition _LEX_TABLE : list (tag * RE) :=
  [ (_and, RE_keyword "and");
    (_or, RE_keyword "or");
    (_not, RE_keyword "not");
    (_openpar, RE_literal "(");
    (_closepar, RE_literal ")");
    (* TERMINALS *)
    (_id, RE_capture "id:" is_digit);
    (_email, RE_capture "email:" is_email_char);
    (_email_contains, RE_capture "email-contains:" is_email_char);
    (_user, RE_capture "username:" is_email_char);
    (_user_contains, RE_capture "username-contains:" is_email_char);
    (_tagged, RE_capture "tagged:" is_dash_word);
    (_role, RE_capture "role:" is_word);
    (_status, RE_capture "status:" is_word);
    (_has_started, RE_capture "has-started:" is_dash_word);
    (_has_submitted, RE_capture "has-submitted:" is_dash_word);
    (_whitespace, RE_class is_blank) ].

Definition _TERMINALS : list tag :=
  [_id; _email; _email_contains; _user; _user_contains; _tagged; _role; _status].

(** *** Operator precedence *)

Definition _PREC_OR : nat := 10.
Definition _PREC_AND : nat := 20.
Definition _PREC_NOT : nat := 30.

(** ** Exceptions and the store monad *)

(** A lexed token [(tag, s, idx, matchobj)]. *)
Record token : Type := Token {
  tok_tag : tag;
  tok_str : string;
  tok_idx : nat;
  tok_match : match_obj }.

Inductive exn : Type :=
| InvalidTokenError (i : nat)
| ParseError (msg : string) (at_token : option token)
| IndexError
| ValueError.

(** The outcome of a call: a value, a raised exception, or the model's
    recursion budget running out. *)
Inductive outcome (A : Type) : Type :=
| Ok (a : A)
| Raise (e : exn)
| OutOfFuel.
Arguments Ok {A} a.
Arguments Raise {A} e.
Arguments OutOfFuel {A}.

(** Modelled from the spec: the participant store of section 3 (Tag,
    FlowSession, Participant); the models of [course/models.py] are not part
    of the sources.  Courses and rows are named by their primary keys. *)
Record ParticipationTag : Type := {
  tag_pk : nat;
  tag_course : nat;
  tag_name : string }.

Record FlowSession : Type := {
  fs_flow_id : string;
  fs_course : nat;
  fs_in_progress : bool }.

Record Participation : Type := {
  part_pk : nat;
  user_id : Z;
  user_email : string;
  user_username : string;
  part_course : nat;
  part_role : string;
  part_status : string;
  part_tags : list nat;
  part_flow_sessions : list FlowSession }.

Record database : Type := {
  participation_tags : list ParticipationTag;
  participations : list Participation }.

(** Code that reads and writes the store and may raise. *)
Definition M (A : Type) : Type := database -> outcome A * database.

Definition ret {A} (a : A) : M A := fun db => (Ok a, db).

Definition raise {A} (e : exn) : M A := fun db => (Raise e, db).

Definition out_of_fuel {A} : M A := fun db => (OutOfFuel, db).

Definition bind {A B} (m : M A) (k : A -> M B) : M B :=
  fun db =>
    match m db with
    | (Ok a, db') => k a db'
    | (Raise e, db') => (Raise e, db')
    | (OutOfFuel, db') => (OutOfFuel, db')
    end.

(** A computation that does not touch the store. *)
Definition lift {A} (o : outcome A) : M A := fun db => (o, db).

(** [try: m  except Exception as e: handler(e)] *)
Definition try_except {A} (m : M A) (handler : exn -> M A) : M A :=
  fun db =>
    match m db with
    | (Raise e, db') => handler e db'
    | r => r
    end.

Declare Scope store_scope.
Delimit Scope store_scope with store.
Notation "x <- m ;; k" := (bind m (fun x => k))
  (at level 61, m at next level, right associativity) : store_scope.
Notation "' pat <- m ;; k" := (bind m (fun x => match x with pat => k end))
  (at level 61, pat pattern, m at next level, right associativity) : store_scope.
Local Open Scope store_scope.

(** ** The lexer *)

(** Modelled from the spec: the rule that wins at an offset, section 4.1
    ([pytools.lex] is imported, not part of the sources): the rules are
    tried in table order and the first one with a match of positive length
    is taken. *)
Fixpoint first_rule (lex_table : list (tag * RE)) (s : string)
  : option (tag * match_obj) :=
  match lex_table with
  | [] => None
  | (name, rule) :: rest =>
      match re_match rule s with
      | Some m => if m_end m =? 0 then first_rule rest s else Some (name, m)
      | None => first_rule rest s
      end
  end.

(** Modelled from the spec: the loop of the lexer, section 4.1
    ([pytools.lex.lex] is imported, not part of the sources).  The match of
    the winning rule is consumed and becomes a token; where no rule matches,
    the lexer raises.  [skip] counts the characters of the current token
    that are still to be passed over, so that [s] is always the text from
    offset [i] on. *)
Fixpoint lex_at (lex_table : list (tag * RE)) (s : string) (i skip : nat)
  : outcome (list token) :=
  match s with
  | "" => Ok []
  | String _ s' =>
      match skip with
      | S k => lex_at lex_table s' (S i) k
      | 0 =>
          match first_rule lex_table s with
          | None => Raise (InvalidTokenError i)
          | Some (name, m) =>
              match lex_at lex_table s' (S i) (m_end m - 1) with
              | Ok toks => Ok (Token name (take (m_end m) s) i m :: toks)
              | Raise e => Raise e
              | OutOfFuel => OutOfFuel
              end
          end
      end
  end.

Definition lex (lex_table : list (tag * RE)) (s : string) : outcome (list token) :=
  lex_at lex_table s 0 0.

(** Modelled from the spec: the ParseCursor of section 3
    ([pytools.lex.LexIterator] is imported, not part of the sources). *)
Record LexIterator : Type := {
  lexed : list token;
  raw_string : string;
  index : nat }.

Definition next_token (pstate : LexIterator) : option token :=
  nth_error (lexed pstate) (index pstate).

Definition next_tag (pstate : LexIterator) : outcome tag :=
  match next_token pstate with
  | Some t => Ok (tok_tag t)
  | None => Raise IndexError
  end.

(** [pstate.next_match_obj().group(1)] *)
Definition next_group1 (pstate : LexIterator) : outcome string :=
  match next_token pstate with
  | Some t =>
      match m_group1 (tok_match t) with
      | Some g => Ok g
      | None => Raise IndexError
      end
  | None => Raise IndexError
  end.

Definition advance (pstate : LexIterator) : LexIterator :=
  {| lexed := lexed pstate;
     raw_string := raw_string pstate;
     index := index pstate + 1 |}.

Definition is_at_end (pstate : LexIterator) : bool :=
  List.length (lexed pstate) <=? index pstate.

Definition is_next (pstate : LexIterator) (t : tag) : bool :=
  match next_token pstate with
  | Some tok => tag_is (tok_tag tok) t
  | None => false
  end.

Definition raise_parse_error {A} (pstate : LexIterator) (msg : string) : M A :=
  raise (ParseError msg (next_token pstate)).

Definition expected {A} (pstate : LexIterator) (what_expected : string) : M A :=
  raise_parse_error pstate (what_expected ++ " expected").

Definition expect_not_end (pstate : LexIterator) : M unit :=
  if is_at_end pstate then raise_parse_error pstate "unexpected end of input"
  else ret tt.

Definition tag_name_of (t : tag) : string :=
  match t with
  | _and => "and" | _or => "or" | _not => "not"
  | _openpar => "openpar" | _closepar => "closepar"
  | _id => "id" | _email => "email" | _email_contains => "email_contains"
  | _user => "user" | _user_contains => "user_contains"
  | _tagged => "tagged" | _role => "role" | _status => "status"
  | _has_started => "has_started" | _has_submitted => "has_submitted"
  | _whitespace => "whitespace"
  end.

Definition expect (pstate : LexIterator) (t : tag) : M unit :=
  _ <- expect_not_end pstate ;;
  if is_next pstate t then ret tt else expected pstate (tag_name_of t).

(** ** Predicates

    A Django [Q] object, as the parser builds it: a keyword lookup, or two
    of them combined by [&] or [|], or one inverted by [~]. *)
Inductive lookup : Type :=
| user__id (v : Z)
| user__email__iexact (v : string)
| user__email__icontains (v : string)
| user__username__exact (v : string)
| user__username__contains (v : string)
| tags__pk (v : nat)
| role (v : string)
| status (v : string)
| flow_sessions__flow_id (v : string)
| flow_sessions__course (v : nat)
| flow_sessions__in_progress (v : bool).

Inductive Q : Type :=
| Q_ (kw : lookup)
| QAnd (a b : Q)
| QOr (a b : Q)
| QNot (a : Q).

(** [int(s)] on a capture: defined on the non-empty strings of decimal
    digits, [ValueError] on everything else the model could pass. *)
Fixpoint digits_value (s : string) (acc : Z) : Z :=
  match s with
  | String c s' => digits_value s' (10 * acc + Z.of_nat (code c - 48))%Z
  | "" => acc
  end.

Definition int (s : string) : outcome Z :=
  if negb (is_empty s) && string_forallb is_digit s
  then Ok (digits_value s 0%Z)
  else Raise ValueError.

(** Modelled from the spec: get-or-create of section 3, which the source
    writes [ParticipationTag.objects.get_or_create(course=..., name=...)]:
    the tag of that course and name, made with the next primary key when
    there is none. *)
Definition tag_matches (course : nat) (name : string) (t : ParticipationTag) : bool :=
  (tag_course t =? course) && String.eqb (tag_name t) name.

Definition next_pk (tags : list ParticipationTag) : nat :=
  S (fold_right (fun t m => Nat.max (tag_pk t) m) 0 tags).

Definition get_or_create (course : nat) (name : string)
  : M (ParticipationTag * bool) :=
  fun db =>
    match find (tag_matches course name) (participation_tags db) with
    | Some t => (Ok (t, false), db)
    | None =>
        let t := {| tag_pk := next_pk (participation_tags db);
                    tag_course := course;
                    tag_name := name |} in
        (Ok (t, true),
         {| participation_tags := participation_tags db ++ [t];
            participations := participations db |})
    end.

(** ** The parser *)

Definition parse_terminal (course : nat) (pstate : LexIterator)
  : M (Q * LexIterator) :=
  next_tag <- lift (next_tag pstate) ;;
  match next_tag with
  | _id =>
      g <- lift (next_group1 pstate) ;;
      n <- lift (int g) ;;
      ret (Q_ (user__id n), advance pstate)
  | _email =>
      g <- lift (next_group1 pstate) ;;
      ret (Q_ (user__email__iexact g), advance pstate)
  | _email_contains =>
      g <- lift (next_group1 pstate) ;;
      ret (Q_ (user__email__icontains g), advance pstate)
  | _user =>
      g <- lift (next_group1 pstate) ;;
      ret (Q_ (user__username__exact g), advance pstate)
  | _user_contains =>
      g <- lift (next_group1 pstate) ;;
      ret (Q_ (user__username__contains g), advance pstate)
  | _tagged =>
      g <- lift (next_group1 pstate) ;;
      '(ptag, created) <- get_or_create course g ;;
      ret (Q_ (tags__pk (tag_pk ptag)), advance pstate)
  | _role =>
      g <- lift (next_group1 pstate) ;;
      ret (Q_ (role g), advance pstate)
  | _status =>
      g <- lift (next_group1 pstate) ;;
      ret (Q_ (status g), advance pstate)
  | _has_started =>
      flow_id <- lift (next_group1 pstate) ;;
      ret (QAnd (Q_ (flow_sessions__flow_id flow_id))
                (Q_ (flow_sessions__course course)),
           advance pstate)
  | _has_submitted =>
      flow_id <- lift (next_group1 pstate) ;;
      ret (QAnd (QAnd (Q_ (flow_sessions__flow_id flow_id))
                      (Q_ (flow_sessions__course course)))
                (Q_ (flow_sessions__in_progress false)),
           advance pstate)
  | _ => expected pstate "terminal"
  end.

(** [inner_parse], and its [while did_something] loop as [inner_parse_loop].
    The cursor is a mutable object in the source; here each call returns it.
    [fuel] bounds the depth of the calls. *)
Fixpoint inner_parse (fuel : nat) (course : nat) (pstate : LexIterator)
    (min_precedence : nat) {struct fuel} : M (Q * LexIterator) :=
  match fuel with
  | 0 => out_of_fuel
  | S fuel' =>
      _ <- expect_not_end pstate ;;
      '(left_query, pstate) <-
        (if is_next pstate _not then
           '(q, pstate) <- inner_parse fuel' course (advance pstate) _PREC_NOT ;;
           ret (QNot q, pstate)
         else if is_next pstate _openpar then
           '(q, pstate) <- inner_parse fuel' course (advance pstate) 0 ;;
           _ <- expect pstate _closepar ;;
           ret (q, advance pstate)
         else parse_terminal course pstate) ;;
      inner_parse_loop fuel' course left_query pstate min_precedence
  end

with inner_parse_loop (fuel : nat) (course : nat) (left_query : Q)
    (pstate : LexIterator) (min_precedence : nat) {struct fuel}
    : M (Q * LexIterator) :=
  match fuel with
  | 0 => out_of_fuel
  | S fuel' =>
      if is_at_end pstate then ret (left_query, pstate)
      else
        next_tag <- lift (next_tag pstate) ;;
        if tag_is next_tag _and && (min_precedence <? _PREC_AND) then
          '(q, pstate) <- inner_parse fuel' course (advance pstate) _PREC_AND ;;
          inner_parse_loop fuel' course (QAnd left_query q) pstate min_precedence
        else if tag_is next_tag _or && (min_precedence <? _PREC_OR) then
          '(q, pstate) <- inner_parse fuel' course (advance pstate) _PREC_OR ;;
          inner_parse_loop fuel' course (QOr left_query q) pstate min_precedence
        else if existsb (tag_is next_tag) (_TERMINALS ++ [_not; _openpar])
                && (min_precedence <? _PREC_AND) then
          '(q, pstate) <- inner_parse fuel' course pstate _PREC_AND ;;
          inner_parse_loop fuel' course (QAnd left_query q) pstate min_precedence
        else ret (left_query, pstate)
  end.

(** The tokens handed to the cursor: everything but whitespace. *)
Definition significant (toks : list token) : list token :=
  filter (fun t => negb (tag_is (tok_tag t) _whitespace)) toks.

(** Twice the number of tokens, and one: enough for every call. *)
Definition parse_fuel (toks : list token) : nat := 2 * List.length toks + 1.

Definition parse_query (course : nat) (expr_str : string) : M Q :=
  toks <- lift (lex _LEX_TABLE expr_str) ;;
  let pstate := {| lexed := significant toks;
                   raw_string := expr_str;
                   index := 0 |} in
  if is_at_end pstate then raise_parse_error pstate "unexpected end of input"
  else
    '(result, pstate) <- inner_parse (parse_fuel (lexed pstate)) course pstate 0 ;;
    if negb (is_at_end pstate)
    then raise_parse_error pstate "leftover input after completed parse"
    else ret result.

(** ** Evaluation of predicates *)

(** Lower case of the letters A to Z, for the lookups that ignore case. *)
Definition lower_char (c : ascii) : ascii :=
  if in_range 65 90 c then ascii_of_nat (code c + 32) else c.

Fixpoint lower (s : string) : string :=
  match s with
  | String c s' => String (lower_char c) (lower s')
  | "" => ""
  end.

(** [s.startswith(p)] *)
Definition starts_with (p s : string) : bool :=
  match strip_prefix p s with Some _ => true | None => false end.

(** [needle in hay] *)
Fixpoint contains (needle hay : string) : bool :=
  starts_with needle hay
  || match hay with
     | String _ hay' => contains needle hay'
     | "" => false
     end.

(** Modelled from the spec: the condition a [flow_sessions__...] lookup puts
    on a flow session (section 4.4, [has-started:] and [has-submitted:]). *)
Definition session_cond (kw : lookup) : option (FlowSession -> bool) :=
  match kw with
  | flow_sessions__flow_id v => Some (fun s => String.eqb (fs_flow_id s) v)
  | flow_sessions__course v => Some (fun s => fs_course s =? v)
  | flow_sessions__in_progress v => Some (fun s => Bool.eqb (fs_in_progress s) v)
  | _ => None
  end.

(** Modelled from the spec: the conditions of a chain [Q(a) & Q(b) & ...] of
    flow-session lookups, which is what [parse_terminal] builds for one
    [has-started:] or [has-submitted:] terminal.  By section 4.4 they are
    conditions on one and the same flow session. *)
Fixpoint session_conds (q : Q) : option (list (FlowSession -> bool)) :=
  match q with
  | Q_ kw =>
      match session_cond kw with
      | Some f => Some [f]
      | None => None
      end
  | QAnd a (Q_ kw) =>
      match session_conds a, session_cond kw with
      | Some fs, Some f => Some (fs ++ [f])
      | _, _ => None
      end
  | _ => None
  end.

(** Modelled from the spec: "has at least one flow-session record" meeting
    all the conditions (section 4.4). *)
Definition some_session (conds : list (FlowSession -> bool)) (p : Participation) : bool :=
  existsb (fun s => forallb (fun f => f s) conds) (part_flow_sessions p).

(** Modelled from the spec: the attribute tests of the table of section 4.4. *)
Definition attribute_test (kw : lookup) (p : Participation) : bool :=
  match kw with
  | user__id v => Z.eqb (user_id p) v
  | user__email__iexact v => String.eqb (lower (user_email p)) (lower v)
  | user__email__icontains v => contains (lower v) (lower (user_email p))
  | user__username__exact v => String.eqb (user_username p) v
  | user__username__contains v => contains v (user_username p)
  | tags__pk v => existsb (Nat.eqb v) (part_tags p)
  | role v => String.eqb (part_role p) v
  | status v => String.eqb (part_status p) v
  | _ => false
  end.

(** Modelled from the spec: whether a participation satisfies a predicate,
    section 4.4 (the filter itself is run by the object-relational mapper,
    which is not part of the sources).  A terminal over flow sessions holds
    when some flow session of the participation meets all its conditions;
    [&], [|] and [~] are conjunction, disjunction and negation of what their
    arguments decide for the participation. *)
Fixpoint matches (q : Q) (p : Participation) : bool :=
  match session_conds q with
  | Some conds => some_session conds p
  | None =>
      match q with
      | Q_ kw => attribute_test kw p
      | QAnd a b => matches a p && matches b p
      | QOr a b => matches a p || matches b p
      | QNot a => negb (matches a p)
      end
  end.

Fixpoint insert_by_username (p : Participation) (l : list Participation)
  : list Participation :=
  match l with
  | [] => [p]
  | x :: l' =>
      if String.leb (user_username p) (user_username x) then p :: l
      else x :: insert_by_username p l'
  end.

(** [.order_by("user__username")] *)
Definition order_by_username (l : list Participation) : list Participation :=
  fold_right insert_by_username [] l.

(** Modelled from the spec: the participations of the course that satisfy the
    predicate, ordered by user name (section 4.5), which the source writes
    [Participation.objects.filter(course=course).filter(q)
      .order_by("user__username")]. *)
Definition filter_participations (course : nat) (q : Q) : M (list Participation) :=
  fun db =>
    (Ok (order_by_username
           (filter (fun p => (part_course p =? course) && matches q p)
                   (participations db))),
     db).

(** Modelled from the spec: a write to the row of one participation
    (the mutations of section 4.5). *)
Definition update_participation (pk : nat) (f : Participation -> Participation)
  : M unit :=
  fun db =>
    (Ok tt,
     {| participation_tags := participation_tags db;
        participations :=
          map (fun p => if part_pk p =? pk then f p else p) (participations db) |}).

Definition with_tags (tags : list nat) (p : Participation) : Participation :=
  {| part_pk := part_pk p; user_id := user_id p; user_email := user_email p;
     user_username := user_username p; part_course := part_course p;
     part_role := part_role p; part_status := part_status p;
     part_tags := tags; part_flow_sessions := part_flow_sessions p |}.

Definition with_status (st : string) (p : Participation) : Participation :=
  {| part_pk := part_pk p; user_id := user_id p; user_email := user_email p;
     user_username := user_username p; part_course := part_course p;
     part_role := part_role p; part_status := st;
     part_tags := part_tags p; part_flow_sessions := part_flow_sessions p |}.

(** [p.tags.add(ptag)] *)
Definition tags_add (p : Participation) (ptag : ParticipationTag) : M unit :=
  update_participation (part_pk p)
    (fun r => if existsb (Nat.eqb (tag_pk ptag)) (part_tags r) then r
              else with_tags (part_tags r ++ [tag_pk ptag]) r).

(** [p.tags.remove(ptag)] *)
Definition tags_remove (p : Participation) (ptag : ParticipationTag) : M unit :=
  update_participation (part_pk p)
    (fun r => with_tags (filter (fun t => negb (t =? tag_pk ptag)) (part_tags r)) r).

(** [participation_status.dropped] *)
Definition dropped : string := "dropped".

(** [p.status = participation_status.dropped; p.save()] *)
Definition save_dropped (p : Participation) : M unit :=
  update_participation (part_pk p) (with_status dropped).

(** [for p in result: body(p)] *)
Fixpoint for_each {A} (l : list A) (body : A -> M unit) : M unit :=
  match l with
  | [] => ret tt
  | x :: l' => _ <- body x ;; for_each l' body
  end.

(** ** The view *)

Inductive operation : Type := apply_tag | remove_tag | drop.

(** [form.cleaned_data] of a valid [ParticipationQueryForm], and whether the
    form was sent with its "apply" button. *)
Record cleaned_data : Type := {
  queries : string;
  op : operation;
  tag_field : string;
  apply : bool }.

Inductive message : Type :=
| ERROR_in_line (lineno : nat) (e : exn)
| INFO_successful (count : nat).

(** What the view hands to the page: the messages and [result]. *)
Record response : Type := {
  messages : list message;
  result : option (list Participation) }.

(** [enumerate(l)] *)
Definition enumerate {A} (l : list A) : list (nat * A) :=
  combine (seq 0 (List.length l)) l.

(** Runs [m]; an exception it raises is handed back as a value. *)
Definition attempt {A} (m : M A) : M (A + exn) :=
  try_except (a <- m ;; ret (inl a)) (fun e => ret (inr e)).

(** The [for lineno, q in enumerate(...)] loop inside [try].  It ends with
    the [parsed_query] built, or, when a line raises, with the exception and
    the value [lineno] has at that point, for the [except] clause. *)
Fixpoint query_lines (course : nat) (lines : list (nat * string))
    (parsed_query : option Q) : M (option Q + nat * exn) :=
  match lines with
  | [] => ret (inl parsed_query)
  | (lineno, q) :: rest =>
      let q := strip q in
      if is_empty q then query_lines course rest parsed_query
      else
        r <- attempt (parse_query course q) ;;
        match r with
        | inl parsed_subquery =>
            query_lines course rest
              (Some match parsed_query with
                    | None => parsed_subquery
                    | Some pq => QOr pq parsed_subquery
                    end)
        | inr e => ret (inr (lineno, e))
        end
  end.

(** The body of [if form.is_valid():] in [query_participations]. *)
Definition query_participations (course : nat) (cd : cleaned_data) : M response :=
  r <- query_lines course (enumerate (split_lines (queries cd))) None ;;
  let '(msgs, parsed_query) :=
    match r with
    | inl parsed_query => ([], parsed_query)
    | inr (lineno, e) => ([ERROR_in_line (lineno + 1) e], None)
    end in
  match parsed_query with
  | None => ret {| messages := msgs; result := None |}
  | Some parsed_query =>
      result <- filter_participations course parsed_query ;;
      if apply cd then
        result' <-
          match op cd with
          | apply_tag =>
              '(ptag, _) <- get_or_create course (tag_field cd) ;;
              _ <- for_each result (fun p => tags_add p ptag) ;;
              ret result
          | remove_tag =>
              '(ptag, _) <- get_or_create course (tag_field cd) ;;
              _ <- for_each result (fun p => tags_remove p ptag) ;;
              ret result
          | drop =>
              _ <- for_each result save_dropped ;;
              ret (map (with_status dropped) result)
          end ;;
        ret {| messages := msgs ++ [INFO_successful (List.length result')];
               result := Some result' |}
      else ret {| messages := msgs; result := Some result |}
  end.

(** ** Enrollment decisions *)

(** [participation_status.requested], [.active] and [.denied] *)
Definition requested : string := "requested".
Definition active : string := "active".
Definition denied : string := "denied".

(** What [send_enrollment_decision] hands to the mailer: the recipient
    [participation.user.email], the course and the decision.  The text of
    the message is rendered from a template. *)
Record decision_email : Type := {
  email_to : string;
  email_course : nat;
  email_approved : bool }.

Definition send_enrollment_decision (participation : Participation)
    (approved : bool) : decision_email :=
  {| email_to := user_email participation;
     email_course := part_course participation;
     email_approved := approved |}.

(** [participation.save()] after an assignment to [participation.status]:
    the status of the object goes to its row. *)
Definition save_status (participation : Participation) : M unit :=
  update_participation (part_pk participation)
    (with_status (part_status participation)).

(** The [for participation in queryset] loop of [decide_enrollment]; the
    rows of the queryset are those read when the loop starts.  It returns
    [count] and the messages sent, in order. *)
Fixpoint decide_enrollment_loop (approved : bool) (queryset : list Participation)
    (count : nat) : M (nat * list decision_email) :=
  match queryset with
  | [] => ret (count, [])
  | participation :: rest =>
      if negb (String.eqb (part_status participation) requested)
      then decide_enrollment_loop approved rest count
      else
        let participation :=
          with_status (if approved then active else denied) participation in
        _ <- save_status participation ;;
        '(count, sent) <- decide_enrollment_loop approved rest (count + 1) ;;
        ret (count, send_enrollment_decision participation approved :: sent)
  end.

(** ["%d requests processed." % count] *)
Inductive admin_message : Type :=
| INFO_requests_processed (count : nat).

Definition decide_enrollment (approved : bool) (queryset : list Participation)
  : M (admin_message * list decision_email) :=
  '(count, sent) <- decide_enrollment_loop approved queryset 0 ;;
  ret (INFO_requests_processed count, sent).

Definition approve_enrollment (queryset : list Participation)
  : M (admin_message * list decision_email) :=
  decide_enrollment true queryset.

Definition deny_enrollment (queryset : list Participation)
  : M (admin_message * list decision_email) :=
  decide_enrollment false queryset.

(** * Vocabulary of the statements *)

(** ** Outcomes of store computations *)

(** [run m db Phi]: the outcome and the final store of [m] started in [db]
    satisfy [Phi]. *)
Definition run {A} (m : M A) (db : database)
    (Phi : outcome A -> database -> Prop) : Prop :=
  Phi (fst (m db)) (snd (m db)).

(** What [bind] asks of its first part for the whole to satisfy [Phi]. *)
Definition then_run {A B} (k : A -> M B) (Phi : outcome B -> database -> Prop)
    (o : outcome A) (db : database) : Prop :=
  match o with
  | Ok a => run (k a) db Phi
  | Raise e => Phi (Raise e) db
  | OutOfFuel => Phi OutOfFuel db
  end.

(** [db'] has the participations of [db] and its tags, and maybe more tags
    after them. *)
Definition grows (db db' : database) : Prop :=
  participations db' = participations db /\
  exists l, participation_tags db' = participation_tags db ++ l.

(** The course has a tag of that name. *)
Definition has_tag (db : database) (course : nat) (name : string) : bool :=
  existsb (tag_matches course name) (participation_tags db).

Definition pks (tags : list ParticipationTag) : list nat := map tag_pk tags.

(** The tags of [db] are those of [base] and then tags with other keys. *)
Definition extends_tags (base : list ParticipationTag) (db : database) : Prop :=
  exists l, participation_tags db = base ++ l /\
            forall t, In t l -> ~ In (tag_pk t) (pks base).

(** Referential integrity: a participation only carries tags of the store. *)
Definition tags_known (db : database) : Prop :=
  forall p, In p (participations db) ->
  forall v, In v (part_tags p) -> In v (pks (participation_tags db)).

Definition empty_database : database :=
  {| participation_tags := []; participations := [] |}.

(** ** Token streams *)

Definition remaining (ps : LexIterator) : nat := List.length (lexed ps) - index ps.

(** The tokens at positions [i] up to, not including, [j]. *)
Definition within (toks : list token) (i j : nat) : list token :=
  firstn (j - i) (skipn i toks).

(** The nesting depth after [toks], started at depth [d]; [None] when a [)]
    closes nothing. *)
Fixpoint paren_depth (toks : list token) (d : nat) : option nat :=
  match toks with
  | [] => Some d
  | t :: rest =>
      match tok_tag t with
      | _openpar => paren_depth rest (S d)
      | _closepar =>
          match d with
          | 0 => None
          | S d' => paren_depth rest d'
          end
      | _ => paren_depth rest d
      end
  end.

(** Every [(] has its [)] and every [)] its [(]. *)
Definition balanced (toks : list token) : Prop := paren_depth toks 0 = Some 0.

(** The ten kinds [parse_terminal] has a branch for. *)
Definition is_terminal_tag (t : tag) : bool :=
  match t with
  | _id | _email | _email_contains | _user | _user_contains
  | _tagged | _role | _status | _has_started | _has_submitted => true
  | _ => false
  end.

(** A terminal token carries its capture, and that of [id:] converts. *)
Definition token_ok (tok : token) : Prop :=
  is_terminal_tag (tok_tag tok) = true ->
  exists g, m_group1 (tok_match tok) = Some g /\
            (tok_tag tok = _id -> exists n, int g = Ok n).

Definition is_parse_error (e : exn) : Prop :=
  exists msg tok, e = ParseError msg tok.

(** Every [tagged:] token at a position from [i] up to [j] names a tag the
    course has in [db]. *)
Definition tags_exist (course : nat) (toks : list token) (i j : nat)
    (db : database) : Prop :=
  forall k tok g,
    i <= k < j -> nth_error toks k = Some tok -> tok_tag tok = _tagged ->
    m_group1 (tok_match tok) = Some g -> has_tag db course g = true.

(** What a call of [inner_parse] ([strict]) or of its loop leaves behind. *)
Definition parse_post (course : nat) (strict : bool) (fuel : nat)
    (ps : LexIterator) (db : database)
    (o : outcome (Q * LexIterator)) (db' : database) : Prop :=
  grows db db' /\
  match o with
  | Ok (q, ps') =>
      lexed ps' = lexed ps /\ raw_string ps' = raw_string ps /\
      index ps + (if strict then 1 else 0) <= index ps' <= List.length (lexed ps) /\
      tags_exist course (lexed ps) (index ps) (index ps') db' /\
      balanced (within (lexed ps) (index ps) (index ps'))
  | Raise e => Forall token_ok (lexed ps) -> is_parse_error e
  | OutOfFuel => fuel < 2 * remaining ps + (if strict then 1 else 2)
  end.

Definition parse_terminal_post (course : nat) (ps : LexIterator) (db : database)
    (o : outcome (Q * LexIterator)) (db' : database) : Prop :=
  grows db db' /\
  match o with
  | Ok (q, ps') =>
      ps' = advance ps /\
      tags_exist course (lexed ps) (index ps) (index ps + 1) db' /\
      balanced (within (lexed ps) (index ps) (index ps + 1))
  | Raise e => Forall token_ok (lexed ps) -> is_parse_error e
  | OutOfFuel => False
  end.

Definition parse_query_post (course : nat) (s : string) (db : database)
    (o : outcome Q) (db' : database) : Prop :=
  grows db db' /\
  forall toks, lex _LEX_TABLE s = Ok toks ->
  match o with
  | Ok q =>
      balanced (significant toks) /\
      forall tok g,
        In tok toks -> tok_tag tok = _tagged ->
        m_group1 (tok_match tok) = Some g -> has_tag db' course g = true
  | Raise e => is_parse_error e
  | OutOfFuel => False
  end.

(** A cursor standing at [tok], with [pre] before it and [post] after it. *)
Definition cursor_at (pre : list token) (tok : token) (post : list token)
    (raw : string) : LexIterator :=
  {| lexed := pre ++ tok :: post; raw_string := raw; index := List.length pre |}.

(** ** Two runs of the same code in two stores *)

(** The two results agree: values related by [RA], or the same exception;
    [Inv] holds of both stores. *)
Definition sim_result {A} (Inv : database -> Prop) (RA : A -> A -> Prop)
    (r1 r2 : outcome A * database) : Prop :=
  match r1, r2 with
  | (Ok a1, d1), (Ok a2, d2) => RA a1 a2 /\ Inv d1 /\ Inv d2
  | (Raise e1, d1), (Raise e2, d2) => e1 = e2 /\ Inv d1 /\ Inv d2
  | (OutOfFuel, _), (OutOfFuel, _) => True
  | _, _ => False
  end.

Definition sim {A} (Inv : database -> Prop) (RA : A -> A -> Prop)
    (m1 m2 : M A) : Prop :=
  forall d1 d2, Inv d1 -> Inv d2 -> sim_result Inv RA (m1 d1) (m2 d2).

Definition parsed_rel (R : Q -> Q -> Prop) (x y : Q * LexIterator) : Prop :=
  R (fst x) (fst y) /\ snd x = snd y.

(** The same predicate, except that a [tags__pk] lookup for a key outside
    [known] may look for another key outside [known]. *)
Inductive same_but_new_tags (known : list nat) : Q -> Q -> Prop :=
| sbn_leaf kw : same_but_new_tags known (Q_ kw) (Q_ kw)
| sbn_new v1 v2 :
    ~ In v1 known -> ~ In v2 known ->
    same_but_new_tags known (Q_ (tags__pk v1)) (Q_ (tags__pk v2))
| sbn_and a a' b b' :
    same_but_new_tags known a a' -> same_but_new_tags known b b' ->
    same_but_new_tags known (QAnd a b) (QAnd a' b')
| sbn_or a a' b b' :
    same_but_new_tags known a a' -> same_but_new_tags known b b' ->
    same_but_new_tags known (QOr a b) (QOr a' b')
| sbn_not a a' :
    same_but_new_tags known a a' -> same_but_new_tags known (QNot a) (QNot a').

(** ** The view *)

(** [enumerate], counting from [n]. *)
Definition enumerate_from {A} (n : nat) (l : list A) : list (nat * A) :=
  combine (seq n (List.length l)) l.

(** [parsed_query] after one more line. *)
Definition join_lines (parsed_query : option Q) (parsed_subquery : Q) : Q :=
  match parsed_query with
  | None => parsed_subquery
  | Some pq => QOr pq parsed_subquery
  end.

Definition no_newline (s : string) : Prop :=
  string_forallb (fun c => negb (Ascii.eqb c LF)) s = true.

(** The form sent with its "list" button. *)
Definition list_only (text : string) : cleaned_data :=
  {| queries := text; op := drop; tag_field := ""; apply := false |}.

(** The participations the view lists for [text], when it lists any. *)
Definition matched (course : nat) (text : string) (db : database)
  : option (list Participation) :=
  match fst (query_participations course (list_only text) db) with
  | Ok r => result r
  | _ => None
  end.

(** The rows of the course that [q] selects, by user name. *)
Definition selected (course : nat) (q : Q) (db : database) : list Participation :=
  order_by_username
    (filter (fun p => (part_course p =? course) && matches q p) (participations db)).

(** ** Flow-session terminals *)

Definition started_in (course : nat) (flow_id : string) (s : FlowSession) : bool :=
  String.eqb (fs_flow_id s) flow_id && (fs_course s =? course).

Definition submitted_in (course : nat) (flow_id : string) (s : FlowSession) : bool :=
  started_in course flow_id s && negb (fs_in_progress s).

(** What [parse_terminal] builds for [has-started:] and [has-submitted:]. *)
Definition has_started_Q (course : nat) (flow_id : string) : Q :=
  QAnd (Q_ (flow_sessions__flow_id flow_id)) (Q_ (flow_sessions__course course)).

Definition has_submitted_Q (course : nat) (flow_id : string) : Q :=
  QAnd (has_started_Q course flow_id) (Q_ (flow_sessions__in_progress false)).

(** ** A sample store

    One course with a tag [foo] and three participations: an active student
    who has a quiz session in progress, a student who asked to enroll and
    carries the tag, and an active observer who carries it too. *)

Definition sample_participation (pk : nat) (name role st : string)
    (tags : list nat) (sessions : list FlowSession) : Participation :=
  {| part_pk := pk; user_id := Z.of_nat pk;
     user_email := name ++ "@example.com"; user_username := name;
     part_course := 1; part_role := role; part_status := st;
     part_tags := tags; part_flow_sessions := sessions |}.

Definition alice : Participation :=
  sample_participation 1 "alice" "student" "active" []
    [{| fs_flow_id := "quiz"; fs_course := 1; fs_in_progress := true |}].

Definition bob : Participation :=
  sample_participation 2 "bob" "student" "requested" [1] [].

Definition carol : Participation :=
  sample_participation 3 "carol" "observer" "active" [1] [].

Definition sample_database : database :=
  {| participation_tags := [{| tag_pk := 1; tag_course := 1; tag_name := "foo" |}];
     participations := [carol; alice; bob] |}.

(** ** The parser on a token list *)

(** What [parse_query] does with the tokens the lexer hands it. *)
Definition parse_tokens (course : nat) (expr_str : string) (toks : list token)
  : M Q :=
  let pstate := {| lexed := toks; raw_string := expr_str; index := 0 |} in
  if is_at_end pstate then raise_parse_error pstate "unexpected end of input"
  else
    '(result, pstate) <- inner_parse (parse_fuel (lexed pstate)) course pstate 0 ;;
    if negb (is_at_end pstate)
    then raise_parse_error pstate "leftover input after completed parse"
    else ret result.

(** The tokens from the cursor on. *)
Definition ahead (ps : LexIterator) : list token :=
  skipn (index ps) (lexed ps).

(** Tokens of the same kind with the same capture. *)
Definition tok_like (t1 t2 : token) : Prop :=
  tok_tag t1 = tok_tag t2 /\ m_group1 (tok_match t1) = m_group1 (tok_match t2).

Definition option_eqb (a b : option string) : bool :=
  match a, b with
  | Some x, Some y => String.eqb x y
  | None, None => true
  | _, _ => false
  end.

Definition tok_likeb (t1 t2 : token) : bool :=
  tag_is (tok_tag t1) (tok_tag t2)
  && option_eqb (m_group1 (tok_match t1)) (m_group1 (tok_match t2)).

(** Two token lists of the same kinds and captures, one by one. *)
Fixpoint alike (l1 l2 : list token) : bool :=
  match l1, l2 with
  | [], [] => true
  | t1 :: r1, t2 :: r2 => tok_likeb t1 t2 && alike r1 r2
  | _, _ => false
  end.

(** [l2] is [l1] up to kinds and captures, with some of the [and] tokens
    left out that stand in front of a token that starts a primary for the
    loop of [inner_parse]. *)
Fixpoint drops_and (l1 l2 : list token) : bool :=
  match l1 with
  | [] => match l2 with [] => true | _ :: _ => false end
  | t1 :: r1 =>
      match l2 with
      | t2 :: r2 => tok_likeb t1 t2 && drops_and r1 r2
      | [] => false
      end
      || (tag_is (tok_tag t1) _and
          && match r1 with
             | t :: _ => existsb (tag_is (tok_tag t)) (_TERMINALS ++ [_not; _openpar])
             | [] => false
             end
          && drops_and r1 l2)
  end.

(** Whenever [m1] returns, [m2] returns a related value and leaves the same
    store. *)
Definition follows {A} (RA : A -> A -> Prop) (m1 m2 : M A) : Prop :=
  forall db a1 d, m1 db = (Ok a1, d) -> exists a2, m2 db = (Ok a2, d) /\ RA a1 a2.

(** Whenever [m1] ends within its budget, [m2] ends the same way. *)
Definition settles {A} (m1 m2 : M A) : Prop :=
  forall db, fst (m1 db) <> OutOfFuel -> m2 db = m1 db.

(** The same predicate, and cursors related by [Rc]. *)
Definition same_parse (Rc : LexIterator -> LexIterator -> Prop)
    (x y : Q * LexIterator) : Prop :=
  fst x = fst y /\ Rc (snd x) (snd y).

(** The second cursor has like tokens ahead, and then [close]. *)
Definition before_close (close : token) (ps1 ps2 : LexIterator) : Prop :=
  exists l, alike (ahead ps1) l = true /\ ahead ps2 = l ++ [close].

(** The second cursor has the tokens of the first ahead, but for some [and]. *)
Definition without_and (ps1 ps2 : LexIterator) : Prop :=
  drops_and (ahead ps1) (ahead ps2) = true.

(** ** Rules that a closing parenthesis ends *)

Definition close_char : ascii := ")"%char.

Definition no_close (s : string) : bool :=
  string_forallb (fun c => negb (Ascii.eqb c close_char)) s.

(** The rule matches the same in front of a [)] as at the end of the text. *)
Definition stops_at_close (r : RE) : bool :=
  match r with
  | RE_keyword kw => no_close kw
  | RE_literal lit => (String.length lit <=? 1) || no_close lit
  | RE_capture prefix cls => no_close prefix && negb (cls close_char)
  | RE_class cls => negb (cls close_char)
  end.

(** The tokens of a parenthesis at offset [i]. *)
Definition openpar_token (i : nat) : token := Token _openpar "(" i (MatchObj 1 None).
Definition closepar_token (i : nat) : token := Token _closepar ")" i (MatchObj 1 None).

(** ** What a computation does to the store *)

(** [d2] has the tags of [d], and maybe more after them. *)
Definition tags_prefix (d d2 : database) : Prop :=
  exists l, participation_tags d2 = participation_tags d ++ l.

(** Run again in a store that has the tags the first run left, [m] ends the
    same way and changes nothing. *)
Definition replays {A} (m : M A) (Post : A -> Prop) : Prop :=
  forall db o d, m db = (o, d) ->
    grows db d /\ (forall a, o = Ok a -> Post a) /\
    forall d2, tags_prefix d d2 -> m d2 = (o, d2).

(** [m] takes a store to one related by [P]; what it returns meets [Post]. *)
Definition frames {A} (P : database -> database -> Prop) (m : M A)
    (Post : A -> Prop) : Prop :=
  forall db, P db (snd (m db)) /\ forall a, fst (m db) = Ok a -> Post a.

(** [db'] is [db] with new tags of the course after the old ones, each with
    an allowed name that the course had no tag of. *)
Definition only_new_tags (course : nat) (allowed : string -> Prop)
    (db db' : database) : Prop :=
  participations db' = participations db /\
  exists l, participation_tags db' = participation_tags db ++ l /\
    forall t, In t l ->
      tag_course t = course /\ allowed (tag_name t) /\
      has_tag db course (tag_name t) = false.

(** The name is the capture of a [tagged:] token of the list. *)
Definition tagged_in (toks : list token) (name : string) : Prop :=
  exists tok, In tok toks /\ tok_tag tok = _tagged /\
              m_group1 (tok_match tok) = Some name.

(** The name is that of a [tagged:] token of one of the lines. *)
Definition tagged_in_lines (lines : list string) (name : string) : Prop :=
  exists line toks, In line lines /\ lex _LEX_TABLE (strip line) = Ok toks /\
                    tagged_in toks name.

(** The cursor runs over [toks]. *)
Definition on_toks (toks : list token) (x : Q * LexIterator) : Prop :=
  lexed (snd x) = toks.

(** Keys are unique, a course has one tag of a name, and participations only
    carry tags of the store. *)
Definition well_formed (db : database) : Prop :=
  NoDup (pks (participation_tags db)) /\
  (forall t1 t2, In t1 (participation_tags db) -> In t2 (participation_tags db) ->
     tag_course t1 = tag_course t2 -> tag_name t1 = tag_name t2 -> t1 = t2) /\
  NoDup (map part_pk (participations db)) /\
  tags_known db.

(** ** Bulk operations *)

(** What [p.tags.add(ptag)] does to the row of [p]. *)
Definition add_tag (ptag : ParticipationTag) (r : Participation) : Participation :=
  if existsb (Nat.eqb (tag_pk ptag)) (part_tags r) then r
  else with_tags (part_tags r ++ [tag_pk ptag]) r.

(** What [p.tags.remove(ptag)] does to the row of [p]. *)
Definition without_tag (ptag : ParticipationTag) (r : Participation) : Participation :=
  with_tags (filter (fun t => negb (t =? tag_pk ptag)) (part_tags r)) r.

(** The store with [f] applied to the rows that have the key of a row of [l]. *)
Definition bulk (f : Participation -> Participation) (l : list Participation)
    (db : database) : database :=
  {| participation_tags := participation_tags db;
     participations :=
       map (fun r => if existsb (Nat.eqb (part_pk r)) (map part_pk l) then f r else r)
           (participations db) |}.

(** The rows with [f] applied to those of the course that satisfy [q]. *)
Definition on_selected (course : nat) (q : Q) (f : Participation -> Participation)
    (l : list Participation) : list Participation :=
  map (fun r => if (part_course r =? course) && matches q r then f r else r) l.

(** The lines of the form, numbered. *)
Definition numbered_lines (cd : cleaned_data) : list (nat * string) :=
  enumerate (split_lines (queries cd)).

(** ** Enrollment decisions *)

(** The status a decision gives. *)
Definition decided (approved : bool) : string :=
  if approved then active else denied.

Definition is_requested (p : Participation) : bool :=
  String.eqb (part_status p) requested.

(** The rows of the queryset that ask for enrollment. *)
Definition pending (queryset : list Participation) : list Participation :=
  filter is_requested queryset.

(** The rows of the store with the keys of [queryset], read again. *)
Definition refreshed (queryset : list Participation) (db : database)
  : list Participation :=
  filter (fun r => existsb (Nat.eqb (part_pk r)) (map part_pk queryset))
         (participations db).

(** ** What the view leaves alone *)

(** [r'] is [r], but for its status and its tags. *)
Definition same_but_status_and_tags (r r' : Participation) : Prop :=
  with_status (part_status r) (with_tags (part_tags r) r') = r.

(** A name the submission may make a tag of: one of a [tagged:] token of
    its lines, or the one in its tag field. *)
Definition names_of (cd : cleaned_data) (name : string) : Prop :=
  tagged_in_lines (split_lines (queries cd)) name \/ name = tag_field cd.

(** No token of the list is a [tagged:] token. *)
Definition no_tagged (toks : list token) : bool :=
  forallb (fun tok => negb (tag_is (tok_tag tok) _tagged)) toks.

(** ** The grammar the parser reads *)

Inductive level : Type := Primary | Conj | Disj.

(** A cursor on the single token [t]. *)
Definition one_token (t : token) : LexIterator :=
  {| lexed := [t]; raw_string := ""; index := 0 |}.

(** [reads course lvl toks db q rest db']: the tokens of [toks] in front of
    [rest] are an expression of level [lvl] whose predicate is [q]; [db] is
    the store before and [db'] the store after its terminals have been
    compiled, from left to right.

    A primary is a terminal, a primary with [not] in front, or an expression
    in parentheses.  A conjunction is a chain of primaries, to be read from
    the left, with [and] between them, or nothing in front of a token of
    [_TERMINALS], a [not] or a [(].  An expression is a chain of
    conjunctions with [or] between them, read from the left. *)
Inductive reads (course : nat)
  : level -> list token -> database -> Q -> list token -> database -> Prop :=
| R_terminal t rest db q ps db' :
    parse_terminal course (one_token t) db = (Ok (q, ps), db') ->
    reads course Primary (t :: rest) db q rest db'
| R_not n toks db q rest db' :
    tok_tag n = _not ->
    reads course Primary toks db q rest db' ->
    reads course Primary (n :: toks) db (QNot q) rest db'
| R_paren o toks db q c rest db' :
    tok_tag o = _openpar ->
    reads course Disj toks db q (c :: rest) db' ->
    tok_tag c = _closepar ->
    reads course Primary (o :: toks) db q rest db'
| R_primary toks db q rest db' :
    reads course Primary toks db q rest db' ->
    reads course Conj toks db q rest db'
| R_and toks db q1 a mid db1 q2 rest db2 :
    reads course Conj toks db q1 (a :: mid) db1 ->
    tok_tag a = _and ->
    reads course Primary mid db1 q2 rest db2 ->
    reads course Conj toks db (QAnd q1 q2) rest db2
| R_implicit toks db q1 t mid db1 q2 rest db2 :
    reads course Conj toks db q1 (t :: mid) db1 ->
    In (tok_tag t) (_TERMINALS ++ [_not; _openpar]) ->
    reads course Primary (t :: mid) db1 q2 rest db2 ->
    reads course Conj toks db (QAnd q1 q2) rest db2
| R_conj toks db q rest db' :
    reads course Conj toks db q rest db' ->
    reads course Disj toks db q rest db'
| R_or toks db q1 o mid db1 q2 rest db2 :
    reads course Disj toks db q1 (o :: mid) db1 ->
    tok_tag o = _or ->
    reads course Conj mid db1 q2 rest db2 ->
    reads course Disj toks db (QOr q1 q2) rest db2.

(** The level a call of [inner_parse] reads. *)
Definition level_of (min_precedence : nat) : level :=
  if min_precedence <? _PREC_OR then Disj
  else if min_precedence <? _PREC_AND then Conj
  else Primary.

(** No conjunction goes on with [rest]. *)
Definition and_stop (rest : list token) : Prop :=
  match rest with
  | [] => True
  | t :: _ => tok_tag t <> _and /\ ~ In (tok_tag t) (_TERMINALS ++ [_not; _openpar])
  end.

(** No chain of [or] goes on with [rest]. *)
Definition or_stop (rest : list token) : Prop :=
  match rest with
  | [] => True
  | t :: _ => tok_tag t <> _or
  end.

(** Where a call with [min_precedence] stops. *)
Definition stopped (min_precedence : nat) (rest : list token) : Prop :=
  (min_precedence < _PREC_AND -> and_stop rest) /\
  (min_precedence < _PREC_OR -> or_stop rest).

(** What the loop of [inner_parse] has read when it stands in front of
    [rest] with [left_query]. *)
Definition loop_inv (course : nat) (min_precedence : nat) (toks : list token)
    (db0 : database) (left_query : Q) (rest : list token) (db : database) : Prop :=
  match level_of min_precedence with
  | Primary => reads course Primary toks db0 left_query rest db
  | Conj => reads course Conj toks db0 left_query rest db
  | Disj =>
      reads course Disj toks db0 left_query rest db /\
      (reads course Conj toks db0 left_query rest db \/ and_stop rest)
  end.

(** The calls of [inner_parse] that read an expression of the level up to
    [rest] and go on from there. *)
Definition reads_on (lvl : level) (min_precedence : nat) (rest : list token) : Prop :=
  match lvl with
  | Primary => True
  | Conj => min_precedence < _PREC_AND
  | Disj => min_precedence < _PREC_OR /\ and_stop rest
  end.

(** From the cursor, [inner_parse] comes to its loop with [q] read, in front
    of [rest] and with the store [db']. *)
Definition reaches_loop (course : nat) (lvl : level) (ps : LexIterator)
    (db : database) (q : Q) (rest : list token) (db' : database) : Prop :=
  exists ps1 k f0,
    ahead ps1 = rest /\
    forall f mp, f0 <= f -> reads_on lvl mp rest ->
      inner_parse (k + f) course ps mp db = inner_parse_loop f course q ps1 mp db'.

(** * Lemmas

    ** Store computations *)

Lemma run_bind {A B} (m : M A) (k : A -> M B) db Phi :
  run m db (then_run k Phi) -> run (bind m k) db Phi.
Proof.
  unfold run, then_run, bind.
  destruct (m db) as [[a | e |] db']; simpl; auto.
Qed.

Lemma run_mono {A} (m : M A) db (Phi Psi : outcome A -> database -> Prop) :
  run m db Phi -> (forall o db', Phi o db' -> Psi o db') -> run m db Psi.
Proof. unfold run; auto. Qed.

(** ** The store only grows while a query is parsed *)

Lemma grows_refl db : grows db db.
Proof. split; [reflexivity | exists []; rewrite app_nil_r; reflexivity]. Qed.

Lemma grows_trans a b c : grows a b -> grows b c -> grows a c.
Proof.
  intros [Hp [l Hl]] [Hp' [l' Hl']]. split; [congruence|].
  exists (l ++ l'). rewrite Hl', Hl, app_assoc. reflexivity.
Qed.

Lemma has_tag_grows db db' course name :
  grows db db' -> has_tag db course name = true -> has_tag db' course name = true.
Proof.
  intros [_ [l Hl]] H. unfold has_tag in *.
  rewrite Hl, existsb_app, H. reflexivity.
Qed.

Lemma find_existsb {A} (f : A -> bool) l :
  existsb f l = match find f l with Some _ => true | None => false end.
Proof.
  induction l as [|x l IH]; simpl; [reflexivity|].
  destruct (f x); simpl; auto.
Qed.

Lemma get_or_create_spec course name db :
  exists ptag created db',
    get_or_create course name db = (Ok (ptag, created), db') /\
    grows db db' /\
    has_tag db' course name = true /\
    tag_course ptag = course /\ tag_name ptag = name /\
    In ptag (participation_tags db') /\
    (created = false -> db' = db) /\
    (created = negb (has_tag db course name)).
Proof.
  unfold get_or_create, has_tag. rewrite (find_existsb _ (participation_tags db)).
  destruct (find (tag_matches course name) (participation_tags db)) as [t|] eqn:F.
  - exists t, false, db. rewrite (find_existsb _ (participation_tags db)), F.
    apply find_some in F. destruct F as [Hin Ht].
    unfold tag_matches in Ht. apply andb_prop in Ht. destruct Ht as [Hc Hn].
    apply Nat.eqb_eq in Hc. apply String.eqb_eq in Hn.
    split; [reflexivity|]. split; [apply grows_refl|].
    split; [reflexivity|]. auto.
  - eexists _, true, _. split; [reflexivity|].
    split; [split; simpl; eauto|].
    split.
    { simpl. rewrite existsb_app. simpl. unfold tag_matches at 2. simpl.
      rewrite Nat.eqb_refl, String.eqb_refl. apply orb_true_iff. right. reflexivity. }
    simpl. split; [reflexivity|]. split; [reflexivity|].
    split; [apply in_or_app; right; left; reflexivity|].
    split; [discriminate | reflexivity].
Qed.

Lemma run_ret {A} (a : A) db (Phi : outcome A -> database -> Prop) :
  Phi (Ok a) db -> run (ret a) db Phi.
Proof. auto. Qed.

Lemma run_raise {A} e db (Phi : outcome A -> database -> Prop) :
  Phi (Raise e) db -> run (raise e) db Phi.
Proof. auto. Qed.

(** ** Segments of a token stream *)

Lemma within_nil toks i : within toks i i = [].
Proof. unfold within. rewrite Nat.sub_diag. reflexivity. Qed.

Lemma firstn_plus {A} (a b : nat) (l : list A) :
  firstn (a + b) l = firstn a l ++ firstn b (skipn a l).
Proof.
  revert l. induction a as [|a IH]; intros l; simpl; [reflexivity|].
  destruct l as [|x l]; simpl; [destruct b; reflexivity|]. rewrite IH. reflexivity.
Qed.

Lemma within_split toks i j k :
  i <= j <= k -> within toks i k = within toks i j ++ within toks j k.
Proof.
  intros H. unfold within.
  replace (k - i) with ((j - i) + (k - j)) by lia.
  rewrite firstn_plus, skipn_skipn.
  replace (j - i + i) with j by lia. reflexivity.
Qed.

Lemma within_one toks i tok :
  nth_error toks i = Some tok -> within toks i (i + 1) = [tok].
Proof.
  unfold within. replace (i + 1 - i) with 1 by lia.
  revert i. induction toks as [|t l IH]; intros [|i] H; simpl in *; try discriminate.
  - inversion H; subst. reflexivity.
  - apply IH. exact H.
Qed.

Lemma within_all toks : within toks 0 (List.length toks) = toks.
Proof. unfold within. rewrite Nat.sub_0_r. simpl. apply firstn_all. Qed.

Lemma paren_depth_app a b d :
  paren_depth (a ++ b) d =
  match paren_depth a d with
  | Some d' => paren_depth b d'
  | None => None
  end.
Proof.
  revert d. induction a as [|t a IH]; intros d; simpl; [reflexivity|].
  destruct (tok_tag t); try apply IH. destruct d; [reflexivity | apply IH].
Qed.

Lemma paren_depth_deeper a : forall d d' k,
  paren_depth a d = Some d' -> paren_depth a (d + k) = Some (d' + k).
Proof.
  induction a as [|t a IH]; intros d d' k; simpl.
  - intros H. inversion H; subst. reflexivity.
  - destruct (tok_tag t); try apply IH.
    + intros H. apply (IH (S d) d' k H).
    + destruct d as [|d]; [discriminate|]. simpl. apply IH.
Qed.

Lemma balanced_app a b : balanced a -> balanced b -> balanced (a ++ b).
Proof. unfold balanced. intros Ha Hb. rewrite paren_depth_app, Ha. exact Hb. Qed.

Lemma balanced_join toks i j k :
  i <= j <= k -> balanced (within toks i j) -> balanced (within toks j k) ->
  balanced (within toks i k).
Proof. intros H Ha Hb. rewrite (within_split toks i j k H). apply balanced_app; assumption. Qed.

Lemma balanced_one toks i tok :
  nth_error toks i = Some tok ->
  tok_tag tok <> _openpar -> tok_tag tok <> _closepar ->
  balanced (within toks i (i + 1)).
Proof.
  intros Hn Ho Hc. rewrite (within_one _ _ _ Hn). unfold balanced. simpl.
  destruct (tok_tag tok); congruence.
Qed.

Lemma balanced_group toks i j topen tclose :
  nth_error toks i = Some topen -> tok_tag topen = _openpar ->
  nth_error toks j = Some tclose -> tok_tag tclose = _closepar ->
  i + 1 <= j -> balanced (within toks (i + 1) j) ->
  balanced (within toks i (j + 1)).
Proof.
  intros Hi Ho Hj Hc Hle Hb.
  rewrite (within_split toks i (i + 1) (j + 1)) by lia.
  rewrite (within_split toks (i + 1) j (j + 1)) by lia.
  rewrite (within_one _ _ _ Hi), (within_one _ _ _ Hj).
  unfold balanced in *. simpl. rewrite Ho.
  rewrite paren_depth_app.
  pose proof (paren_depth_deeper _ 0 0 1 Hb) as Hd. simpl in Hd. rewrite Hd.
  simpl. rewrite Hc. reflexivity.
Qed.

Lemma tags_exist_grows course toks i j db db' :
  grows db db' -> tags_exist course toks i j db -> tags_exist course toks i j db'.
Proof.
  intros Hg H k tok g Hk Hn Ht Hm. eapply has_tag_grows; eauto.
Qed.

Lemma tags_exist_join course toks i j k db :
  tags_exist course toks i j db -> tags_exist course toks j k db ->
  tags_exist course toks i k db.
Proof.
  intros H1 H2 n tok g Hn. destruct (Nat.lt_ge_cases n j).
  - apply H1. lia.
  - apply H2. lia.
Qed.

Lemma tags_exist_none course toks i db : tags_exist course toks i i db.
Proof. intros k tok g Hk. lia. Qed.

Lemma is_next_token ps t :
  is_next ps t = true ->
  exists tok, next_token ps = Some tok /\ tok_tag tok = t.
Proof.
  unfold is_next. destruct (next_token ps) as [tok|]; [|discriminate].
  unfold tag_is. destruct (tag_eq_dec (tok_tag tok) t); [eauto | discriminate].
Qed.

Lemma tags_exist_skip course ps t db :
  is_next ps t = true -> t <> _tagged ->
  tags_exist course (lexed ps) (index ps) (index ps + 1) db.
Proof.
  intros H Hne k tok g Hk Hn Ht.
  destruct (is_next_token _ _ H) as [tok' [Hn' Ht']].
  assert (k = index ps) by lia. subst k. unfold next_token in Hn'. congruence.
Qed.

Lemma balanced_skip ps t :
  is_next ps t = true -> t <> _openpar -> t <> _closepar ->
  balanced (within (lexed ps) (index ps) (index ps + 1)).
Proof.
  intros H Ho Hc. destruct (is_next_token _ _ H) as [tok [Hn Ht]].
  apply (balanced_one _ _ tok Hn); congruence.
Qed.

Lemma is_at_end_false ps :
  is_at_end ps = false ->
  exists tok, next_token ps = Some tok /\ index ps < List.length (lexed ps).
Proof.
  unfold is_at_end, next_token. intros H. apply Nat.leb_gt in H.
  destruct (nth_error (lexed ps) (index ps)) eqn:E.
  - eauto.
  - apply nth_error_None in E. lia.
Qed.

Lemma parse_error_is msg tok : is_parse_error (ParseError msg tok).
Proof. exists msg, tok. reflexivity. Qed.

(** ** What the parser leaves behind *)

Lemma parse_terminal_run course ps db :
  is_at_end ps = false ->
  run (parse_terminal course ps) db (parse_terminal_post course ps db).
Proof.
  intros H. destruct (is_at_end_false _ H) as [tok [Ht Hi]].
  assert (Hok : Forall token_ok (lexed ps) -> token_ok tok).
  { intros HF. rewrite Forall_forall in HF. apply HF.
    apply nth_error_In with (n := index ps). exact Ht. }
  assert (Hbal : is_terminal_tag (tok_tag tok) = true ->
                 balanced (within (lexed ps) (index ps) (index ps + 1))).
  { intros Hterm. apply (balanced_one _ _ tok Ht); intros E; rewrite E in Hterm;
      discriminate. }
  assert (Hother : forall db', tok_tag tok <> _tagged ->
            tags_exist course (lexed ps) (index ps) (index ps + 1) db').
  { intros db' Hn k tok' g Hk Hnth. assert (k = index ps) by lia. subst k.
    unfold next_token in Ht. rewrite Ht in Hnth. inversion Hnth; subst. contradiction. }
  unfold run, parse_terminal_post, parse_terminal, bind, lift, next_tag, next_group1,
    expected, raise_parse_error, raise, ret.
  rewrite Ht. unfold token_ok in Hok.
  destruct (tok_tag tok) eqn:Etag;
    try (simpl; split; [apply grows_refl | intros _; apply parse_error_is]);
    destruct (m_group1 (tok_match tok)) as [g|] eqn:Eg;
    try (simpl; split; [apply grows_refl|]; intros HF;
         destruct (Hok HF eq_refl) as [g' [Hg' _]]; discriminate);
    try (simpl; split; [apply grows_refl|];
         split; [reflexivity|];
         split; [apply Hother; discriminate | apply Hbal; reflexivity]).
  - destruct (int g) as [n|e|] eqn:Ei; simpl; (split; [apply grows_refl|]).
    + split; [reflexivity|].
      split; [apply Hother; discriminate | apply Hbal; reflexivity].
    + intros HF. destruct (Hok HF eq_refl) as [g' [Hg' Hint]].
      inversion Hg'; subst g'. destruct (Hint eq_refl) as [n Hn]. congruence.
    + unfold int in Ei.
      destruct (negb (is_empty g) && string_forallb is_digit g); discriminate.
  - destruct (get_or_create_spec course g db) as (ptag & created & db' & E & Hg & Hh & _).
    rewrite E. simpl. split; [exact Hg|]. split; [reflexivity|].
    split; [|apply Hbal; reflexivity].
    intros k tok' g' Hk Hnth _ Hg'. assert (k = index ps) by lia. subst k.
    unfold next_token in Ht. rewrite Ht in Hnth. inversion Hnth; subst.
    rewrite Eg in Hg'. inversion Hg'; subst. exact Hh.
Qed.

Lemma inner_parse_post course fuel :
  (forall ps mp db,
      run (inner_parse fuel course ps mp) db (parse_post course true fuel ps db)) /\
  (forall left ps mp db,
      index ps <= List.length (lexed ps) ->
      run (inner_parse_loop fuel course left ps mp) db
        (parse_post course false fuel ps db)).
Proof.
  induction fuel as [|f [IHp IHl]].
  - split; intros; unfold run; simpl; (split; [apply grows_refl | lia]).
  - split.
    + intros ps mp db. cbn [inner_parse].
      apply run_bind. unfold expect_not_end.
      destruct (is_at_end ps) eqn:E.
      { apply run_raise. simpl. split; [apply grows_refl|].
        intros _. apply parse_error_is. }
      apply run_ret. simpl then_run.
      destruct (is_at_end_false _ E) as [tok [Htok Hlt]].
      apply run_bind.
      eapply run_mono with
        (Phi := fun o d =>
           grows db d /\
           match o with
           | Ok (q, ps1) =>
               lexed ps1 = lexed ps /\ raw_string ps1 = raw_string ps /\
               index ps + 1 <= index ps1 <= List.length (lexed ps) /\
               tags_exist course (lexed ps) (index ps) (index ps1) d /\
               balanced (within (lexed ps) (index ps) (index ps1))
           | Raise e => Forall token_ok (lexed ps) -> is_parse_error e
           | OutOfFuel => f < 2 * remaining (advance ps) + 1
           end).
      * destruct (is_next ps _not) eqn:Enot; [|destruct (is_next ps _openpar) eqn:Epar].
        -- apply run_bind. eapply run_mono; [apply IHp|].
           intros [[q ps1]|e|] d1 [Hg H]; simpl then_run.
           ++ apply run_ret. split; [exact Hg|]. simpl in H.
              destruct H as (Hl & Hr & Hi & Ht & Hb).
              split; [congruence|]. split; [congruence|]. split; [lia|]. split.
              ** eapply tags_exist_join; [|exact Ht].
                 eapply tags_exist_skip; [exact Enot | discriminate].
              ** apply (balanced_join _ _ (index ps + 1)); [lia | | exact Hb].
                 eapply balanced_skip; [exact Enot | discriminate | discriminate].
           ++ split; [exact Hg | exact H].
           ++ split; [exact Hg | exact H].
        -- apply run_bind. eapply run_mono; [apply IHp|].
           intros [[q ps1]|e|] d1 [Hg H]; simpl then_run.
           ++ simpl in H. destruct H as (Hl & Hr & Hi & Ht & Hb).
              apply run_bind. unfold expect. apply run_bind. unfold expect_not_end.
              destruct (is_at_end ps1) eqn:E1.
              { apply run_raise. simpl. split; [exact Hg|].
                intros _. apply parse_error_is. }
              apply run_ret. simpl then_run.
              destruct (is_next ps1 _closepar) eqn:Ecl.
              2:{ apply run_raise. simpl. split; [exact Hg|].
                  intros _. apply parse_error_is. }
              apply run_ret. simpl then_run. apply run_ret.
              destruct (is_at_end_false _ E1) as [tok1 [Htok1 Hlt1]].
              split; [exact Hg|]. simpl. rewrite Hl in Hlt1.
              split; [congruence|]. split; [congruence|]. split; [lia|]. split.
              ** eapply tags_exist_join.
                 { eapply tags_exist_skip; [exact Epar | discriminate]. }
                 eapply tags_exist_join; [exact Ht|].
                 rewrite <- Hl. eapply tags_exist_skip; [exact Ecl | discriminate].
              ** destruct (is_next_token _ _ Epar) as [to [Hto Htago]].
                 destruct (is_next_token _ _ Ecl) as [tc [Htc Htagc]].
                 unfold next_token in Hto, Htc. rewrite Hl in Htc.
                 apply (balanced_group _ _ _ to tc); auto. lia.
           ++ split; [exact Hg | exact H].
           ++ split; [exact Hg | exact H].
        -- eapply run_mono; [apply parse_terminal_run; exact E|].
           intros [[q ps1]|e|] d1 [Hg H]; (split; [exact Hg|]); auto.
           ++ destruct H as (-> & Ht & Hb). simpl.
              split; [reflexivity|]. split; [reflexivity|]. split; [lia|].
              split; assumption.
           ++ contradiction.
      * intros [[q ps1]|e|] d1 [Hg H]; simpl then_run.
        -- destruct H as (Hl & Hr & Hi & Ht & Hb).
           eapply run_mono; [apply IHl; rewrite Hl; lia|].
           intros [[q2 ps2]|e|] d2 [Hg2 H2]; (split; [eapply grows_trans; eauto|]).
           ++ simpl in H2. destruct H2 as (Hl2 & Hr2 & Hi2 & Ht2 & Hb2).
              rewrite Hl in *.
              split; [congruence|]. split; [congruence|]. split; [lia|]. split.
              ** eapply tags_exist_join; [|exact Ht2].
                 eapply tags_exist_grows; eauto.
              ** apply (balanced_join _ _ (index ps1)); [lia | exact Hb | exact Hb2].
           ++ rewrite Hl in H2. exact H2.
           ++ unfold remaining in *. rewrite Hl in H2. lia.
        -- split; [exact Hg | exact H].
        -- split; [exact Hg|]. unfold remaining in *. simpl in H. lia.
    + intros left ps mp db Hle. cbn [inner_parse_loop].
      destruct (is_at_end ps) eqn:E.
      { apply run_ret. split; [apply grows_refl|].
        split; [reflexivity|]. split; [reflexivity|]. split; [lia|].
        split; [apply tags_exist_none|]. rewrite within_nil. reflexivity. }
      destruct (is_at_end_false _ E) as [tok [Htok Hlt]].
      apply run_bind. unfold lift, run at 1, next_tag. rewrite Htok. simpl then_run.
      assert (Hstep : forall ps0 mp' (op : Q -> Q -> Q),
                 lexed ps0 = lexed ps -> raw_string ps0 = raw_string ps ->
                 index ps <= index ps0 ->
                 (forall d, tags_exist course (lexed ps) (index ps) (index ps0) d) ->
                 balanced (within (lexed ps) (index ps) (index ps0)) ->
                 run (x <- inner_parse f course ps0 mp' ;;
                      (let (q, pstate) := x in
                       inner_parse_loop f course (op left q) pstate mp))
                   db (parse_post course false (S f) ps db)).
      { intros ps0 mp' op Hl0 Hr0 Hi0 Ht0 Hb0.
        apply run_bind. eapply run_mono; [apply IHp|].
        intros [[q ps1]|e|] d1 [Hg H]; simpl then_run.
        - simpl in H. destruct H as (Hl & Hr & Hi & Ht & Hb).
          eapply run_mono; [apply IHl; rewrite Hl; lia|].
          intros [[q2 ps2]|e|] d2 [Hg2 H2]; (split; [eapply grows_trans; eauto|]).
          + simpl in H2. destruct H2 as (Hl2 & Hr2 & Hi2 & Ht2 & Hb2).
            rewrite Hl, Hl0 in *.
            split; [congruence|]. split; [congruence|]. split; [lia|]. split.
            * eapply tags_exist_join; [apply Ht0|].
              eapply tags_exist_join; [|exact Ht2].
              eapply tags_exist_grows; eauto.
            * apply (balanced_join _ _ (index ps0)); [lia | exact Hb0 |].
              apply (balanced_join _ _ (index ps1)); [lia | exact Hb | exact Hb2].
          + rewrite Hl, Hl0 in H2. exact H2.
          + unfold remaining in *. rewrite Hl, Hl0 in H2. lia.
        - split; [exact Hg|]. rewrite Hl0 in H. exact H.
        - split; [exact Hg|]. unfold remaining in *. rewrite Hl0 in H. lia. }
      assert (Hnext : forall t, tag_is (tok_tag tok) t = true -> is_next ps t = true).
      { intros t Ht. unfold is_next. rewrite Htok. exact Ht. }
      destruct (tag_is (tok_tag tok) _and && (mp <? _PREC_AND)) eqn:Eand.
      { apply andb_prop in Eand. destruct Eand as [Eand _]. apply Hnext in Eand.
        apply Hstep; simpl; try reflexivity; try lia.
        - intros d. eapply tags_exist_skip; [exact Eand | discriminate].
        - eapply balanced_skip; [exact Eand | discriminate | discriminate]. }
      destruct (tag_is (tok_tag tok) _or && (mp <? _PREC_OR)) eqn:Eor.
      { apply andb_prop in Eor. destruct Eor as [Eor _]. apply Hnext in Eor.
        apply Hstep; simpl; try reflexivity; try lia.
        - intros d. eapply tags_exist_skip; [exact Eor | discriminate].
        - eapply balanced_skip; [exact Eor | discriminate | discriminate]. }
      match goal with |- run (if ?b then _ else _) _ _ => destruct b end.
      { apply Hstep; try reflexivity; try lia.
        - intros d. apply tags_exist_none.
        - rewrite within_nil. reflexivity. }
      apply run_ret. split; [apply grows_refl|].
      split; [reflexivity|]. split; [reflexivity|]. split; [lia|].
      split; [apply tags_exist_none|]. rewrite within_nil. reflexivity.
Qed.

(** ** The lexer *)

Lemma take_while_all cls s : string_forallb cls s = true -> take_while cls s = s.
Proof.
  induction s as [|c s IH]; simpl; [reflexivity|].
  intros H. apply andb_prop in H. destruct H as [Hc Hs]. rewrite Hc, IH; auto.
Qed.

Lemma take_while_forallb cls s : string_forallb cls (take_while cls s) = true.
Proof.
  induction s as [|c s IH]; simpl; [reflexivity|].
  destruct (cls c) eqn:E; simpl; [rewrite E, IH|]; reflexivity.
Qed.

Lemma take_all s : take (String.length s) s = s.
Proof. induction s; simpl; congruence. Qed.

Lemma take_app s rest : take (String.length s) (s ++ rest) = s.
Proof. induction s; simpl; [destruct rest; reflexivity | congruence]. Qed.

Lemma strip_prefix_app p s : strip_prefix p (p ++ s) = Some s.
Proof.
  induction p as [|c p IH]; simpl; [destruct s; reflexivity|].
  rewrite Ascii.eqb_refl. exact IH.
Qed.

Lemma is_empty_true s : is_empty s = true -> s = "".
Proof. destruct s; [reflexivity | discriminate]. Qed.

Lemma lex_at_total lex_table s : forall i skip, lex_at lex_table s i skip <> OutOfFuel.
Proof.
  induction s as [|c s IH]; intros i skip; simpl; [discriminate|].
  destruct skip; [|apply IH].
  destruct (first_rule lex_table (String c s)) as [[name m]|]; [|discriminate].
  specialize (IH (S i) (m_end m - 1)).
  destruct (lex_at lex_table s (S i) (m_end m - 1)); congruence.
Qed.

Lemma lex_at_skip_rest lex_table s : forall i k,
  String.length s <= k -> lex_at lex_table s i k = Ok [].
Proof.
  induction s as [|c s IH]; intros i k H; simpl; [reflexivity|].
  simpl in H. destruct k; [lia|]. apply IH. lia.
Qed.

Lemma lex_at_skip lex_table s rest : forall i,
  lex_at lex_table (s ++ rest) i (String.length s)
  = lex_at lex_table rest (i + String.length s) 0.
Proof.
  induction s as [|c s IH]; intros i; simpl.
  - rewrite Nat.add_0_r. destruct rest; reflexivity.
  - rewrite IH. f_equal. lia.
Qed.

(** A token in front of more text. *)
Lemma lex_at_token lex_table tok rest i name m :
  first_rule lex_table (tok ++ rest) = Some (name, m) ->
  m_end m = String.length tok -> 0 < String.length tok ->
  lex_at lex_table (tok ++ rest) i 0 =
  match lex_at lex_table rest (i + String.length tok) 0 with
  | Ok toks => Ok (Token name tok i m :: toks)
  | Raise e => Raise e
  | OutOfFuel => OutOfFuel
  end.
Proof.
  intros Hf Hm Hl. destruct tok as [|c tok]; simpl in *; [lia|].
  rewrite Hf, Hm. simpl. rewrite Nat.sub_0_r, lex_at_skip.
  replace (i + S (String.length tok)) with (S i + String.length tok) by lia.
  rewrite take_app. reflexivity.
Qed.

(** A token that ends the text. *)
Lemma lex_at_last_token lex_table tok i name m :
  first_rule lex_table tok = Some (name, m) ->
  m_end m = String.length tok -> 0 < String.length tok ->
  lex_at lex_table tok i 0 = Ok [Token name tok i m].
Proof.
  intros Hf Hm Hl. destruct tok as [|c tok]; [simpl in Hl; lia|].
  cbn [lex_at]. rewrite Hf, Hm, take_all.
  rewrite lex_at_skip_rest by (simpl; lia). reflexivity.
Qed.

Lemma first_rule_skip name rule rest s :
  re_match rule s = None ->
  first_rule ((name, rule) :: rest) s = first_rule rest s.
Proof. intros H. simpl. rewrite H. reflexivity. Qed.

Lemma first_rule_hit name rule rest s m :
  re_match rule s = Some m -> m_end m <> 0 ->
  first_rule ((name, rule) :: rest) s = Some (name, m).
Proof.
  intros H Hm. simpl. rewrite H. apply Nat.eqb_neq in Hm. rewrite Hm. reflexivity.
Qed.

Lemma first_rule_In lex_table s name m :
  first_rule lex_table s = Some (name, m) ->
  exists rule, In (name, rule) lex_table /\ re_match rule s = Some m.
Proof.
  induction lex_table as [|[n r] rest IH]; simpl; [discriminate|].
  destruct (re_match r s) as [m'|] eqn:E.
  - destruct (m_end m' =? 0).
    + intros H. destruct (IH H) as [rule [Hin Hm]]. eauto.
    + intros H. inversion H; subst. eauto.
  - intros H. destruct (IH H) as [rule [Hin Hm]]. eauto.
Qed.

Lemma lex_at_tokens lex_table s : forall i skip toks tok,
  lex_at lex_table s i skip = Ok toks -> In tok toks ->
  exists s', first_rule lex_table s' = Some (tok_tag tok, tok_match tok).
Proof.
  induction s as [|c s IH]; intros i skip toks tok; simpl.
  - intros H. inversion H; subst. contradiction.
  - destruct skip; [|apply IH].
    destruct (first_rule lex_table (String c s)) as [[name m]|] eqn:F; [|discriminate].
    destruct (lex_at lex_table s (S i) (m_end m - 1)) as [toks'| |] eqn:L; try discriminate.
    intros H. inversion H; subst. intros [<- | Hin].
    + exists (String c s). exact F.
    + eapply IH; eauto.
Qed.

Lemma re_match_capture prefix cls g :
  is_empty g = false -> string_forallb cls g = true ->
  re_match (RE_capture prefix cls) (prefix ++ g)
  = Some (MatchObj (String.length prefix + String.length g) (Some g)).
Proof.
  intros He Hg. unfold re_match. rewrite strip_prefix_app, (take_while_all _ _ Hg), He.
  reflexivity.
Qed.

Lemma re_match_capture_inv prefix cls s m :
  re_match (RE_capture prefix cls) s = Some m ->
  exists g, m_group1 m = Some g /\ is_empty g = false /\ string_forallb cls g = true.
Proof.
  unfold re_match. destruct (strip_prefix prefix s) as [rest|]; [|discriminate].
  destruct (is_empty (take_while cls rest)) eqn:E; [discriminate|].
  intros H. inversion H; subst. simpl.
  exists (take_while cls rest). auto using take_while_forallb.
Qed.

(** The rule of a terminal kind captures one group; that of [id:], digits. *)
Lemma terminal_rule name rule :
  In (name, rule) _LEX_TABLE -> is_terminal_tag name = true ->
  exists prefix cls,
    rule = RE_capture prefix cls /\ (name = _id -> cls = is_digit).
Proof.
  unfold _LEX_TABLE. simpl. intros H Ht.
  repeat (destruct H as [H | H];
          [inversion H; subst; clear H; simpl in Ht; try discriminate Ht;
           do 2 eexists; (split; [reflexivity|]); intros E; try discriminate E;
           reflexivity|]).

  contradiction.
Qed.

Lemma int_digits g :
  is_empty g = false -> string_forallb is_digit g = true ->
  int g = Ok (digits_value g 0%Z).
Proof. intros He Hd. unfold int. rewrite He, Hd. reflexivity. Qed.

Lemma lexed_token_ok s toks tok :
  lex _LEX_TABLE s = Ok toks -> In tok toks -> token_ok tok.
Proof.
  intros L Hin Hterm.
  destruct (lex_at_tokens _ _ _ _ _ _ L Hin) as [s' F].
  destruct (first_rule_In _ _ _ _ F) as [rule [Hr Hm]].
  destruct (terminal_rule _ _ Hr Hterm) as (prefix & cls & -> & Hid).
  destruct (re_match_capture_inv _ _ _ _ Hm) as (g & Hg & He & Hc).
  exists g. split; [exact Hg|]. intros E. rewrite (Hid E) in Hc.
  exists (digits_value g 0%Z). apply int_digits; assumption.
Qed.

Lemma lexed_tokens_ok s toks :
  lex _LEX_TABLE s = Ok toks -> Forall token_ok (significant toks).
Proof.
  intros L. apply Forall_forall. intros tok Hin.
  unfold significant in Hin. apply filter_In in Hin.
  apply (lexed_token_ok s toks); tauto.
Qed.

Lemma significant_In tok toks :
  In tok toks -> tok_tag tok = _tagged -> In tok (significant toks).
Proof.
  intros H Ht. unfold significant. apply filter_In. split; [exact H|].
  rewrite Ht. reflexivity.
Qed.

Lemma first_rule_has_started F :
  is_empty F = false -> string_forallb is_dash_word F = true ->
  first_rule _LEX_TABLE ("has-started:" ++ F)
  = Some (_has_started, MatchObj (12 + String.length F) (Some F)).
Proof.
  intros He Hw. unfold _LEX_TABLE.
  do 13 (rewrite first_rule_skip by (vm_compute; reflexivity)).
  apply first_rule_hit.
  - apply (re_match_capture "has-started:" is_dash_word F He Hw).
  - simpl. lia.
Qed.

Lemma first_rule_has_submitted F :
  is_empty F = false -> string_forallb is_dash_word F = true ->
  first_rule _LEX_TABLE ("has-submitted:" ++ F)
  = Some (_has_submitted, MatchObj (14 + String.length F) (Some F)).
Proof.
  intros He Hw. unfold _LEX_TABLE.
  do 14 (rewrite first_rule_skip by (vm_compute; reflexivity)).
  apply first_rule_hit.
  - apply (re_match_capture "has-submitted:" is_dash_word F He Hw).
  - simpl. lia.
Qed.

Lemma lex_has_started F i :
  is_empty F = false -> string_forallb is_dash_word F = true ->
  lex_at _LEX_TABLE ("has-started:" ++ F) i 0
  = Ok [Token _has_started ("has-started:" ++ F) i
          (MatchObj (12 + String.length F) (Some F))].
Proof.
  intros He Hw. apply lex_at_last_token.
  - apply first_rule_has_started; assumption.
  - reflexivity.
  - simpl. lia.
Qed.

Lemma lex_has_submitted F i :
  is_empty F = false -> string_forallb is_dash_word F = true ->
  lex_at _LEX_TABLE ("has-submitted:" ++ F) i 0
  = Ok [Token _has_submitted ("has-submitted:" ++ F) i
          (MatchObj (14 + String.length F) (Some F))].
Proof.
  intros He Hw. apply lex_at_last_token.
  - apply first_rule_has_submitted; assumption.
  - reflexivity.
  - simpl. lia.
Qed.

(** Lexes a token that stands in front of more text. *)
Ltac lex_token tok name m :=
  rewrite (lex_at_token _ tok _ _ name m)
    by ((vm_compute; reflexivity) || (simpl; lia)).

(** ** [parse_query] *)

Lemma parse_query_run course s db :
  run (parse_query course s) db (parse_query_post course s db).
Proof.
  unfold parse_query. apply run_bind. unfold lift, run at 1. simpl fst. simpl snd.
  destruct (lex _LEX_TABLE s) as [toks| e |] eqn:L; simpl then_run.
  - match goal with |- run (if ?b then _ else _) _ _ => destruct b eqn:E end.
    { apply run_raise. split; [apply grows_refl|]. intros _ _. apply parse_error_is. }
    apply run_bind. eapply run_mono; [apply (inner_parse_post course)|].
    intros [[q ps1]|e|] d1 [Hg H]; simpl then_run.
    + simpl in H. destruct H as (Hl & Hr & Hi & Ht & Hb).
      destruct (is_at_end ps1) eqn:E1; simpl negb; cbv iota.
      2:{ apply run_raise. split; [exact Hg|]. intros _ _. apply parse_error_is. }
      apply run_ret. split; [exact Hg|].
      intros toks' L'. assert (toks' = toks) by congruence. subst toks'.
      unfold is_at_end in E1. apply Nat.leb_le in E1. rewrite Hl in E1. simpl in E1.
      assert (Hend : index ps1 = List.length (significant toks)) by lia.
      split.
      * rewrite Hend, within_all in Hb. exact Hb.
      * intros tok g Hin Htag Hgr.
        apply (significant_In _ _ Hin) in Htag as Hin'.
        apply In_nth_error in Hin'. destruct Hin' as [k Hk].
        apply (Ht k tok g); auto.
        split; [lia|].
        assert (k < List.length (significant toks)) by (apply nth_error_Some; congruence).
        lia.
    + split; [exact Hg|]. intros toks' L'.
      assert (toks' = toks) by congruence. subst toks'.
      apply H. simpl. apply (lexed_tokens_ok s). exact L.
    + split; [exact Hg|]. intros _ _. unfold parse_fuel, remaining in H. simpl in H. lia.
  - split; [apply grows_refl|]. intros toks L'. congruence.
  - exfalso. exact (lex_at_total _ _ _ _ L).
Qed.

Lemma parse_query_total course s db : fst (parse_query course s db) <> OutOfFuel.
Proof.
  pose proof (parse_query_run course s db) as H. unfold run, parse_query_post in H.
  destruct H as [_ H]. intros E. rewrite E in H.
  unfold parse_query, bind, lift in E.
  destruct (lex _LEX_TABLE s) as [toks|e|] eqn:L.
  - exact (H toks eq_refl).
  - discriminate.
  - exact (lex_at_total _ _ _ _ L).
Qed.

Lemma parse_query_grows course s db : grows db (snd (parse_query course s db)).
Proof. apply (parse_query_run course s db). Qed.

Lemma lex_at_raises lex_table s : forall i k e,
  lex_at lex_table s i k = Raise e -> exists j, e = InvalidTokenError j.
Proof.
  induction s as [|c s IH]; intros i k e; simpl; [discriminate|].
  destruct k; [|apply IH].
  destruct (first_rule lex_table (String c s)) as [[name m]|].
  - destruct (lex_at lex_table s (S i) (m_end m - 1)) eqn:L'; try discriminate.
    intros H. inversion H; subst. eapply IH; eauto.
  - intros H. inversion H; subst. eauto.
Qed.

(** An exception of [parse_query] is the lexer's or a [ParseError]. *)
Lemma parse_query_raises course s db e :
  fst (parse_query course s db) = Raise e ->
  (exists i, e = InvalidTokenError i) \/ is_parse_error e.
Proof.
  intros E. pose proof (parse_query_run course s db) as H.
  unfold run, parse_query_post in H. destruct H as [_ H]. rewrite E in H.
  destruct (lex _LEX_TABLE s) as [toks|e'|] eqn:L.
  - right. exact (H toks eq_refl).
  - left.
    assert (P : parse_query course s db = (Raise e', db))
      by (unfold parse_query, bind, lift; rewrite L; reflexivity).
    rewrite P in E. inversion E; subst.
    exact (lex_at_raises _ _ _ _ _ L).
  - exfalso. exact (lex_at_total _ _ _ _ L).
Qed.

(** ** Parsing in two stores

    The parser reads the store only through [get_or_create].  Whatever
    relation [R] on predicates and invariant [Inv] on stores that call
    respects, two runs on the same text respect too. *)

Section Simulation.

Variable Inv : database -> Prop.
Variable R : Q -> Q -> Prop.

Hypothesis R_leaf : forall kw, R (Q_ kw) (Q_ kw).
Hypothesis R_and : forall a a' b b', R a a' -> R b b' -> R (QAnd a b) (QAnd a' b').
Hypothesis R_or : forall a a' b b', R a a' -> R b b' -> R (QOr a b) (QOr a' b').
Hypothesis R_not : forall a a', R a a' -> R (QNot a) (QNot a').
Hypothesis R_tag : forall course name d1 d2 t1 c1 d1' t2 c2 d2',
  Inv d1 -> Inv d2 ->
  get_or_create course name d1 = (Ok (t1, c1), d1') ->
  get_or_create course name d2 = (Ok (t2, c2), d2') ->
  R (Q_ (tags__pk (tag_pk t1))) (Q_ (tags__pk (tag_pk t2))) /\ Inv d1' /\ Inv d2'.

Lemma sim_bind {A B} (RA : A -> A -> Prop) (RB : B -> B -> Prop)
    (m1 m2 : M A) (k1 k2 : A -> M B) :
  sim Inv RA m1 m2 -> (forall a1 a2, RA a1 a2 -> sim Inv RB (k1 a1) (k2 a2)) ->
  sim Inv RB (bind m1 k1) (bind m2 k2).
Proof.
  intros Hm Hk d1 d2 I1 I2. specialize (Hm d1 d2 I1 I2).
  unfold bind, sim_result in *.
  destruct (m1 d1) as [[a1|e1|] d1'], (m2 d2) as [[a2|e2|] d2']; try contradiction; auto.
  destruct Hm as (Ha & I1' & I2'). apply (Hk a1 a2 Ha d1' d2' I1' I2').
Qed.

Lemma sim_ret {A} (RA : A -> A -> Prop) a1 a2 :
  RA a1 a2 -> sim Inv RA (ret a1) (ret a2).
Proof. intros H d1 d2 I1 I2. simpl. auto. Qed.

Lemma sim_raise {A} (RA : A -> A -> Prop) e : sim Inv RA (raise e) (raise e).
Proof. intros d1 d2 I1 I2. simpl. auto. Qed.

Lemma sim_lift {A} (o : outcome A) : sim Inv eq (lift o) (lift o).
Proof. intros d1 d2 I1 I2. unfold lift. destruct o; simpl; auto. Qed.

Lemma sim_out_of_fuel {A} (RA : A -> A -> Prop) : sim Inv RA out_of_fuel out_of_fuel.
Proof. intros d1 d2 I1 I2. simpl. auto. Qed.

Lemma sim_parse_terminal course ps :
  sim Inv (parsed_rel R) (parse_terminal course ps) (parse_terminal course ps).
Proof.
  unfold parse_terminal.
  eapply sim_bind; [apply sim_lift|]. intros t ? <-.
  destruct t;
    try (apply sim_raise);
    try (eapply sim_bind; [apply sim_lift|]; intros g ? <-;
         try (apply sim_ret; split; simpl; auto; fail)).
  - eapply sim_bind; [apply sim_lift|]. intros n ? <-.
    apply sim_ret; split; simpl; auto.
  - eapply sim_bind with (RA := fun x y => R (Q_ (tags__pk (tag_pk (fst x))))
                                             (Q_ (tags__pk (tag_pk (fst y))))).
    + intros d1 d2 I1 I2.
      destruct (get_or_create_spec course g d1) as (t1 & c1 & d1' & E1 & _).
      destruct (get_or_create_spec course g d2) as (t2 & c2 & d2' & E2 & _).
      rewrite E1, E2. simpl. exact (R_tag _ _ _ _ _ _ _ _ _ _ I1 I2 E1 E2).
    + intros [t1 c1] [t2 c2] H. apply sim_ret. split; simpl; auto.
Qed.

Lemma sim_expect_not_end ps : sim Inv eq (expect_not_end ps) (expect_not_end ps).
Proof.
  unfold expect_not_end. destruct (is_at_end ps);
    [apply sim_raise | apply sim_ret; reflexivity].
Qed.

Lemma sim_expect ps t : sim Inv eq (expect ps t) (expect ps t).
Proof.
  unfold expect. eapply sim_bind; [apply sim_expect_not_end|]. intros _ _ _.
  destruct (is_next ps t); [apply sim_ret; reflexivity | apply sim_raise].
Qed.

Lemma sim_inner_parse course fuel :
  (forall ps mp,
      sim Inv (parsed_rel R) (inner_parse fuel course ps mp)
                             (inner_parse fuel course ps mp)) /\
  (forall l1 l2 ps mp,
      R l1 l2 ->
      sim Inv (parsed_rel R) (inner_parse_loop fuel course l1 ps mp)
                             (inner_parse_loop fuel course l2 ps mp)).
Proof.
  induction fuel as [|f [IHp IHl]].
  - split; intros; apply sim_out_of_fuel.
  - split.
    + intros ps mp. cbn [inner_parse].
      eapply sim_bind; [apply sim_expect_not_end|]. intros _ _ _.
      eapply sim_bind with (RA := parsed_rel R).
      * destruct (is_next ps _not); [|destruct (is_next ps _openpar)].
        -- eapply sim_bind; [apply IHp|]. intros [q1 p1] [q2 p2] [Hq Hp]; simpl in *.
           subst. apply sim_ret. split; simpl; auto.
        -- eapply sim_bind; [apply IHp|]. intros [q1 p1] [q2 p2] [Hq Hp]; simpl in *.
           subst. eapply sim_bind; [apply sim_expect|]. intros _ _ _.
           apply sim_ret. split; simpl; auto.
        -- apply sim_parse_terminal.
      * intros [q1 p1] [q2 p2] [Hq Hp]; simpl in *. subst. apply IHl. exact Hq.
    + intros l1 l2 ps mp Hl. cbn [inner_parse_loop].
      destruct (is_at_end ps); [apply sim_ret; split; simpl; auto|].
      eapply sim_bind; [apply sim_lift|]. intros t ? <-.
      repeat match goal with
             | |- sim _ _ (if ?b then _ else _) _ => destruct b
             end;
        try (apply sim_ret; split; simpl; auto; fail);
        (eapply sim_bind; [apply IHp|]; intros [q1 p1] [q2 p2] [Hq Hp]; simpl in *;
         subst; apply IHl; auto).
Qed.

Lemma sim_parse_query course s :
  sim Inv R (parse_query course s) (parse_query course s).
Proof.
  unfold parse_query.
  eapply sim_bind; [apply sim_lift|]. intros toks ? <-.
  match goal with |- sim _ _ (if ?b then _ else _) _ => destruct b end;
    [apply sim_raise|].
  eapply sim_bind; [apply (sim_inner_parse course)|].
  intros [q1 p1] [q2 p2] [Hq Hp]; simpl in *. subst.
  destruct (negb (is_at_end p2)); [apply sim_raise | apply sim_ret; auto].
Qed.

End Simulation.

(** Whether a query parses, and the exception when it does not, do not
    depend on the store. *)
Lemma parse_query_same_outcome course s d1 d2 :
  match fst (parse_query course s d1), fst (parse_query course s d2) with
  | Ok _, Ok _ => True
  | Raise e1, Raise e2 => e1 = e2
  | _, _ => False
  end.
Proof.
  pose proof (sim_parse_query (fun _ => True) (fun _ _ => True)) as H.
  specialize (H (fun _ => I) (fun _ _ _ _ _ _ => I) (fun _ _ _ _ _ _ => I)
                (fun _ _ _ => I)).
  specialize (H (fun _ _ _ _ _ _ _ _ _ _ _ _ _ _ => conj I (conj I I))).
  specialize (H course s d1 d2 I I). unfold sim_result in H.
  pose proof (parse_query_total course s d1) as T1.
  destruct (parse_query course s d1) as [[q1|e1|] d1'],
           (parse_query course s d2) as [[q2|e2|] d2']; simpl in *; tauto.
Qed.

(** ** New tags have new keys *)

Lemma next_pk_above tags t : In t tags -> tag_pk t < next_pk tags.
Proof.
  unfold next_pk. induction tags as [|x l IH]; simpl; [contradiction|].
  intros [-> | H]; [lia|]. specialize (IH H). lia.
Qed.

Lemma next_pk_new tags : ~ In (next_pk tags) (pks tags).
Proof.
  unfold pks. intros H. apply in_map_iff in H. destruct H as [t [E Hin]].
  apply next_pk_above in Hin. lia.
Qed.

Lemma find_app {A} (f : A -> bool) l1 l2 :
  find f (l1 ++ l2) = match find f l1 with Some x => Some x | None => find f l2 end.
Proof. induction l1 as [|x l IH]; simpl; [reflexivity|]. destruct (f x); auto. Qed.

Lemma extends_tags_refl db : extends_tags (participation_tags db) db.
Proof. exists []. rewrite app_nil_r. split; [reflexivity | contradiction]. Qed.

Lemma get_or_create_extends base course name db t created db' :
  extends_tags base db ->
  get_or_create course name db = (Ok (t, created), db') ->
  extends_tags base db' /\
  match find (tag_matches course name) base with
  | Some t0 => t = t0
  | None => ~ In (tag_pk t) (pks base)
  end.
Proof.
  intros (l & Hl & Hnew). unfold get_or_create. rewrite Hl, find_app.
  destruct (find (tag_matches course name) base) as [t0|] eqn:F0.
  - intros E. inversion E; subst. split; [|reflexivity].
    exists l. auto.
  - destruct (find (tag_matches course name) l) as [t1|] eqn:F1.
    + intros E. inversion E; subst. split; [exists l; auto|].
      apply find_some in F1. apply Hnew, F1.
    + intros E. inversion E; subst. simpl.
      assert (Hn : ~ In (next_pk (base ++ l)) (pks base)).
      { intros H. apply (next_pk_new (base ++ l)). unfold pks in *.
        rewrite map_app. apply in_or_app. left. exact H. }
      split; [|exact Hn].
      exists (l ++ [ {| tag_pk := next_pk (base ++ l); tag_course := course;
                        tag_name := name |} ]).
      split; [rewrite app_assoc; reflexivity|].
      intros t Ht. apply in_app_or in Ht. destruct Ht as [Ht | [<- | []]]; auto.
Qed.

Lemma same_but_new_tags_get_or_create base course name d1 d2 t1 c1 d1' t2 c2 d2' :
  extends_tags base d1 -> extends_tags base d2 ->
  get_or_create course name d1 = (Ok (t1, c1), d1') ->
  get_or_create course name d2 = (Ok (t2, c2), d2') ->
  same_but_new_tags (pks base) (Q_ (tags__pk (tag_pk t1))) (Q_ (tags__pk (tag_pk t2)))
  /\ extends_tags base d1' /\ extends_tags base d2'.
Proof.
  intros I1 I2 E1 E2.
  destruct (get_or_create_extends _ _ _ _ _ _ _ I1 E1) as [I1' H1].
  destruct (get_or_create_extends _ _ _ _ _ _ _ I2 E2) as [I2' H2].
  split; [|split; assumption].
  destruct (find (tag_matches course name) base).
  - subst. apply sbn_leaf.
  - apply sbn_new; assumption.
Qed.

(** Parsing in two stores that extend [base]. *)
Lemma parse_query_over_base base course s :
  sim (extends_tags base) (same_but_new_tags (pks base))
    (parse_query course s) (parse_query course s).
Proof.
  apply sim_parse_query.
  - apply sbn_leaf.
  - apply sbn_and.
  - apply sbn_or.
  - apply sbn_not.
  - apply same_but_new_tags_get_or_create.
Qed.

Lemma parse_query_extends base course s db :
  extends_tags base db -> extends_tags base (snd (parse_query course s db)).
Proof.
  intros Hi. pose proof (parse_query_over_base base course s db db Hi Hi) as H.
  pose proof (parse_query_total course s db) as T.
  unfold sim_result in H.
  destruct (parse_query course s db) as [[q|e|] d]; simpl in *; tauto.
Qed.

(** The predicate a text parses to in any store, read off the one it parses
    to in the empty store. *)
Lemma parse_query_up_to_tags course s db q0 d0 :
  parse_query course s empty_database = (Ok q0, d0) ->
  exists q db', parse_query course s db = (Ok q, db') /\ same_but_new_tags [] q0 q.
Proof.
  intros P0.
  assert (H : sim (fun _ => True) (same_but_new_tags [])
                (parse_query course s) (parse_query course s)).
  { apply sim_parse_query.
    - apply sbn_leaf.
    - apply sbn_and.
    - apply sbn_or.
    - apply sbn_not.
    - intros. split; [apply sbn_new; intros []|]. split; exact I. }
  specialize (H empty_database db I I). rewrite P0 in H.
  unfold sim_result in H.
  destruct (parse_query course s db) as [[q|e|] db']; try contradiction.
  exists q, db'. split; [reflexivity | apply H].
Qed.

Lemma session_conds_same known q1 q2 :
  same_but_new_tags known q1 q2 -> session_conds q1 = session_conds q2.
Proof.
  induction 1; try reflexivity.
  simpl. rewrite IHsame_but_new_tags1.
  inversion H0; subst; reflexivity.
Qed.

Lemma existsb_absent v l : ~ In v l -> existsb (Nat.eqb v) l = false.
Proof.
  intros H. destruct (existsb (Nat.eqb v) l) eqn:E; [|reflexivity].
  apply existsb_exists in E. destruct E as [x [Hin Hx]].
  apply Nat.eqb_eq in Hx. subst. contradiction.
Qed.

Lemma matches_same known q1 q2 p :
  same_but_new_tags known q1 q2 ->
  (forall v, In v (part_tags p) -> In v known) ->
  matches q1 p = matches q2 p.
Proof.
  intros H Hp. induction H.
  - reflexivity.
  - simpl. rewrite !existsb_absent; auto.
  - assert (E : session_conds (QAnd a b) = session_conds (QAnd a' b'))
      by (apply session_conds_same with (known := known); constructor; assumption).
    cbn [matches]. rewrite E. destruct (session_conds (QAnd a' b')); congruence.
  - cbn [matches session_conds]. congruence.
  - cbn [matches session_conds]. congruence.
Qed.

(** ** The lines of a query and the view *)

Lemma attempt_eq {A} (m : M A) db :
  attempt m db =
  match m db with
  | (Ok a, d) => (Ok (inl a), d)
  | (Raise e, d) => (Ok (inr e), d)
  | (OutOfFuel, d) => (OutOfFuel, d)
  end.
Proof.
  unfold attempt, try_except, bind, ret. destruct (m db) as [[a|e|] d]; reflexivity.
Qed.

Lemma query_lines_cons course lineno q rest pq db :
  query_lines course ((lineno, q) :: rest) pq db =
  if is_empty (strip q) then query_lines course rest pq db
  else match parse_query course (strip q) db with
       | (Ok sub, d) => query_lines course rest (Some (join_lines pq sub)) d
       | (Raise e, d) => (Ok (inr (lineno, e)), d)
       | (OutOfFuel, d) => (OutOfFuel, d)
       end.
Proof.
  cbn [query_lines]. destruct (is_empty (strip q)); [reflexivity|].
  unfold bind at 1. rewrite attempt_eq.
  destruct (parse_query course (strip q) db) as [[a|e|] d]; reflexivity.
Qed.

Lemma enumerate_from_cons {A} n (x : A) l :
  enumerate_from n (x :: l) = (n, x) :: enumerate_from (S n) l.
Proof. reflexivity. Qed.

Lemma query_lines_run base course lines :
  forall n pq db,
    extends_tags base db ->
    exists v d,
      query_lines course (enumerate_from n lines) pq db = (Ok v, d) /\
      grows db d /\ extends_tags base d.
Proof.
  induction lines as [|line rest IH]; intros n pq db Hi.
  - exists (inl pq), db. split; [reflexivity|]. split; [apply grows_refl | exact Hi].
  - rewrite enumerate_from_cons, query_lines_cons.
    destruct (is_empty (strip line)); [apply IH; exact Hi|].
    pose proof (parse_query_total course (strip line) db) as T.
    pose proof (parse_query_grows course (strip line) db) as G.
    pose proof (parse_query_extends base course (strip line) db Hi) as Hi'.
    destruct (parse_query course (strip line) db) as [[q|e|] d]; simpl in *.
    + destruct (IH (S n) (Some (join_lines pq q)) d Hi') as (v & d' & E & G' & I').
      exists v, d'. split; [exact E|]. split; [eapply grows_trans; eauto | exact I'].
    + exists (inr (n, e)), d. auto.
    + congruence.
Qed.

Lemma query_lines_first_failure course lines :
  forall n pq db0 db k line e,
    nth_error lines k = Some line ->
    is_empty (strip line) = false ->
    fst (parse_query course (strip line) db0) = Raise e ->
    exists j line' e' db',
      j <= k /\ nth_error lines j = Some line' /\
      is_empty (strip line') = false /\
      fst (parse_query course (strip line') db0) = Raise e' /\
      (forall i l, i < j -> nth_error lines i = Some l ->
                   is_empty (strip l) = false ->
                   exists q, fst (parse_query course (strip l) db0) = Ok q) /\
      query_lines course (enumerate_from n lines) pq db = (Ok (inr (n + j, e')), db').
Proof.
  induction lines as [|line0 rest IH]; intros n pq db0 db k line e Hk He Hf.
  - destruct k; discriminate.
  - rewrite enumerate_from_cons, query_lines_cons.
    destruct (is_empty (strip line0)) eqn:E0.
    + destruct k as [|k]; [simpl in Hk; congruence|].
      destruct (IH (S n) pq db0 db k line e Hk He Hf)
        as (j & l' & e' & d' & Hj & Hn & Hne & Hr & Hfirst & Hq).
      exists (S j), l', e', d'. repeat split; auto; try lia.
      * intros i l Hi Hl Hel. destruct i as [|i]; [simpl in Hl; congruence|].
        apply (Hfirst i l); auto. lia.
      * replace (n + S j) with (S n + j) by lia. exact Hq.
    + pose proof (parse_query_same_outcome course (strip line0) db db0) as Same.
      destruct (parse_query course (strip line0) db) as [[q|e0|] d] eqn:P; simpl in Same.
      * destruct k as [|k].
        { simpl in Hk. inversion Hk; subst. rewrite Hf in Same. contradiction. }
        destruct (IH (S n) (Some (join_lines pq q)) db0 d k line e Hk He Hf)
          as (j & l' & e' & d' & Hj & Hn & Hne & Hr & Hfirst & Hq).
        exists (S j), l', e', d'. repeat split; auto; try lia.
        -- intros i l Hi Hl Hel. destruct i as [|i].
           ++ simpl in Hl. inversion Hl; subst.
              destruct (fst (parse_query course (strip l) db0)); try contradiction.
              eauto.
           ++ apply (Hfirst i l); auto. lia.
        -- replace (n + S j) with (S n + j) by lia. exact Hq.
      * exists 0, line0, e0, d. repeat split; auto; try lia.
        -- destruct (fst (parse_query course (strip line0) db0)); try contradiction.
           congruence.
        -- replace (n + 0) with n by lia. reflexivity.
      * contradiction.
Qed.


Lemma query_lines_tags course lines :
  forall n pq db r d,
    query_lines course (enumerate_from n lines) pq db = (Ok (inl r), d) ->
    forall line toks tok g,
      In line lines -> lex _LEX_TABLE (strip line) = Ok toks -> In tok toks ->
      tok_tag tok = _tagged -> m_group1 (tok_match tok) = Some g ->
      has_tag d course g = true.
Proof.
  induction lines as [|line0 rest IH]; intros n pq db r d E line toks tok g Hin;
    [contradiction|].
  rewrite enumerate_from_cons, query_lines_cons in E.
  destruct (is_empty (strip line0)) eqn:E0.
  - destruct Hin as [<- | Hin]; [|eapply IH; eauto].
    apply is_empty_true in E0. rewrite E0. intros L. inversion L; subst. contradiction.
  - pose proof (parse_query_run course (strip line0) db) as P. unfold run in P.
    destruct (parse_query course (strip line0) db) as [[q|e|] d1]; try discriminate.
    destruct P as [_ P]. simpl in P.
    destruct Hin as [<- | Hin]; [|eapply IH; eauto].
    intros L Ht Htag Hg. destruct (P toks L) as [_ P'].
    destruct (query_lines_run (participation_tags d1) course rest (S n)
                (Some (join_lines pq q)) d1 (extends_tags_refl d1))
      as (v & d' & E' & G & _).
    rewrite E in E'. inversion E'; subst.
    eapply has_tag_grows; [exact G|]. eapply P'; eauto.
Qed.

Lemma query_lines_all_ok course lines :
  forall n pq db0 db,
    (forall l, In l lines -> is_empty (strip l) = false ->
               exists q, fst (parse_query course (strip l) db0) = Ok q) ->
    exists r d, query_lines course (enumerate_from n lines) pq db = (Ok (inl r), d).
Proof.
  induction lines as [|line0 rest IH]; intros n pq db0 db H.
  - exists pq, db. reflexivity.
  - rewrite enumerate_from_cons, query_lines_cons.
    assert (Hrest : forall l, In l rest -> is_empty (strip l) = false ->
                      exists q, fst (parse_query course (strip l) db0) = Ok q).
    { intros l Hl. apply H. right. exact Hl. }
    destruct (is_empty (strip line0)) eqn:E0; [apply (IH _ _ db0); exact Hrest|].
    destruct (H line0 (or_introl eq_refl) E0) as [q0 Hq0].
    pose proof (parse_query_same_outcome course (strip line0) db0 db) as Same.
    rewrite Hq0 in Same.
    destruct (parse_query course (strip line0) db) as [[q|e|] d]; simpl in Same;
      try contradiction.
    apply (IH _ _ db0); exact Hrest.
Qed.

Lemma split_lines_line s : no_newline s -> split_lines s = [s].
Proof.
  unfold no_newline. induction s as [|c s IH]; simpl; [reflexivity|].
  intros H. apply andb_prop in H. destruct H as [Hc Hs].
  apply negb_true_iff in Hc. rewrite Hc, (IH Hs). reflexivity.
Qed.

Lemma split_lines_app s1 s2 :
  no_newline s1 -> split_lines (s1 ++ String LF s2) = s1 :: split_lines s2.
Proof.
  unfold no_newline. induction s1 as [|c s IH]; simpl.
  - intros _. reflexivity.
  - intros H. apply andb_prop in H. destruct H as [Hc Hs].
    apply negb_true_iff in Hc. rewrite Hc, (IH Hs). reflexivity.
Qed.

Lemma In_insert_by_username p x l :
  In p (insert_by_username x l) <-> p = x \/ In p l.
Proof.
  induction l as [|y l IH]; simpl.
  - intuition.
  - destruct (String.leb (user_username x) (user_username y)); simpl; intuition.
Qed.

Lemma In_order_by_username p l : In p (order_by_username l) <-> In p l.
Proof.
  unfold order_by_username. induction l as [|x l IH]; simpl; [tauto|].
  rewrite In_insert_by_username, IH. intuition.
Qed.

Lemma In_selected course q db p :
  In p (selected course q db) <->
  In p (participations db) /\ part_course p = course /\ matches q p = true.
Proof.
  unfold selected. rewrite In_order_by_username, filter_In, andb_true_iff, Nat.eqb_eq.
  tauto.
Qed.

Lemma query_participations_list course cd db :
  apply cd = false ->
  query_participations course cd db =
  match query_lines course (enumerate (split_lines (queries cd))) None db with
  | (Ok (inl (Some q)), d) =>
      (Ok {| messages := []; result := Some (selected course q d) |}, d)
  | (Ok (inl None), d) => (Ok {| messages := []; result := None |}, d)
  | (Ok (inr (lineno, e)), d) =>
      (Ok {| messages := [ERROR_in_line (lineno + 1) e]; result := None |}, d)
  | (Raise e, d) => (Raise e, d)
  | (OutOfFuel, d) => (OutOfFuel, d)
  end.
Proof.
  intros Hl. unfold query_participations, bind at 1.
  destruct (query_lines course (enumerate (split_lines (queries cd))) None db)
    as [[[[q|]|[n e]]|e|] d]; try reflexivity.
  unfold bind, filter_participations. rewrite Hl. reflexivity.
Qed.

Lemma matched_one_line course text db l :
  no_newline text -> matched course text db = Some l ->
  exists q d,
    is_empty (strip text) = false /\
    parse_query course (strip text) db = (Ok q, d) /\
    l = selected course q d.
Proof.
  intros Hn. unfold matched. rewrite query_participations_list by reflexivity.
  simpl queries. rewrite (split_lines_line _ Hn). unfold enumerate. simpl combine.
  rewrite query_lines_cons.
  destruct (is_empty (strip text)); [simpl; discriminate|].
  destruct (parse_query course (strip text) db) as [[q|e|] d]; simpl; try discriminate.
  intros H. inversion H. eauto.
Qed.

Lemma update_participation_id pk f db :
  (forall r, In r (participations db) -> f r = r) ->
  update_participation pk f db = (Ok tt, db).
Proof.
  intros H. unfold update_participation. destruct db as [tags parts]. simpl in *.
  f_equal. f_equal.
  induction parts as [|r l IH]; simpl; [reflexivity|].
  rewrite IH by (intros; apply H; right; assumption).
  destruct (part_pk r =? pk); [rewrite H by (left; reflexivity)|]; reflexivity.
Qed.

Lemma with_tags_same r : with_tags (part_tags r) r = r.
Proof. destruct r; reflexivity. Qed.

Lemma filter_not_in v l : ~ In v l -> filter (fun t => negb (t =? v)) l = l.
Proof.
  induction l as [|x l IH]; simpl; [reflexivity|]. intros H.
  destruct (x =? v) eqn:E.
  - apply Nat.eqb_eq in E. subst. exfalso. apply H. left. reflexivity.
  - simpl. rewrite IH; auto.
Qed.

Lemma for_each_tags_remove_absent ptag db l :
  (forall r, In r (participations db) -> ~ In (tag_pk ptag) (part_tags r)) ->
  for_each l (fun p => tags_remove p ptag) db = (Ok tt, db).
Proof.
  intros H. induction l as [|p l IH]; [reflexivity|].
  cbn [for_each]. unfold bind, tags_remove.
  rewrite update_participation_id; [exact IH|].
  intros r Hr. rewrite filter_not_in by (apply H; exact Hr). apply with_tags_same.
Qed.

Lemma existsb_pointwise {A} (f g : A -> bool) l :
  (forall x, f x = g x) -> existsb f l = existsb g l.
Proof. intros H. induction l as [|x l IH]; simpl; [reflexivity|]. rewrite H, IH. reflexivity. Qed.

Lemma matches_has_started course F p :
  matches (has_started_Q course F) p
  = existsb (started_in course F) (part_flow_sessions p).
Proof.
  cbn. unfold some_session. apply existsb_pointwise. intros s. unfold started_in. simpl.
  rewrite andb_true_r. reflexivity.
Qed.

Lemma matches_has_submitted course F p :
  matches (has_submitted_Q course F) p
  = existsb (submitted_in course F) (part_flow_sessions p).
Proof.
  cbn. unfold some_session. apply existsb_pointwise. intros s.
  unfold submitted_in, started_in. simpl.
  rewrite andb_true_r. destruct (fs_in_progress s); simpl; rewrite ?andb_assoc; reflexivity.
Qed.

Lemma cursor_at_next pre tok post raw :
  next_token (cursor_at pre tok post raw) = Some tok /\
  is_at_end (cursor_at pre tok post raw) = false.
Proof.
  unfold next_token, is_at_end, cursor_at. simpl. split.
  - rewrite nth_error_app2 by lia. rewrite Nat.sub_diag. reflexivity.
  - apply Nat.leb_gt. rewrite length_app. simpl. lia.
Qed.

Lemma loop_stops_at_not_precedence fuel course left ps db :
  inner_parse_loop (S fuel) course left ps _PREC_NOT db = (Ok (left, ps), db).
Proof.
  cbn [inner_parse_loop]. destruct (is_at_end ps) eqn:E; [reflexivity|].
  destruct (is_at_end_false _ E) as [tok [Ht _]].
  unfold bind, lift, next_tag. rewrite Ht.
  change (_PREC_NOT <? _PREC_AND) with false.
  change (_PREC_NOT <? _PREC_OR) with false.
  rewrite !andb_false_r. reflexivity.
Qed.

(** ** The scenario of the specification, on the sample store *)

Example scenario_student_and_active :
  matched 1 "role:student and status:active" sample_database = Some [alice].
Proof. vm_compute. reflexivity. Qed.

Example scenario_tagged :
  matched 1 "tagged:foo" sample_database = Some [bob; carol].
Proof. vm_compute. reflexivity. Qed.

Example scenario_student_or_tagged :
  matched 1 "role:student or tagged:foo" sample_database = Some [alice; bob; carol].
Proof. vm_compute. reflexivity. Qed.

Example scenario_email_ignores_case :
  matched 1 "email:ALICE@Example.COM" sample_database = Some [alice].
Proof. vm_compute. reflexivity. Qed.

Example scenario_drop_requested :
  let dropping := {| queries := "status:requested"; op := drop; tag_field := "";
                     apply := true |} in
  let db' := snd (query_participations 1 dropping sample_database) in
  fst (query_participations 1 dropping sample_database)
    = Ok {| messages := [INFO_successful 1];
            result := Some [with_status dropped bob] |} /\
  participations db' = [carol; alice; with_status dropped bob] /\
  matched 1 "status:requested" db' = Some [].
Proof. vm_compute. repeat split; reflexivity. Qed.

Lemma sample_database_tags_known : tags_known sample_database.
Proof.
  intros p Hp v Hv. simpl in Hp.
  destruct Hp as [<- | [<- | [<- | []]]]; simpl in Hv; simpl; tauto.
Qed.

(** * Properties of the specification *)

(** C1.  Two adjacent primaries with no [and] or [or] between them are
    joined by an implicit [and], whatever terminal kind the second begins
    with.  The parser does so for the eight kinds of [_TERMINALS], but that
    list leaves out [has-started:] and [has-submitted:]: the loop of
    [inner_parse] stops in front of such a token, and
    [role:student has-started:quiz] is refused as leftover input where
    [role:student and has-started:quiz] parses. *)
Theorem no_implicit_and_before_session_terminal course db :
  parse_query course "role:student and has-started:quiz" db
    = (Ok (QAnd (Q_ (role "student")) (has_started_Q course "quiz")), db) /\
  parse_query course "role:student has-started:quiz" db
    = (Raise (ParseError "leftover input after completed parse"
               (Some (Token _has_started "has-started:quiz" 13
                        (MatchObj 16 (Some "quiz"))))), db) /\
  parse_query course "role:student and has-submitted:quiz" db
    = (Ok (QAnd (Q_ (role "student")) (has_submitted_Q course "quiz")), db) /\
  parse_query course "role:student has-submitted:quiz" db
    = (Raise (ParseError "leftover input after completed parse"
               (Some (Token _has_submitted "has-submitted:quiz" 13
                        (MatchObj 18 (Some "quiz"))))), db) /\
  parse_query course "role:student status:active" db
    = (Ok (QAnd (Q_ (role "student")) (Q_ (status "active"))), db) /\
  (forall fuel left pre s i m post raw mp,
      inner_parse_loop (S fuel) course left
        (cursor_at pre (Token _has_started s i m) post raw) mp db
      = (Ok (left, cursor_at pre (Token _has_started s i m) post raw), db)) /\
  (forall fuel left pre s i m post raw mp,
      inner_parse_loop (S fuel) course left
        (cursor_at pre (Token _has_submitted s i m) post raw) mp db
      = (Ok (left, cursor_at pre (Token _has_submitted s i m) post raw), db)).
Proof.
  repeat split; try (vm_compute; reflexivity);
    intros fuel left pre s i m post raw mp; cbn [inner_parse_loop];
    match goal with
    | |- context [cursor_at ?a ?b ?c ?d] =>
        destruct (cursor_at_next a b c d) as [Hn He]
    end;
    rewrite He; unfold bind, lift, next_tag; rewrite Hn; simpl;
    rewrite ?andb_false_l; reflexivity.
Qed.

(** C2.  For a flow id [F], [not has-started:F] matches a participation
    exactly when none of its flow sessions is one of flow [F] in the course,
    [not has-submitted:F] exactly when none is such a session that is no
    longer in progress, and [not not t] matches what [t] matches. *)
Theorem negated_session_terminals course F p db :
  is_empty F = false -> string_forallb is_dash_word F = true ->
  exists t nt nnt t' nt' nnt',
    parse_query course ("has-started:" ++ F) db = (Ok t, db) /\
    parse_query course ("not has-started:" ++ F) db = (Ok nt, db) /\
    parse_query course ("not not has-started:" ++ F) db = (Ok nnt, db) /\
    matches t p = existsb (started_in course F) (part_flow_sessions p) /\
    matches nt p = negb (existsb (started_in course F) (part_flow_sessions p)) /\
    matches nnt p = matches t p /\
    parse_query course ("has-submitted:" ++ F) db = (Ok t', db) /\
    parse_query course ("not has-submitted:" ++ F) db = (Ok nt', db) /\
    parse_query course ("not not has-submitted:" ++ F) db = (Ok nnt', db) /\
    matches t' p = existsb (submitted_in course F) (part_flow_sessions p) /\
    matches nt' p = negb (existsb (submitted_in course F) (part_flow_sessions p)) /\
    matches nnt' p = matches t' p.
Proof.
  intros He Hw.
  exists (has_started_Q course F), (QNot (has_started_Q course F)),
         (QNot (QNot (has_started_Q course F))),
         (has_submitted_Q course F), (QNot (has_submitted_Q course F)),
         (QNot (QNot (has_submitted_Q course F))).
  repeat split.
  - unfold parse_query, bind, lift, lex. rewrite (lex_has_started F 0 He Hw). reflexivity.
  - unfold parse_query, bind, lift, lex.
    change ("not has-started:" ++ F)%string
      with ("not" ++ (" " ++ ("has-started:" ++ F)))%string.
    lex_token "not" _not (MatchObj 3 None).
    lex_token " " _whitespace (MatchObj 1 None).
    rewrite (lex_has_started F _ He Hw). reflexivity.
  - unfold parse_query, bind, lift, lex.
    change ("not not has-started:" ++ F)%string
      with ("not" ++ (" " ++ ("not" ++ (" " ++ ("has-started:" ++ F)))))%string.
    lex_token "not" _not (MatchObj 3 None).
    lex_token " " _whitespace (MatchObj 1 None).
    lex_token "not" _not (MatchObj 3 None).
    lex_token " " _whitespace (MatchObj 1 None).
    rewrite (lex_has_started F _ He Hw). reflexivity.
  - apply matches_has_started.
  - cbn [matches session_conds]. rewrite matches_has_started. reflexivity.
  - cbn [matches session_conds]. rewrite negb_involutive. reflexivity.
  - unfold parse_query, bind, lift, lex. rewrite (lex_has_submitted F 0 He Hw). reflexivity.
  - unfold parse_query, bind, lift, lex.
    change ("not has-submitted:" ++ F)%string
      with ("not" ++ (" " ++ ("has-submitted:" ++ F)))%string.
    lex_token "not" _not (MatchObj 3 None).
    lex_token " " _whitespace (MatchObj 1 None).
    rewrite (lex_has_submitted F _ He Hw). reflexivity.
  - unfold parse_query, bind, lift, lex.
    change ("not not has-submitted:" ++ F)%string
      with ("not" ++ (" " ++ ("not" ++ (" " ++ ("has-submitted:" ++ F)))))%string.
    lex_token "not" _not (MatchObj 3 None).
    lex_token " " _whitespace (MatchObj 1 None).
    lex_token "not" _not (MatchObj 3 None).
    lex_token " " _whitespace (MatchObj 1 None).
    rewrite (lex_has_submitted F _ He Hw). reflexivity.
  - apply matches_has_submitted.
  - cbn [matches session_conds]. rewrite matches_has_submitted. reflexivity.
  - cbn [matches session_conds]. rewrite negb_involutive. reflexivity.
Qed.

Lemma negated_session_terminals_witness :
  exists nt nt',
    parse_query 1 "not has-started:quiz" sample_database = (Ok nt, sample_database) /\
    matches nt alice = false /\
    parse_query 1 "not has-submitted:quiz" sample_database = (Ok nt', sample_database) /\
    matches nt' alice = true.
Proof.
  destruct (negated_session_terminals 1 "quiz" alice sample_database)
    as (t & nt & nnt & t' & nt' & nnt' & _ & P & _ & _ & H & _ & _ & P' & _ & _ & H' & _);
    [reflexivity | reflexivity |].
  exists nt, nt'. split; [exact P|]. split; [exact H|]. split; [exact P' | exact H'].
Defined.

(** C3.  Two valid one-line queries sent as two lines of one block: each
    line is compiled on its own, in turn, the two predicates are joined by
    [|], and the participations listed are those either line lists alone. *)
Theorem lines_union course db Q1 Q2 l1 l2 :
  tags_known db -> no_newline Q1 -> no_newline Q2 ->
  matched course Q1 db = Some l1 ->
  matched course Q2 db = Some l2 ->
  exists q1 q2 d1 d2 l12,
    parse_query course (strip Q1) db = (Ok q1, d1) /\
    parse_query course (strip Q2) d1 = (Ok q2, d2) /\
    query_lines course (enumerate (split_lines (Q1 ++ String LF Q2))) None db
      = (Ok (inl (Some (QOr q1 q2))), d2) /\
    matched course (Q1 ++ String LF Q2) db = Some l12 /\
    forall p, In p l12 <-> In p l1 \/ In p l2.
Proof.
  intros Hk Hn1 Hn2 H1 H2.
  destruct (matched_one_line _ _ _ _ Hn1 H1) as (q1 & d1 & E1 & P1 & ->).
  destruct (matched_one_line _ _ _ _ Hn2 H2) as (q2 & d2 & E2 & P2 & ->).
  set (base := participation_tags db).
  pose proof (parse_query_over_base base course) as Hsim.
  pose proof (Hsim (strip Q1) db db (extends_tags_refl db) (extends_tags_refl db))
    as S1.
  rewrite P1 in S1. simpl in S1. destruct S1 as (_ & I1 & _).
  pose proof (Hsim (strip Q2) db d1 (extends_tags_refl db) I1) as S2.
  rewrite P2 in S2. unfold sim_result in S2.
  destruct (parse_query course (strip Q2) d1) as [[q2'|e|] d12] eqn:P2'; try contradiction.
  destruct S2 as (HR & _ & _).
  assert (L : query_lines course (enumerate (split_lines (Q1 ++ String LF Q2))) None db
              = (Ok (inl (Some (QOr q1 q2'))), d12)).
  { rewrite (split_lines_app _ _ Hn1), (split_lines_line _ Hn2).
    unfold enumerate. simpl combine.
    rewrite query_lines_cons, E1, P1. simpl join_lines.
    rewrite query_lines_cons, E2, P2'. reflexivity. }
  exists q1, q2', d1, d12, (selected course (QOr q1 q2') d12).
  split; [exact P1|]. split; [exact P2'|]. split; [exact L|].
  split.
  { unfold matched. rewrite query_participations_list by reflexivity.
    simpl queries. rewrite L. reflexivity. }
  pose proof (parse_query_grows course (strip Q1) db) as G1. rewrite P1 in G1.
  pose proof (parse_query_grows course (strip Q2) db) as G2. rewrite P2 in G2.
  pose proof (parse_query_grows course (strip Q2) d1) as G12. rewrite P2' in G12.
  destruct G1 as [G1 _], G2 as [G2 _], G12 as [G12 _]. simpl in G1, G2, G12.
  intros p. rewrite !In_selected, G1, G2, G12, G1.
  cbn [matches session_conds]. rewrite orb_true_iff.
  split.
  - intros (Hin & Hc & [Hm | Hm]); [left; auto|].
    right. repeat split; auto.
    rewrite (matches_same _ _ _ p HR); auto. apply (Hk p Hin).
  - intros [(Hin & Hc & Hm) | (Hin & Hc & Hm)]; repeat split; auto.
    right. rewrite <- (matches_same _ _ _ p HR); auto. apply (Hk p Hin).
Qed.

Lemma lines_union_witness :
  exists l12,
    matched 1 ("role:student" ++ String LF "tagged:foo") sample_database = Some l12 /\
    forall p, In p l12 <-> In p [alice; bob] \/ In p [bob; carol].
Proof.
  destruct (lines_union 1 sample_database "role:student" "tagged:foo"
              [alice; bob] [bob; carol])
    as (q1 & q2 & d1 & d2 & l12 & _ & _ & _ & H & Hu).
  - exact sample_database_tags_known.
  - reflexivity.
  - reflexivity.
  - vm_compute. reflexivity.
  - vm_compute. reflexivity.
  - exists l12. split; [exact H | exact Hu].
Defined.

(** C4.  [not] binds tighter than [and], and [and] tighter than [or]:
    [role:student and not status:active or tagged:foo] is
    (role:student AND (NOT status:active)) OR tagged:foo, which is not
    role:student AND ((NOT status:active) OR tagged:foo); and the operand of
    [not] is one primary only, as the loop of [inner_parse] extends nothing
    at the precedence of [not]. *)
Theorem precedence_not_and_or course db p :
  (exists pk db',
      parse_query course "role:student and not status:active or tagged:foo" db
        = (Ok (QOr (QAnd (Q_ (role "student")) (QNot (Q_ (status "active"))))
                   (Q_ (tags__pk pk))), db') /\
      matches (QOr (QAnd (Q_ (role "student")) (QNot (Q_ (status "active"))))
                   (Q_ (tags__pk pk))) p
        = (String.eqb (part_role p) "student"
             && negb (String.eqb (part_status p) "active"))
          || existsb (Nat.eqb pk) (part_tags p)) /\
  (forall pk, exists p',
      matches (QOr (QAnd (Q_ (role "student")) (QNot (Q_ (status "active"))))
                   (Q_ (tags__pk pk))) p' = true /\
      matches (QAnd (Q_ (role "student"))
                    (QOr (QNot (Q_ (status "active"))) (Q_ (tags__pk pk)))) p' = false) /\
  parse_query course "not role:student and status:active" db
    = (Ok (QAnd (QNot (Q_ (role "student"))) (Q_ (status "active"))), db) /\
  parse_query course "not role:student or status:active" db
    = (Ok (QOr (QNot (Q_ (role "student"))) (Q_ (status "active"))), db) /\
  parse_query course "role:student or role:ta and status:active" db
    = (Ok (QOr (Q_ (role "student"))
               (QAnd (Q_ (role "ta")) (Q_ (status "active")))), db) /\
  (forall fuel left ps,
      inner_parse_loop (S fuel) course left ps _PREC_NOT db = (Ok (left, ps), db)).
Proof.
  split; [|split; [|split; [|split; [|split]]]].
  - destruct (parse_query_up_to_tags course
                "role:student and not status:active or tagged:foo" db
                (QOr (QAnd (Q_ (role "student")) (QNot (Q_ (status "active"))))
                     (Q_ (tags__pk 1)))
                {| participation_tags :=
                     [{| tag_pk := 1; tag_course := course; tag_name := "foo" |}];
                   participations := [] |})
      as (q & db' & P & R).
    { vm_compute. reflexivity. }
    inversion R as [| | | a a' b b' Ra Rb |]; subst.
    inversion Ra as [| | a1 a1' b1 b1' Ra1 Rb1 | |]; subst.
    inversion Ra1; subst. inversion Rb1 as [| | | | a2 a2' Ra2]; subst.
    inversion Ra2; subst.
    assert (Hb : exists pk, b' = Q_ (tags__pk pk)) by (inversion Rb; subst; eauto).
    destruct Hb as [pk ->]. exists pk, db'. split; [exact P | reflexivity].
  - intros pk.
    exists {| part_pk := 0; user_id := 0%Z; user_email := ""; user_username := "";
              part_course := course; part_role := "observer"; part_status := "active";
              part_tags := [pk]; part_flow_sessions := [] |}.
    cbn. rewrite Nat.eqb_refl. split; reflexivity.
  - vm_compute. reflexivity.
  - vm_compute. reflexivity.
  - vm_compute. reflexivity.
  - intros fuel left ps. apply loop_stops_at_not_precedence.
Qed.

(** C5.  When a line of the block fails to compile, the view reports the
    first line that fails, by its number counted from one, and nothing
    else: it lists no participations, and the store is left as compiling
    the lines before it left it, with every participation as it was. *)
Theorem failing_line_aborts course cd db k line e :
  nth_error (split_lines (queries cd)) k = Some line ->
  is_empty (strip line) = false ->
  fst (parse_query course (strip line) db) = Raise e ->
  exists j line' e' db',
    j <= k /\ nth_error (split_lines (queries cd)) j = Some line' /\
    fst (parse_query course (strip line') db) = Raise e' /\
    (forall i l, i < j -> nth_error (split_lines (queries cd)) i = Some l ->
                 is_empty (strip l) = false ->
                 exists q, fst (parse_query course (strip l) db) = Ok q) /\
    query_participations course cd db
      = (Ok {| messages := [ERROR_in_line (j + 1) e']; result := None |}, db') /\
    db' = snd (query_lines course (enumerate (split_lines (queries cd))) None db) /\
    participations db' = participations db.
Proof.
  intros Hk He Hf.
  destruct (query_lines_first_failure course _ 0 None db db k line e Hk He Hf)
    as (j & l' & e' & d' & Hj & Hn & Hne & Hr & Hfirst & Hq).
  exists j, l', e', d'. split; [exact Hj|]. split; [exact Hn|]. split; [exact Hr|].
  split; [exact Hfirst|].
  change (enumerate_from 0 (split_lines (queries cd)))
    with (enumerate (split_lines (queries cd))) in Hq.
  split; [|split].
  - unfold query_participations, bind at 1. rewrite Hq. reflexivity.
  - rewrite Hq. reflexivity.
  - destruct (query_lines_run (participation_tags db) course (split_lines (queries cd))
                0 None db (extends_tags_refl db)) as (v & d & E & [G _] & _).
    change (enumerate_from 0 (split_lines (queries cd)))
      with (enumerate (split_lines (queries cd))) in E.
    rewrite Hq in E. inversion E; subst. exact G.
Qed.

Lemma failing_line_aborts_witness :
  exists j e' db',
    query_participations 1
      {| queries := "tagged:new" ++ String LF "(role:student";
         op := drop; tag_field := ""; apply := true |} sample_database
    = (Ok {| messages := [ERROR_in_line (j + 1) e']; result := None |}, db') /\
    participations db' = participations sample_database.
Proof.
  destruct (failing_line_aborts 1
              {| queries := "tagged:new" ++ String LF "(role:student";
                 op := drop; tag_field := ""; apply := true |}
              sample_database 1 "(role:student"
              (ParseError "unexpected end of input" None))
    as (j & line' & e' & db' & _ & _ & _ & _ & H & _ & Hp).
  - reflexivity.
  - reflexivity.
  - vm_compute. reflexivity.
  - exists j, e', db'. split; [exact H | exact Hp].
Defined.

(** C6.  A query that names [tagged:T] makes the course have a tag [T]:
    when the lines of a block compile, listing alone reports no error and
    leaves a tag for every [tagged:] token of every line in the store, made
    by [get_or_create] when there was none. *)
Theorem tagged_reference_creates_tag course cd db line toks tok name :
  apply cd = false ->
  (forall l, In l (split_lines (queries cd)) -> is_empty (strip l) = false ->
             exists q, fst (parse_query course (strip l) db) = Ok q) ->
  In line (split_lines (queries cd)) ->
  lex _LEX_TABLE (strip line) = Ok toks ->
  In tok toks -> tok_tag tok = _tagged -> m_group1 (tok_match tok) = Some name ->
  (exists resp db',
     query_participations course cd db = (Ok resp, db') /\
     messages resp = [] /\
     grows db db' /\
     has_tag db' course name = true) /\
  (forall d, exists ptag created d',
     get_or_create course name d = (Ok (ptag, created), d') /\
     created = negb (has_tag d course name) /\
     has_tag d' course name = true).
Proof.
  intros Hl Hok Hin L Ht Htag Hg. split.
  - destruct (query_lines_all_ok course _ 0 None db db Hok) as (r & d & E).
    pose proof (query_lines_tags course _ _ _ _ _ _ E line toks tok name Hin L Ht Htag Hg)
      as Hhas.
    destruct (query_lines_run (participation_tags db) course (split_lines (queries cd))
                0 None db (extends_tags_refl db)) as (v & d' & E' & G & _).
    rewrite E in E'. inversion E'; subst.
    change (enumerate_from 0 (split_lines (queries cd)))
      with (enumerate (split_lines (queries cd))) in E.
    rewrite (query_participations_list _ _ _ Hl), E.
    destruct r as [q|]; eexists _, d'; (split; [reflexivity|]); simpl; auto.
  - intros d. destruct (get_or_create_spec course name d)
      as (ptag & created & d' & E & _ & Hh & _ & _ & _ & _ & Hc).
    exists ptag, created, d'. auto.
Qed.

Lemma tagged_reference_creates_tag_witness :
  has_tag sample_database 1 "bar" = false /\
  exists resp db',
    query_participations 1 (list_only "role:student and tagged:bar") sample_database
      = (Ok resp, db') /\
    messages resp = [] /\ has_tag db' 1 "bar" = true.
Proof.
  split; [reflexivity|].
  destruct (tagged_reference_creates_tag 1 (list_only "role:student and tagged:bar")
              sample_database "role:student and tagged:bar"
              [Token _role "role:student" 0 (MatchObj 12 (Some "student"));
               Token _whitespace " " 12 (MatchObj 1 None);
               Token _and "and" 13 (MatchObj 3 None);
               Token _whitespace " " 16 (MatchObj 1 None);
               Token _tagged "tagged:bar" 17 (MatchObj 10 (Some "bar"))]
              (Token _tagged "tagged:bar" 17 (MatchObj 10 (Some "bar"))) "bar")
    as [(resp & db' & H & Hm & _ & Ht) _].
  - reflexivity.
  - intros l [<- | []] _. eexists. vm_compute. reflexivity.
  - left. reflexivity.
  - vm_compute. reflexivity.
  - simpl. tauto.
  - reflexivity.
  - reflexivity.
  - exists resp, db'. split; [exact H|]. split; [exact Hm | exact Ht].
Defined.

(** C7, as the code has it.  Removing a tag whose name the course does not
    have takes the tag from nobody: every participation stays as it was.
    The tag itself is made by [get_or_create] whenever the query compiles to
    a predicate. *)
Theorem remove_absent_tag course cd db :
  op cd = remove_tag -> apply cd = true -> tags_known db ->
  has_tag db course (tag_field cd) = false ->
  exists resp db',
    query_participations course cd db = (Ok resp, db') /\
    participations db' = participations db /\
    (forall l, result resp = Some l -> has_tag db' course (tag_field cd) = true).
Proof.
  intros Hop Hap Hk Habs.
  destruct (query_lines_run (participation_tags db) course (split_lines (queries cd))
              0 None db (extends_tags_refl db)) as (v & d & E & [Gp Gt] & Hext).
  change (enumerate_from 0 (split_lines (queries cd)))
    with (enumerate (split_lines (queries cd))) in E.
  unfold query_participations, bind at 1. rewrite E.
  destruct v as [[q|]|[n e]].
  - unfold bind at 1, filter_participations. rewrite Hap, Hop.
    destruct (get_or_create_spec course (tag_field cd) d)
      as (ptag & created & d' & Eg & [Gp' Gt'] & Hh & _).
    destruct (get_or_create_extends _ _ _ _ _ _ _ Hext Eg) as [_ Hnew].
    assert (F : find (tag_matches course (tag_field cd)) (participation_tags db) = None).
    { unfold has_tag in Habs. rewrite find_existsb in Habs.
      destruct (find _ (participation_tags db)); [discriminate | reflexivity]. }
    rewrite F in Hnew.
    unfold bind. rewrite Eg.
    rewrite for_each_tags_remove_absent.
    + eexists _, d'. split; [reflexivity|]. split; [congruence|]. intros _ _. exact Hh.
    + intros r Hr Hin. apply Hnew. apply (Hk r); [congruence | exact Hin].
  - eexists _, d. split; [reflexivity|]. split; [exact Gp|]. discriminate.
  - eexists _, d. split; [reflexivity|]. split; [exact Gp|]. discriminate.
Qed.

Lemma remove_absent_tag_witness :
  exists resp db',
    query_participations 1
      {| queries := "role:student"; op := remove_tag; tag_field := "bar";
         apply := true |} sample_database = (Ok resp, db') /\
    participations db' = participations sample_database.
Proof.
  destruct (remove_absent_tag 1
              {| queries := "role:student"; op := remove_tag; tag_field := "bar";
                 apply := true |} sample_database)
    as (resp & db' & H & Hp & _).
  - reflexivity.
  - reflexivity.
  - exact sample_database_tags_known.
  - reflexivity.
  - exists resp, db'. split; [exact H | exact Hp].
Defined.

(** C7, with the set of tags left unchanged, does not hold: removing the tag
    [bar], which the sample course does not have, from the students leaves
    the course with a tag [bar]. *)
Lemma remove_tag_creates_tag :
  has_tag sample_database 1 "bar" = false /\
  participation_tags
    (snd (query_participations 1
            {| queries := "role:student"; op := remove_tag; tag_field := "bar";
               apply := true |} sample_database))
  = participation_tags sample_database
    ++ [{| tag_pk := 2; tag_course := 1; tag_name := "bar" |}].
Proof. split; vm_compute; reflexivity. Qed.

(** C8.  [parse_query] raises a parse error, and returns no predicate, when
    no token is left after the whitespace is dropped, when the parentheses
    of the query do not match (in [inner_parse]: when the token after the
    expression of a group is not [)]), and when tokens are left over after
    the expression at top level. *)
Theorem parse_query_errors course db :
  (forall s toks,
      lex _LEX_TABLE s = Ok toks -> significant toks = [] ->
      parse_query course s db
      = (Raise (ParseError "unexpected end of input" None), db)) /\
  (forall s toks,
      lex _LEX_TABLE s = Ok toks -> ~ balanced (significant toks) ->
      exists msg tok db',
        parse_query course s db = (Raise (ParseError msg tok), db')) /\
  (forall fuel pstate min_precedence q pstate' db',
      is_next pstate _openpar = true ->
      inner_parse fuel course (advance pstate) 0 db = (Ok (q, pstate'), db') ->
      is_next pstate' _closepar = false ->
      exists msg,
        inner_parse (S fuel) course pstate min_precedence db
        = (Raise (ParseError msg (next_token pstate')), db')) /\
  (forall s toks q pstate' db',
      lex _LEX_TABLE s = Ok toks ->
      inner_parse (parse_fuel (significant toks)) course
        {| lexed := significant toks; raw_string := s; index := 0 |} 0 db
      = (Ok (q, pstate'), db') ->
      is_at_end pstate' = false ->
      parse_query course s db
      = (Raise (ParseError "leftover input after completed parse"
                  (next_token pstate')), db')) /\
  parse_query course "" db
    = (Raise (ParseError "unexpected end of input" None), db) /\
  parse_query course "(" db
    = (Raise (ParseError "unexpected end of input" None), db) /\
  parse_query course "(role:student" db
    = (Raise (ParseError "unexpected end of input" None), db) /\
  parse_query course "role:student )" db
    = (Raise (ParseError "leftover input after completed parse"
               (Some (Token _closepar ")" 13 (MatchObj 1 None)))), db) /\
  parse_query course "role:student role:student and" db
    = (Raise (ParseError "unexpected end of input" None), db).
Proof.
  split; [|split; [|split; [|split]]].
  - intros s toks L Hs. unfold parse_query, bind, lift. rewrite L, Hs. reflexivity.
  - intros s toks L Hb.
    pose proof (parse_query_run course s db) as H. unfold run, parse_query_post in H.
    destruct H as [_ H]. specialize (H toks L).
    destruct (parse_query course s db) as [[q|e|] db'] eqn:P; simpl in H.
    + destruct H as [H _]. contradiction.
    + destruct H as (msg & tok & ->). exists msg, tok, db'. reflexivity.
    + contradiction.
  - intros fuel ps mp q ps' db' Hopen Hin Hcl.
    destruct (is_next_token _ _ Hopen) as [to [Hto Htag]].
    assert (He : is_at_end ps = false).
    { unfold is_at_end. apply Nat.leb_gt. apply nth_error_Some.
      unfold next_token in Hto. congruence. }
    assert (Hnot : is_next ps _not = false).
    { unfold is_next. rewrite Hto, Htag. reflexivity. }
    cbn [inner_parse]. unfold expect_not_end at 1. rewrite He.
    unfold bind at 1. unfold ret at 1. rewrite Hnot, Hopen.
    unfold bind at 1. unfold bind at 1. rewrite Hin.
    unfold bind at 1. unfold expect, expect_not_end, bind, ret, expected,
      raise_parse_error, raise.
    destruct (is_at_end ps'); [eexists; reflexivity|].
    rewrite Hcl. eexists; reflexivity.
  - intros s toks q ps' db' L Hin He. unfold parse_query, bind, lift. rewrite L.
    destruct (is_at_end {| lexed := significant toks; raw_string := s; index := 0 |}) eqn:E0.
    + exfalso. pose proof (inner_parse_post course (parse_fuel (significant toks))) as [Hp _].
      specialize (Hp {| lexed := significant toks; raw_string := s; index := 0 |} 0 db).
      unfold run in Hp. rewrite Hin in Hp. destruct Hp as [_ (Hl & _ & Hi & _)].
      simpl in *. unfold is_at_end in E0, He. simpl in E0.
      apply Nat.leb_le in E0. apply Nat.leb_gt in He. rewrite Hl in He. simpl in He. lia.
    + simpl lexed. rewrite Hin, He. reflexivity.
  - repeat split; vm_compute; reflexivity.
Qed.

Lemma parse_query_errors_witness :
  parse_query 1 "   " sample_database
    = (Raise (ParseError "unexpected end of input" None), sample_database) /\
  exists msg tok db',
    parse_query 1 "(role:student or (status:active)" sample_database
    = (Raise (ParseError msg tok), db').
Proof.
  destruct (parse_query_errors 1 sample_database) as (Hempty & Hparen & _).
  split.
  - apply (Hempty "   " [Token _whitespace "   " 0 (MatchObj 3 None)]).
    + vm_compute. reflexivity.
    + reflexivity.
  - apply (Hparen "(role:student or (status:active)"
             [Token _openpar "(" 0 (MatchObj 1 None);
              Token _role "role:student" 1 (MatchObj 12 (Some "student"));
              Token _whitespace " " 13 (MatchObj 1 None);
              Token _or "or" 14 (MatchObj 2 None);
              Token _whitespace " " 16 (MatchObj 1 None);
              Token _openpar "(" 17 (MatchObj 1 None);
              Token _status "status:active" 18 (MatchObj 13 (Some "active"));
              Token _closepar ")" 31 (MatchObj 1 None)]).
    + vm_compute. reflexivity.
    + unfold balanced. simpl. discriminate.
Defined.

(** C9.  The capture of an [id:] token of the lexer is a non-empty string
    of decimal digits, so [int] converts it and [parse_terminal] returns its
    predicate; no query makes [parse_query] raise [ValueError]. *)
Theorem id_capture_is_decimal course expr_str toks tok :
  lex _LEX_TABLE expr_str = Ok toks -> In tok toks -> tok_tag tok = _id ->
  (exists g n,
    m_group1 (tok_match tok) = Some g /\
    is_empty g = false /\ string_forallb is_digit g = true /\
    int g = Ok n /\
    forall pstate db,
      next_token pstate = Some tok ->
      parse_terminal course pstate db = (Ok (Q_ (user__id n), advance pstate), db)) /\
  (forall db, fst (parse_query course expr_str db) <> Raise ValueError).
Proof.
  intros L Hin Htag. split.
  - destruct (lex_at_tokens _ _ _ _ _ _ L Hin) as [s' F].
    destruct (first_rule_In _ _ _ _ F) as [rule [Hr Hm]].
    rewrite Htag in Hr.
    destruct (terminal_rule _ _ Hr eq_refl) as (prefix & cls & -> & Hid).
    destruct (re_match_capture_inv _ _ _ _ Hm) as (g & Hg & He & Hc).
    rewrite (Hid eq_refl) in Hc.
    exists g, (digits_value g 0%Z).
    pose proof (int_digits g He Hc) as Hint.
    repeat split; auto.
    intros pstate db Hn. unfold parse_terminal, bind, lift, next_tag, next_group1.
    rewrite Hn, Htag, Hg. simpl. rewrite Hint. reflexivity.
  - intros db E. destruct (parse_query_raises _ _ _ _ E) as [[i Hi] | (msg & t & Hp)];
      discriminate.
Qed.

Lemma id_capture_is_decimal_witness :
  exists n,
    parse_terminal 1
      {| lexed := [Token _id "id:042" 0 (MatchObj 6 (Some "042"))];
         raw_string := "id:042"; index := 0 |} sample_database
    = (Ok (Q_ (user__id n),
           {| lexed := [Token _id "id:042" 0 (MatchObj 6 (Some "042"))];
              raw_string := "id:042"; index := 1 |}), sample_database).
Proof.
  destruct (id_capture_is_decimal 1 "id:042"
              [Token _id "id:042" 0 (MatchObj 6 (Some "042"))]
              (Token _id "id:042" 0 (MatchObj 6 (Some "042"))))
    as [(g & n & _ & _ & _ & _ & H) _].
  - vm_compute. reflexivity.
  - left. reflexivity.
  - reflexivity.
  - exists n. apply H. reflexivity.
Defined.



(** * Lemmas for the further properties *)

(** ** Runs that follow one another *)

Lemma follows_bind {A B} (RA : A -> A -> Prop) (RB : B -> B -> Prop)
    (m1 m2 : M A) (k1 k2 : A -> M B) :
  follows RA m1 m2 ->
  (forall a1 a2, RA a1 a2 -> follows RB (k1 a1) (k2 a2)) ->
  follows RB (bind m1 k1) (bind m2 k2).
Proof.
  intros Hm Hk db b1 d H. unfold bind in *.
  destruct (m1 db) as [[a1 | e |] d1] eqn:E1; try discriminate.
  destruct (Hm _ _ _ E1) as [a2 [E2 Ha]]. rewrite E2.
  exact (Hk _ _ Ha _ _ _ H).
Qed.

Lemma follows_ret {A} (RA : A -> A -> Prop) a1 a2 :
  RA a1 a2 -> follows RA (ret a1) (ret a2).
Proof. intros H db a d E. inversion E; subst. exists a2. split; [reflexivity | exact H]. Qed.

Lemma follows_never {A} (RA : A -> A -> Prop) (m1 m2 : M A) :
  (forall db a d, m1 db <> (Ok a, d)) -> follows RA m1 m2.
Proof. intros H db a d E. destruct (H _ _ _ E). Qed.

Lemma follows_raise {A} (RA : A -> A -> Prop) e (m2 : M A) :
  follows RA (raise e) m2.
Proof. apply follows_never. intros db a d. discriminate. Qed.

Lemma settles_bind {A B} (m1 m2 : M A) (k1 k2 : A -> M B) :
  settles m1 m2 -> (forall a, settles (k1 a) (k2 a)) ->
  settles (bind m1 k1) (bind m2 k2).
Proof.
  intros Hm Hk db H. unfold bind in *.
  destruct (m1 db) as [[a | e |] d1] eqn:E1.
  - rewrite (Hm db) by (rewrite E1; discriminate). rewrite E1. apply Hk. exact H.
  - rewrite (Hm db) by (rewrite E1; discriminate). rewrite E1. reflexivity.
  - simpl in H. congruence.
Qed.

Lemma settles_refl {A} (m : M A) : settles m m.
Proof. intros db _. reflexivity. Qed.

(** ** More fuel changes nothing *)

Lemma inner_parse_settles course k : forall fuel,
  (forall ps mp,
      settles (inner_parse fuel course ps mp) (inner_parse (fuel + k) course ps mp)) /\
  (forall left ps mp,
      settles (inner_parse_loop fuel course left ps mp)
              (inner_parse_loop (fuel + k) course left ps mp)).
Proof.
  induction fuel as [|f [IHp IHl]].
  - split; intros; intros db H; simpl in H; congruence.
  - split.
    + intros ps mp. cbn [inner_parse Nat.add].
      apply settles_bind; [apply settles_refl|]. intros _.
      apply settles_bind.
      * destruct (is_next ps _not); [|destruct (is_next ps _openpar)].
        -- apply settles_bind; [apply IHp|]. intros [q ps1]. apply settles_refl.
        -- apply settles_bind; [apply IHp|]. intros [q ps1]. apply settles_refl.
        -- apply settles_refl.
      * intros [q ps1]. apply IHl.
    + intros left ps mp. cbn [inner_parse_loop Nat.add].
      destruct (is_at_end ps); [apply settles_refl|].
      apply settles_bind; [apply settles_refl|]. intros t.
      destruct (tag_is t _and && (mp <? _PREC_AND)).
      { apply settles_bind; [apply IHp|]. intros [q ps1]. apply IHl. }
      destruct (tag_is t _or && (mp <? _PREC_OR)).
      { apply settles_bind; [apply IHp|]. intros [q ps1]. apply IHl. }
      match goal with |- settles (if ?b then _ else _) _ => destruct b end.
      { apply settles_bind; [apply IHp|]. intros [q ps1]. apply IHl. }
      apply settles_refl.
Qed.

Lemma inner_parse_enough course fuel ps mp db :
  2 * remaining ps + 1 <= fuel ->
  fst (inner_parse fuel course ps mp db) <> OutOfFuel.
Proof.
  intros Hf E.
  pose proof (proj1 (inner_parse_post course fuel) ps mp db) as H.
  unfold run, parse_post in H. rewrite E in H. destruct H as [_ H]. lia.
Qed.

Lemma inner_parse_any_fuel course ps mp db f1 f2 :
  2 * remaining ps + 1 <= f1 -> 2 * remaining ps + 1 <= f2 ->
  inner_parse f1 course ps mp db = inner_parse f2 course ps mp db.
Proof.
  intros H1 H2.
  set (f0 := 2 * remaining ps + 1) in *.
  assert (E : forall f, f0 <= f ->
            inner_parse f course ps mp db = inner_parse f0 course ps mp db).
  { intros f Hf. replace f with (f0 + (f - f0)) by lia.
    apply (proj1 (inner_parse_settles course (f - f0) f0)).
    apply inner_parse_enough. unfold f0. lia. }
  rewrite (E f1 H1), (E f2 H2). reflexivity.
Qed.

(** ** The tokens ahead of the cursor *)

Lemma nth_error_skipn {A} (l : list A) : forall i,
  nth_error l i = hd_error (skipn i l).
Proof.
  induction l as [|x l IH]; intros [|i]; simpl; try reflexivity. apply IH.
Qed.

Lemma skipn_succ_tl {A} (l : list A) : forall i, skipn (i + 1) l = tl (skipn i l).
Proof.
  induction l as [|x l IH]; intros [|i]; simpl; try reflexivity. apply IH.
Qed.

Lemma next_token_ahead ps : next_token ps = hd_error (ahead ps).
Proof. apply nth_error_skipn. Qed.

Lemma ahead_advance ps : ahead (advance ps) = tl (ahead ps).
Proof. apply skipn_succ_tl. Qed.

Lemma is_at_end_ahead ps : is_at_end ps = true <-> ahead ps = [].
Proof.
  unfold is_at_end, ahead. rewrite Nat.leb_le. split; intros H.
  - apply skipn_all2. exact H.
  - assert (E : List.length (skipn (index ps) (lexed ps)) = 0) by (rewrite H; reflexivity).
    rewrite length_skipn in E. lia.
Qed.

Lemma ahead_cons ps t rest :
  ahead ps = t :: rest ->
  next_token ps = Some t /\ is_at_end ps = false /\ ahead (advance ps) = rest.
Proof.
  intros H. split; [rewrite next_token_ahead, H; reflexivity|]. split.
  - destruct (is_at_end ps) eqn:E; [|reflexivity].
    apply is_at_end_ahead in E. congruence.
  - rewrite ahead_advance, H. reflexivity.
Qed.

Lemma ahead_nil ps : ahead ps = [] -> next_token ps = None /\ is_at_end ps = true.
Proof.
  intros H. split; [rewrite next_token_ahead, H; reflexivity|].
  apply is_at_end_ahead. exact H.
Qed.

Lemma ahead_start toks raw :
  ahead {| lexed := toks; raw_string := raw; index := 0 |} = toks.
Proof. reflexivity. Qed.

Lemma tok_like_refl t : tok_like t t.
Proof. split; reflexivity. Qed.

(** ** The parser reads kinds and captures only *)

Lemma parse_terminal_like course ps1 ps2 t1 t2
    (R : LexIterator -> LexIterator -> Prop) :
  next_token ps1 = Some t1 -> next_token ps2 = Some t2 -> tok_like t1 t2 ->
  R (advance ps1) (advance ps2) ->
  follows (same_parse R) (parse_terminal course ps1) (parse_terminal course ps2).
Proof.
  intros H1 H2 [Ht Hg] HR db a1 d.
  unfold parse_terminal, bind, lift, next_tag, next_group1, expected,
    raise_parse_error, raise, ret.
  rewrite H1, H2, <- Ht, <- Hg.
  destruct (tok_tag t1); try discriminate;
    destruct (m_group1 (tok_match t1)) as [g|]; try discriminate;
    try (intros E; inversion E; subst; eexists; split; [reflexivity|];
         split; [reflexivity | exact HR]).
  - destruct (int g) as [n|e|]; try discriminate.
    intros E; inversion E; subst. eexists. split; [reflexivity|].
    split; [reflexivity | exact HR].
  - destruct (get_or_create course g db) as [[[ptag created]|e|] d'] eqn:G;
      try discriminate.
    intros E; inversion E; subst. eexists. split; [reflexivity|].
    split; [reflexivity | exact HR].
Qed.

Lemma parse_terminal_other course ps t :
  next_token ps = Some t -> is_terminal_tag (tok_tag t) = false ->
  forall db a d, parse_terminal course ps db <> (Ok a, d).
Proof.
  intros H Ht db a d.
  unfold parse_terminal, bind, lift, next_tag, expected, raise_parse_error, raise.
  rewrite H. destruct (tok_tag t); try discriminate Ht; discriminate.
Qed.

Lemma is_next_like ps1 ps2 t1 t2 t :
  next_token ps1 = Some t1 -> next_token ps2 = Some t2 -> tok_like t1 t2 ->
  is_next ps1 t = is_next ps2 t.
Proof. intros H1 H2 [Ht _]. unfold is_next. rewrite H1, H2, Ht. reflexivity. Qed.

Lemma next_token_not_end ps t : next_token ps = Some t -> is_at_end ps = false.
Proof.
  unfold next_token, is_at_end. intros H. apply Nat.leb_gt.
  apply nth_error_Some. congruence.
Qed.

Lemma primary_start_tags t :
  In t (_TERMINALS ++ [_not; _openpar]) ->
  existsb (tag_is t) (_TERMINALS ++ [_not; _openpar]) = true /\
  tag_is t _and = false /\ tag_is t _or = false /\ tag_is t _closepar = false.
Proof.
  intros H. simpl in H.
  repeat (destruct H as [<- | H]; [repeat split; reflexivity|]). destruct H.
Qed.

Lemma bind_next_tag {B} ps t (k : tag -> M B) :
  next_token ps = Some t -> bind (lift (next_tag ps)) k = k (tok_tag t).
Proof. intros H. unfold next_tag. rewrite H. reflexivity. Qed.

Section Lockstep.

Variable Rc : LexIterator -> LexIterator -> Prop.

Hypothesis Rc_step : forall ps1 ps2 t1,
  Rc ps1 ps2 -> next_token ps1 = Some t1 ->
  exists t2, next_token ps2 = Some t2 /\
    ((tok_like t1 t2 /\ Rc (advance ps1) (advance ps2)) \/
     (tok_tag t1 = _and /\ In (tok_tag t2) (_TERMINALS ++ [_not; _openpar]) /\
      Rc (advance ps1) ps2)).

Hypothesis Rc_end : forall ps1 ps2,
  Rc ps1 ps2 -> is_at_end ps1 = true ->
  is_at_end ps2 = true \/ is_next ps2 _closepar = true.

Lemma inner_parse_lockstep course fuel :
  (forall ps1 ps2 mp, Rc ps1 ps2 ->
      follows (same_parse Rc) (inner_parse fuel course ps1 mp)
                              (inner_parse fuel course ps2 mp)) /\
  (forall left ps1 ps2 mp, Rc ps1 ps2 ->
      follows (same_parse Rc) (inner_parse_loop fuel course left ps1 mp)
                              (inner_parse_loop fuel course left ps2 mp)).
Proof.
  induction fuel as [|f [IHp IHl]].
  - split; intros; apply follows_never; intros db a d; discriminate.
  - split.
    + intros ps1 ps2 mp HR. cbn [inner_parse]. unfold expect_not_end.
      destruct (is_at_end ps1) eqn:E1.
      { apply follows_never. intros db a d. discriminate. }
      destruct (is_at_end_false _ E1) as [t1 [H1 _]].
      destruct (Rc_step _ _ _ HR H1) as [t2 [H2 [[Hl HR'] | [Ha [Hin HR']]]]].
      * rewrite (next_token_not_end _ _ H2).
        apply (follows_bind eq); [apply follows_ret; reflexivity|]. intros _ _ _.
        apply (follows_bind (same_parse Rc)).
        2:{ intros [q1 p1] [q2 p2] [Hq Hp]. simpl in Hq, Hp. subst q2.
            apply IHl. exact Hp. }
        rewrite <- (is_next_like _ _ _ _ _not H1 H2 Hl).
        rewrite <- (is_next_like _ _ _ _ _openpar H1 H2 Hl).
        destruct (is_next ps1 _not); [|destruct (is_next ps1 _openpar)].
        -- apply (follows_bind (same_parse Rc)); [apply IHp; exact HR'|].
           intros [q1 p1] [q2 p2] [Hq Hp]. simpl in Hq, Hp. subst q2.
           apply follows_ret. split; [reflexivity | exact Hp].
        -- apply (follows_bind (same_parse Rc)); [apply IHp; exact HR'|].
           intros [q1 p1] [q2 p2] [Hq Hp]. simpl in Hq, Hp. subst q2.
           unfold expect, expect_not_end.
           destruct (is_at_end p1) eqn:Ep1.
           { apply follows_never. intros db a d. discriminate. }
           destruct (is_at_end_false _ Ep1) as [c1 [Hc1 _]].
           destruct (is_next p1 _closepar) eqn:Ecl.
           2:{ apply follows_never. intros db a d. unfold bind, ret. simpl.
               discriminate. }
           destruct (Rc_step _ _ _ Hp Hc1) as [c2 [Hc2 [[Hlc HRc] | [Hac _]]]].
           2:{ unfold is_next in Ecl. rewrite Hc1, Hac in Ecl. discriminate. }
           rewrite (next_token_not_end _ _ Hc2).
           rewrite <- (is_next_like _ _ _ _ _closepar Hc1 Hc2 Hlc), Ecl.
           apply (follows_bind eq).
           { apply (follows_bind eq); [apply follows_ret; reflexivity|].
             intros _ _ _. apply follows_ret. reflexivity. }
           intros _ _ _. apply follows_ret. split; [reflexivity | exact HRc].
        -- apply (parse_terminal_like _ _ _ _ _ _ H1 H2 Hl HR').
      * assert (Hn : forall t, t <> _and -> is_next ps1 t = false).
        { intros t Hne. unfold is_next, tag_is. rewrite H1, Ha.
          destruct (tag_eq_dec _and t); congruence. }
        rewrite (Hn _not), (Hn _openpar) by discriminate.
        apply follows_never. intros db a d. unfold bind, ret.
        destruct (parse_terminal course ps1 db) as [[x|e|] d1] eqn:E;
          try discriminate.
        exfalso. apply (parse_terminal_other course ps1 t1 H1) in E; [exact E|].
        rewrite Ha. reflexivity.
    + intros left ps1 ps2 mp HR. cbn [inner_parse_loop].
      destruct (is_at_end ps1) eqn:E1.
      { destruct (Rc_end _ _ HR E1) as [E2 | E2].
        - rewrite E2. apply follows_ret. split; [reflexivity | exact HR].
        - destruct (is_next_token _ _ E2) as [c [Hc Htc]].
          rewrite (next_token_not_end _ _ Hc).
          rewrite (bind_next_tag _ _ _ Hc), Htc. simpl.
          apply follows_ret. split; [reflexivity | exact HR]. }
      destruct (is_at_end_false _ E1) as [t1 [H1 _]].
      destruct (Rc_step _ _ _ HR H1) as [t2 [H2 [[Hl HR'] | [Ha [Hin HR']]]]];
        rewrite (next_token_not_end _ _ H2);
        rewrite (bind_next_tag _ _ _ H1), (bind_next_tag _ _ _ H2).
      * destruct Hl as [Hl _]. rewrite <- Hl.
        assert (Hstep : forall p1 p2 mp' (op : Q -> Q -> Q), Rc p1 p2 ->
                  follows (same_parse Rc)
                    (x <- inner_parse f course p1 mp' ;;
                     (let (q, pstate) := x in
                      inner_parse_loop f course (op left q) pstate mp))
                    (x <- inner_parse f course p2 mp' ;;
                     (let (q, pstate) := x in
                      inner_parse_loop f course (op left q) pstate mp))).
        { intros p1 p2 mp' op Hp.
          apply (follows_bind (same_parse Rc)); [apply IHp; exact Hp|].
          intros [q1 r1] [q2 r2] [Hq Hr]. simpl in Hq, Hr. subst q2.
          apply IHl. exact Hr. }
        destruct (tag_is (tok_tag t1) _and && (mp <? _PREC_AND)).
        { apply Hstep. exact HR'. }
        destruct (tag_is (tok_tag t1) _or && (mp <? _PREC_OR)).
        { apply Hstep. exact HR'. }
        match goal with |- follows _ (if ?b then _ else _) _ => destruct b end.
        { apply Hstep. exact HR. }
        apply follows_ret. split; [reflexivity | exact HR].
      * destruct (primary_start_tags _ Hin) as (Hex & Hna & Hno & _).
        rewrite Ha, Hna, Hno, Hex. simpl andb.
        destruct (mp <? _PREC_AND).
        -- apply (follows_bind (same_parse Rc)); [apply IHp; exact HR'|].
           intros [q1 r1] [q2 r2] [Hq Hr]. simpl in Hq, Hr. subst q2.
           apply IHl. exact Hr.
        -- apply follows_ret. split; [reflexivity | exact HR].
Qed.

End Lockstep.

(** ** Token lists the parser cannot tell apart *)

Lemma tok_likeb_like t1 t2 : tok_likeb t1 t2 = true -> tok_like t1 t2.
Proof.
  unfold tok_likeb, tok_like, tag_is, option_eqb. intros H.
  apply andb_prop in H. destruct H as [Ht Hg]. split.
  - destruct (tag_eq_dec (tok_tag t1) (tok_tag t2)); [assumption | discriminate].
  - destruct (m_group1 (tok_match t1)), (m_group1 (tok_match t2)); try discriminate.
    + apply String.eqb_eq in Hg. congruence.
    + reflexivity.
Qed.

Lemma hd_error_some {A} (l : list A) x : hd_error l = Some x -> exists r, l = x :: r.
Proof. destruct l; simpl; intros H; inversion H; eauto. Qed.

Lemma next_token_cons ps t :
  next_token ps = Some t -> exists r, ahead ps = t :: r.
Proof. rewrite next_token_ahead. apply hd_error_some. Qed.

Lemma drops_and_length l1 : forall l2,
  drops_and l1 l2 = true -> List.length l2 <= List.length l1.
Proof.
  induction l1 as [|t1 r1 IH]; intros l2 H; simpl in H.
  - destruct l2; [simpl; lia | discriminate].
  - apply orb_prop in H. destruct H as [H | H].
    + destruct l2 as [|t2 r2]; [discriminate|].
      apply andb_prop in H. destruct H as [_ H]. apply IH in H. simpl. lia.
    + apply andb_prop in H. destruct H as [_ H]. apply IH in H. simpl. lia.
Qed.

Lemma drops_and_nil l1 : drops_and l1 [] = true -> l1 = [].
Proof.
  induction l1 as [|t1 r1 IH]; [reflexivity|]. cbn [drops_and]. intros H.
  apply orb_prop in H. destruct H as [H | H]; [discriminate|].
  apply andb_prop in H. destruct H as [H Hd].
  apply andb_prop in H. destruct H as [_ H].
  rewrite (IH Hd) in H. discriminate.
Qed.

Lemma without_and_step ps1 ps2 t1 :
  without_and ps1 ps2 -> next_token ps1 = Some t1 ->
  exists t2, next_token ps2 = Some t2 /\
    ((tok_like t1 t2 /\ without_and (advance ps1) (advance ps2)) \/
     (tok_tag t1 = _and /\ In (tok_tag t2) (_TERMINALS ++ [_not; _openpar]) /\
      without_and (advance ps1) ps2)).
Proof.
  unfold without_and. intros H H1.
  destruct (next_token_cons _ _ H1) as [r1 E1].
  rewrite ahead_advance, E1 in *. cbn [tl]. cbn [drops_and] in H.
  apply orb_prop in H. destruct H as [H | H].
  - destruct (ahead ps2) as [|t2 r2] eqn:E2; [discriminate|].
    apply andb_prop in H. destruct H as [Hl H].
    exists t2. split; [apply (ahead_cons _ _ _ E2)|].
    left. split; [apply tok_likeb_like; exact Hl|].
    rewrite ahead_advance, E2. exact H.
  - apply andb_prop in H. destruct H as [H Hd].
    apply andb_prop in H. destruct H as [Ha Ht].
    destruct r1 as [|t r1']; [discriminate|].
    assert (Hin : In (tok_tag t) (_TERMINALS ++ [_not; _openpar])).
    { apply existsb_exists in Ht. destruct Ht as [x [Hx Hx']].
      unfold tag_is in Hx'. destruct (tag_eq_dec (tok_tag t) x); [|discriminate].
      subst x. exact Hx. }
    destruct (primary_start_tags _ Hin) as (_ & Hna & _).
    assert (Et : tok_tag t1 = _and).
    { unfold tag_is in Ha. destruct (tag_eq_dec (tok_tag t1) _and); [assumption | discriminate]. }
    pose proof Hd as Hd'. cbn [drops_and] in Hd'. rewrite Hna in Hd'.
    cbn [andb] in Hd'. rewrite orb_false_r in Hd'.
    destruct (ahead ps2) as [|t2 r2] eqn:E2; [discriminate|].
    apply andb_prop in Hd'. destruct Hd' as [Hl _]. apply tok_likeb_like in Hl.
    exists t2. split; [apply (ahead_cons _ _ _ E2)|].
    right. split; [exact Et|]. split; [|exact Hd].
    destruct Hl as [Hl _]. rewrite <- Hl. exact Hin.
Qed.

Lemma without_and_end ps1 ps2 :
  without_and ps1 ps2 -> is_at_end ps1 = true -> is_at_end ps2 = true.
Proof.
  unfold without_and. intros H E. apply is_at_end_ahead in E. rewrite E in H.
  simpl in H. apply is_at_end_ahead. destruct (ahead ps2); [reflexivity | discriminate].
Qed.

Lemma before_close_step close ps1 ps2 t1 :
  before_close close ps1 ps2 -> next_token ps1 = Some t1 ->
  exists t2, next_token ps2 = Some t2 /\
    ((tok_like t1 t2 /\ before_close close (advance ps1) (advance ps2)) \/
     (tok_tag t1 = _and /\ In (tok_tag t2) (_TERMINALS ++ [_not; _openpar]) /\
      before_close close (advance ps1) ps2)).
Proof.
  intros [l [Hl E2]] H1. destruct (next_token_cons _ _ H1) as [r1 E1].
  rewrite E1 in Hl. destruct l as [|t2 l']; [discriminate|]. simpl in Hl.
  apply andb_prop in Hl. destruct Hl as [Ht Hl].
  exists t2. split; [apply (ahead_cons _ _ _ E2)|].
  left. split; [apply tok_likeb_like; exact Ht|].
  exists l'. rewrite !ahead_advance, E1, E2. split; [exact Hl | reflexivity].
Qed.

Lemma before_close_end close ps1 ps2 :
  tok_tag close = _closepar ->
  before_close close ps1 ps2 -> is_at_end ps1 = true ->
  ahead ps2 = [close] /\ is_next ps2 _closepar = true.
Proof.
  intros Hc [l [Hl E2]] E. apply is_at_end_ahead in E. rewrite E in Hl.
  destruct l; [|discriminate]. simpl in E2. split; [exact E2|].
  unfold is_next. rewrite next_token_ahead, E2. simpl. rewrite Hc. reflexivity.
Qed.

Lemma alike_refl l : alike l l = true.
Proof.
  induction l as [|t l IH]; simpl; [reflexivity|]. rewrite IH, andb_true_r.
  unfold tok_likeb, tag_is, option_eqb.
  destruct (tag_eq_dec (tok_tag t) (tok_tag t)); [|congruence].
  destruct (m_group1 (tok_match t)); [apply String.eqb_refl | reflexivity].
Qed.

(** ** The budget a successful parse was run with *)

Lemma inner_parse_ok_any_fuel course ps mp db f1 f2 r d :
  inner_parse f1 course ps mp db = (Ok r, d) ->
  2 * remaining ps + 1 <= f2 ->
  inner_parse f2 course ps mp db = (Ok r, d).
Proof.
  intros H Hf. destruct (Nat.le_gt_cases f1 f2) as [Hle | Hgt].
  - replace f2 with (f1 + (f2 - f1)) by lia.
    rewrite (proj1 (inner_parse_settles course (f2 - f1) f1)); [exact H|].
    rewrite H. discriminate.
  - rewrite <- H. replace f1 with (f2 + (f1 - f2)) by lia. symmetry.
    apply (proj1 (inner_parse_settles course (f1 - f2) f2)).
    apply inner_parse_enough. exact Hf.
Qed.

Lemma parse_query_tokens course s :
  parse_query course s =
  (toks <- lift (lex _LEX_TABLE s) ;; parse_tokens course s (significant toks)).
Proof. reflexivity. Qed.

Lemma parse_tokens_ok course raw toks db q d :
  parse_tokens course raw toks db = (Ok q, d) ->
  exists ps,
    inner_parse (parse_fuel toks) course
      {| lexed := toks; raw_string := raw; index := 0 |} 0 db = (Ok (q, ps), d) /\
    is_at_end ps = true.
Proof.
  unfold parse_tokens. cbn [lexed].
  destruct (is_at_end _); [discriminate|]. unfold bind.
  destruct (inner_parse _ _ _ _ db) as [[[q1 ps]|e|] d1]; try discriminate.
  destruct (is_at_end ps) eqn:E; simpl; [|discriminate].
  intros H. inversion H; subst. exists ps. split; [reflexivity | exact E].
Qed.

Lemma parse_tokens_from course raw toks db q ps d :
  inner_parse (parse_fuel toks) course
    {| lexed := toks; raw_string := raw; index := 0 |} 0 db = (Ok (q, ps), d) ->
  is_at_end ps = true -> toks <> [] ->
  parse_tokens course raw toks db = (Ok q, d).
Proof.
  intros H E Hne. unfold parse_tokens. cbn [lexed].
  assert (E0 : is_at_end {| lexed := toks; raw_string := raw; index := 0 |} = false).
  { destruct toks; [congruence | reflexivity]. }
  rewrite E0. unfold bind. rewrite H, E. reflexivity.
Qed.

Lemma parse_tokens_without_and course raw1 raw2 toks1 toks2 db q d :
  drops_and toks1 toks2 = true ->
  parse_tokens course raw1 toks1 db = (Ok q, d) ->
  parse_tokens course raw2 toks2 db = (Ok q, d).
Proof.
  intros Hd H. destruct (parse_tokens_ok _ _ _ _ _ _ H) as [ps1 [H1 E1]].
  set (p1 := {| lexed := toks1; raw_string := raw1; index := 0 |}) in *.
  set (p2 := {| lexed := toks2; raw_string := raw2; index := 0 |}).
  assert (HR0 : without_and p1 p2) by exact Hd.
  destruct (proj1 (inner_parse_lockstep without_and without_and_step
                     (fun a b R E => or_introl (without_and_end a b R E))
                     course (parse_fuel toks1))
              p1 p2 0 HR0 _ _ _ H1) as [[q2 ps2] [H2 [Hq HR]]].
  simpl in Hq, HR. subst q2.
  apply (parse_tokens_from _ _ _ _ _ ps2).
  - apply (inner_parse_ok_any_fuel _ _ _ _ _ _ _ _ H2).
    unfold remaining, parse_fuel. simpl. lia.
  - apply (without_and_end _ _ HR E1).
  - intros ->. rewrite (drops_and_nil _ Hd) in H.
    unfold parse_tokens in H. simpl in H. discriminate.
Qed.

Lemma parse_tokens_parenthesized course raw1 raw2 toks1 o l c db q d :
  tok_tag o = _openpar -> tok_tag c = _closepar -> alike toks1 l = true ->
  parse_tokens course raw1 toks1 db = (Ok q, d) ->
  parse_tokens course raw2 (o :: l ++ [c]) db = (Ok q, d).
Proof.
  intros Ho Hc Hl H. destruct (parse_tokens_ok _ _ _ _ _ _ H) as [ps1 [H1 E1]].
  set (toks2 := o :: l ++ [c]).
  set (p2 := {| lexed := toks2; raw_string := raw2; index := 0 |}).
  assert (HR0 : before_close c {| lexed := toks1; raw_string := raw1; index := 0 |}
                  (advance p2)).
  { exists l. split; [exact Hl | reflexivity]. }
  destruct (proj1 (inner_parse_lockstep (before_close c) (before_close_step c)
                     (fun a b R E => or_intror (proj2 (before_close_end c a b Hc R E)))
                     course (parse_fuel toks1))
              _ _ 0 HR0 _ _ _ H1) as [[q2 ps2] [H2 [Hq HR]]].
  simpl in Hq, HR. subst q2.
  destruct (before_close_end _ _ _ Hc HR E1) as [Ea Hn].
  destruct (ahead_cons _ _ _ Ea) as (Hnt & Hne & Hadv).
  assert (Hend : is_at_end (advance ps2) = true) by (apply is_at_end_ahead; exact Hadv).
  apply (parse_tokens_from _ _ _ _ _ (advance ps2)); [|exact Hend | discriminate].
  assert (Hf : parse_fuel toks2 = S (2 * List.length l + 4)).
  { unfold parse_fuel, toks2. simpl. rewrite length_app. simpl. lia. }
  rewrite Hf. cbn [inner_parse].
  assert (Ho' : is_next p2 _openpar = true).
  { unfold is_next. simpl. rewrite Ho. reflexivity. }
  assert (Hn' : is_next p2 _not = false).
  { unfold is_next. simpl. rewrite Ho. reflexivity. }
  fold p2. rewrite Ho', Hn'.
  unfold expect_not_end at 1. replace (is_at_end p2) with false by reflexivity.
  apply (inner_parse_ok_any_fuel _ _ _ _ _ (2 * List.length l + 4)) in H2.
  2:{ unfold remaining, p2, toks2. simpl. rewrite length_app. simpl. lia. }
  unfold bind, ret. rewrite H2.
  unfold expect, expect_not_end, bind, ret. rewrite Hne, Hn.
  replace (2 * List.length l + 4) with (S (2 * List.length l + 3)) by lia.
  cbn [inner_parse_loop]. rewrite Hend. reflexivity.
Qed.

(** ** Text in parentheses *)

Lemma strip_prefix_length p : forall s rest,
  strip_prefix p s = Some rest -> String.length s = String.length p + String.length rest.
Proof.
  induction p as [|a p IH]; intros s rest; simpl.
  - intros H. inversion H; subst. reflexivity.
  - destruct s as [|b s]; [discriminate|]. destruct (Ascii.eqb a b); [|discriminate].
    intros H. simpl. rewrite (IH _ _ H). reflexivity.
Qed.

Lemma take_while_length cls s : String.length (take_while cls s) <= String.length s.
Proof. induction s as [|c s IH]; simpl; [lia|]. destruct (cls c); simpl; lia. Qed.

Lemma re_match_end rule s m :
  re_match rule s = Some m -> m_end m <= String.length s.
Proof.
  destruct rule as [kw | lit | prefix cls | cls]; simpl.
  - destruct (strip_prefix kw s) as [rest|] eqn:E; [|discriminate].
    apply strip_prefix_length in E.
    destruct rest as [|c rest]; [|destruct (is_word c); [discriminate|]];
      intros H; inversion H; subst; simpl; lia.
  - destruct (strip_prefix lit s) as [rest|] eqn:E; [|discriminate].
    apply strip_prefix_length in E. intros H; inversion H; subst; simpl; lia.
  - destruct (strip_prefix prefix s) as [rest|] eqn:E; [|discriminate].
    apply strip_prefix_length in E.
    destruct (is_empty (take_while cls rest)); [discriminate|].
    intros H; inversion H; subst; simpl.
    pose proof (take_while_length cls rest). lia.
  - destruct (is_empty (take_while cls s)); [discriminate|].
    intros H; inversion H; subst; simpl. apply take_while_length.
Qed.

Lemma first_rule_end lex_table s name m :
  first_rule lex_table s = Some (name, m) -> 0 < m_end m <= String.length s.
Proof.
  induction lex_table as [|[n r] rest IH]; simpl; [discriminate|].
  destruct (re_match r s) as [m'|] eqn:E; [|exact IH].
  destruct (m_end m' =? 0) eqn:Z; [exact IH|].
  intros H. inversion H; subst. apply Nat.eqb_neq in Z.
  apply re_match_end in E. lia.
Qed.

Lemma strip_prefix_close p : forall s,
  String.length p <= String.length s \/ no_close p = true ->
  strip_prefix p (s ++ ")") =
  match strip_prefix p s with
  | Some rest => Some (rest ++ ")")%string
  | None => None
  end.
Proof.
  induction p as [|a p IH]; intros s H; [reflexivity|].
  destruct s as [|b s].
  - destruct H as [H | H]; [simpl in H; lia|].
    unfold no_close in H. simpl in H. apply andb_prop in H. destruct H as [H _].
    simpl. unfold close_char in H.
    destruct (Ascii.eqb a ")"); [discriminate | reflexivity].
  - simpl. destruct (Ascii.eqb a b); [|reflexivity]. apply IH.
    destruct H as [H | H]; [left; simpl in H; lia|].
    right. unfold no_close in *. simpl in H. apply andb_prop in H. tauto.
Qed.

Lemma take_while_close cls s :
  cls close_char = false -> take_while cls (s ++ ")") = take_while cls s.
Proof.
  intros H. induction s as [|c s IH]; simpl.
  - unfold close_char in H. rewrite H. reflexivity.
  - rewrite IH. reflexivity.
Qed.

Lemma re_match_close rule s :
  stops_at_close rule = true -> s <> "" ->
  re_match rule (s ++ ")") = re_match rule s.
Proof.
  intros H Hs. destruct rule as [kw | lit | prefix cls | cls]; simpl in *.
  - rewrite strip_prefix_close by (right; exact H).
    destruct (strip_prefix kw s) as [[|c rest]|]; reflexivity.
  - rewrite strip_prefix_close.
    + destruct (strip_prefix lit s); reflexivity.
    + apply orb_prop in H. destruct H as [H | H]; [left | right; exact H].
      apply Nat.leb_le in H. destruct s; [congruence | simpl; lia].
  - apply andb_prop in H. destruct H as [Hp Hc].
    rewrite strip_prefix_close by (right; exact Hp).
    destruct (strip_prefix prefix s) as [rest|]; [|reflexivity].
    rewrite take_while_close; [reflexivity|].
    destruct (cls close_char); [discriminate | reflexivity].
  - rewrite take_while_close; [reflexivity|].
    destruct (cls close_char); [discriminate | reflexivity].
Qed.

Lemma first_rule_close lex_table s :
  forallb (fun x => stops_at_close (snd x)) lex_table = true -> s <> "" ->
  first_rule lex_table (s ++ ")") = first_rule lex_table s.
Proof.
  intros H Hs. induction lex_table as [|[n r] rest IH]; [reflexivity|].
  simpl in H. apply andb_prop in H. destruct H as [Hr H].
  simpl. rewrite (re_match_close _ _ Hr Hs), (IH H). reflexivity.
Qed.

Lemma lex_table_stops_at_close :
  forallb (fun x => stops_at_close (snd x)) _LEX_TABLE = true.
Proof. vm_compute. reflexivity. Qed.

Lemma take_short n : forall s rest,
  n <= String.length s -> take n (s ++ rest) = take n s.
Proof.
  induction n as [|n IH]; intros s rest H; [destruct s; destruct rest; reflexivity|].
  destruct s as [|c s]; [simpl in H; lia|]. simpl. rewrite IH; [reflexivity|].
  simpl in H. lia.
Qed.

Lemma lex_at_close s : forall i skip toks,
  lex_at _LEX_TABLE s i skip = Ok toks -> skip <= String.length s ->
  lex_at _LEX_TABLE (s ++ ")") i skip
  = Ok (toks ++ [closepar_token (i + String.length s)]).
Proof.
  induction s as [|c s IH]; intros i skip toks H Hk.
  - simpl in Hk. assert (skip = 0) by lia. subst skip. simpl in H.
    inversion H; subst. rewrite Nat.add_0_r. reflexivity.
  - destruct skip as [|k].
    + change ((String c s ++ ")")%string) with (String c (s ++ ")")).
      cbn [lex_at] in *.
      change (String c (s ++ ")")) with ((String c s ++ ")")%string).
      rewrite (first_rule_close _ (String c s) lex_table_stops_at_close) by discriminate.
      destruct (first_rule _LEX_TABLE (String c s)) as [[name m]|] eqn:F;
        [|discriminate].
      destruct (first_rule_end _ _ _ _ F) as [Hpos Hend]. simpl in Hend.
      destruct (lex_at _LEX_TABLE s (S i) (m_end m - 1)) as [toks'| |] eqn:L;
        try discriminate.
      rewrite (IH _ _ _ L) by lia. inversion H; subst.
      rewrite (take_short (m_end m) (String c s)) by (simpl; lia).
      simpl. replace (i + S (String.length s)) with (S i + String.length s) by lia.
      reflexivity.
    + simpl in *. rewrite (IH _ _ _ H) by lia.
      replace (i + S (String.length s)) with (S i + String.length s) by lia.
      reflexivity.
Qed.

Lemma lex_at_shift s j : forall i skip toks,
  lex_at _LEX_TABLE s i skip = Ok toks ->
  exists toks', lex_at _LEX_TABLE s (j + i) skip = Ok toks' /\ alike toks toks' = true.
Proof.
  induction s as [|c s IH]; intros i skip toks H.
  - simpl in H. inversion H; subst. exists []. split; reflexivity.
  - destruct skip as [|k]; cbn [lex_at] in *.
    + destruct (first_rule _LEX_TABLE (String c s)) as [[name m]|]; [|discriminate].
      destruct (lex_at _LEX_TABLE s (S i) (m_end m - 1)) as [toks0| |] eqn:L;
        try discriminate.
      destruct (IH _ _ _ L) as [toks' [E Ha]].
      replace (j + S i) with (S (j + i)) in E by lia. rewrite E.
      inversion H; subst. eexists. split; [reflexivity|].
      cbn [alike]. rewrite Ha, andb_true_r.
      unfold tok_likeb, tag_is, option_eqb. simpl.
      destruct (tag_eq_dec name name); [|congruence].
      destruct (m_group1 m); [apply String.eqb_refl | reflexivity].
    + destruct (IH _ _ _ H) as [toks' [E Ha]].
      replace (j + S i) with (S (j + i)) in E by lia. eauto.
Qed.

Lemma alike_significant l1 : forall l2,
  alike l1 l2 = true -> alike (significant l1) (significant l2) = true.
Proof.
  induction l1 as [|t1 r1 IH]; intros [|t2 r2] H; try discriminate; [reflexivity|].
  simpl in H. apply andb_prop in H. destruct H as [Ht Hr].
  destruct (tok_likeb_like _ _ Ht) as [Etag _].
  unfold significant in *. simpl. rewrite <- Etag.
  destruct (negb (tag_is (tok_tag t1) _whitespace)); [|apply IH; exact Hr].
  simpl. rewrite Ht. apply IH. exact Hr.
Qed.

Lemma lex_parenthesized s toks :
  lex _LEX_TABLE s = Ok toks ->
  exists toks',
    lex _LEX_TABLE ("(" ++ s ++ ")")
    = Ok (openpar_token 0 :: toks' ++ [closepar_token (1 + String.length s)]) /\
    alike toks toks' = true.
Proof.
  unfold lex. intros H.
  destruct (lex_at_shift s 1 _ _ _ H) as [toks' [E Ha]].
  exists toks'. split; [|exact Ha].
  apply lex_at_close in E; [|lia].
  change (("(" ++ s ++ ")")%string) with (String "(" (s ++ ")")).
  cbn [lex_at].
  assert (F : first_rule _LEX_TABLE (String "(" (s ++ ")"))
              = Some (_openpar, MatchObj 1 None)) by reflexivity.
  rewrite F. simpl m_end. simpl Nat.sub. simpl Nat.add in E. rewrite E.
  reflexivity.
Qed.

(** ** Properties every step of the parser keeps *)

Section Walk.

Variable course : nat.
Variable allowed : string -> Prop.
Variable C : forall A, M A -> (A -> Prop) -> Prop.

Hypothesis C_lift : forall A (o : outcome A) (Post : A -> Prop),
  (forall a, o = Ok a -> Post a) -> C A (lift o) Post.

Hypothesis C_bind : forall A B (m : M A) (k : A -> M B) PostA PostB,
  C A m PostA -> (forall a, PostA a -> C B (k a) PostB) -> C B (bind m k) PostB.

Hypothesis C_tag : forall B g (k : ParticipationTag -> M B) Post,
  allowed g -> (forall t, C B (k t) Post) ->
  C B (bind (get_or_create course g) (fun x => let (ptag, _) := x in k ptag)) Post.

Hypothesis C_try : forall A (m : M A) (h : exn -> M A) (Post Post' : A -> Prop),
  C A m Post -> (forall e, C A (h e) Post') -> (forall a, Post a -> Post' a) ->
  C A (try_except m h) Post'.

Lemma C_ret A (a : A) (Post : A -> Prop) : Post a -> C A (ret a) Post.
Proof. intros H. apply (C_lift A (Ok a)). intros a' E. inversion E; subst. exact H. Qed.

Lemma C_raise A e (Post : A -> Prop) : C A (raise e) Post.
Proof. apply (C_lift A (Raise e)). intros a E. discriminate. Qed.

Lemma walk_parse_terminal toks ps :
  (forall g, tagged_in toks g -> allowed g) -> lexed ps = toks ->
  C _ (parse_terminal course ps) (on_toks toks).
Proof.
  intros Hall Hl. unfold parse_terminal.
  apply (C_bind _ _ _ _ (fun t => next_tag ps = Ok t)); [apply C_lift; auto|].
  intros t Ht.
  assert (Hret : forall q, C _ (ret (q, advance ps)) (on_toks toks)).
  { intros q. apply C_ret. exact Hl. }
  assert (Hg : forall k : string -> M (Q * LexIterator),
             (forall g, next_group1 ps = Ok g -> C _ (k g) (on_toks toks)) ->
             C _ (bind (lift (next_group1 ps)) k) (on_toks toks)).
  { intros k Hk.
    apply (C_bind _ _ _ _ (fun g => next_group1 ps = Ok g)); [apply C_lift; auto|].
    exact Hk. }
  destruct t; try (apply C_raise); apply Hg; intros g Eg; try apply Hret.
  - apply (C_bind _ _ _ _ (fun _ => True)); [apply C_lift; auto|].
    intros n _. apply Hret.
  - apply (C_tag _ g (fun ptag => ret (Q_ (tags__pk (tag_pk ptag)), advance ps))).
    + apply Hall. unfold next_tag, next_group1 in *.
      destruct (next_token ps) as [tok|] eqn:E; [|discriminate].
      exists tok. split; [|split].
      * rewrite <- Hl. apply nth_error_In with (n := index ps). exact E.
      * inversion Ht. reflexivity.
      * destruct (m_group1 (tok_match tok)); inversion Eg; reflexivity.
    + intros t. apply Hret.
Qed.

Lemma walk_inner_parse toks fuel :
  (forall g, tagged_in toks g -> allowed g) ->
  (forall ps mp, lexed ps = toks ->
      C _ (inner_parse fuel course ps mp) (on_toks toks)) /\
  (forall left ps mp, lexed ps = toks ->
      C _ (inner_parse_loop fuel course left ps mp) (on_toks toks)).
Proof.
  intros Hall. induction fuel as [|f [IHp IHl]].
  - split; intros; apply (C_lift _ OutOfFuel); discriminate.
  - assert (Hsub : forall ps mp (k : Q * LexIterator -> M (Q * LexIterator)),
               lexed ps = toks ->
               (forall q ps', lexed ps' = toks -> C _ (k (q, ps')) (on_toks toks)) ->
               C _ (bind (inner_parse f course ps mp) k) (on_toks toks)).
    { intros ps mp k Hl Hk.
      apply (C_bind _ _ _ _ (on_toks toks)); [apply IHp; exact Hl|].
      intros [q ps'] Hp. apply Hk. exact Hp. }
    split.
    + intros ps mp Hl. cbn [inner_parse].
      apply (C_bind _ _ _ _ (fun _ => True)).
      { unfold expect_not_end. destruct (is_at_end ps); [apply C_raise | apply C_ret; exact I]. }
      intros _ _.
      apply (C_bind _ _ _ _ (on_toks toks)).
      2:{ intros [q ps'] Hp. apply IHl. exact Hp. }
      destruct (is_next ps _not); [|destruct (is_next ps _openpar)].
      * apply Hsub; [exact Hl|]. intros q ps' Hp. apply C_ret. exact Hp.
      * apply Hsub; [exact Hl|]. intros q ps' Hp.
        apply (C_bind _ _ _ _ (fun _ => True)).
        { unfold expect.
          apply (C_bind _ _ _ _ (fun _ => True)).
          { unfold expect_not_end.
            destruct (is_at_end ps'); [apply C_raise | apply C_ret; exact I]. }
          intros _ _. destruct (is_next ps' _closepar); [apply C_ret; exact I | apply C_raise]. }
        intros _ _. apply C_ret. exact Hp.
      * apply walk_parse_terminal; assumption.
    + intros left ps mp Hl. cbn [inner_parse_loop].
      destruct (is_at_end ps); [apply C_ret; exact Hl|].
      apply (C_bind _ _ _ _ (fun _ => True)); [apply C_lift; auto|].
      intros t _.
      destruct (tag_is t _and && (mp <? _PREC_AND)).
      { apply Hsub; [exact Hl|]. intros q ps' Hp. apply IHl. exact Hp. }
      destruct (tag_is t _or && (mp <? _PREC_OR)).
      { apply Hsub; [exact Hl|]. intros q ps' Hp. apply IHl. exact Hp. }
      match goal with |- C _ (if ?b then _ else _) _ => destruct b end.
      { apply Hsub; [exact Hl|]. intros q ps' Hp. apply IHl. exact Hp. }
      apply C_ret. exact Hl.
Qed.

Lemma walk_parse_tokens raw toks :
  (forall g, tagged_in toks g -> allowed g) ->
  C _ (parse_tokens course raw toks) (fun _ => True).
Proof.
  intros Hall. unfold parse_tokens.
  destruct (is_at_end _); [apply C_raise|].
  apply (C_bind _ _ _ _ (on_toks toks)).
  { apply (walk_inner_parse toks); [exact Hall | reflexivity]. }
  intros [q ps'] _. destruct (negb (is_at_end ps')); [apply C_raise | apply C_ret; exact I].
Qed.

Lemma walk_parse_query s :
  (forall toks g, lex _LEX_TABLE s = Ok toks -> tagged_in toks g -> allowed g) ->
  C _ (parse_query course s) (fun _ => True).
Proof.
  intros Hall. rewrite parse_query_tokens.
  apply (C_bind _ _ _ _ (fun toks => lex _LEX_TABLE s = Ok toks)); [apply C_lift; auto|].
  intros toks E. apply walk_parse_tokens. intros g (tok & Hin & Ht & Hg).
  apply (Hall toks g E). exists tok. split; [|split; assumption].
  unfold significant in Hin. apply filter_In in Hin. tauto.
Qed.

Lemma walk_query_lines lines :
  (forall g, tagged_in_lines (map snd lines) g -> allowed g) ->
  forall pq, C _ (query_lines course lines pq) (fun _ => True).
Proof.
  induction lines as [|[lineno line] rest IH]; intros Hall pq; cbn [query_lines].
  - apply C_ret. exact I.
  - assert (Hrest : forall g, tagged_in_lines (map snd rest) g -> allowed g).
    { intros g (l & toks & Hin & E & Ht). apply Hall.
      exists l, toks. split; [right; exact Hin | auto]. }
    destruct (is_empty (strip line)); [apply IH; exact Hrest|].
    apply (C_bind _ _ _ _ (fun _ => True)).
    + unfold attempt. apply (C_try _ _ _ (fun _ => True)); auto.
      * apply (C_bind _ _ _ _ (fun _ => True)).
        -- apply walk_parse_query. intros toks g E Ht. apply Hall.
           exists line, toks. split; [left; reflexivity | auto].
        -- intros q _. apply C_ret. exact I.
      * intros e. apply C_ret. exact I.
    + intros [q | e] _; [apply IH; exact Hrest | apply C_ret; exact I].
Qed.

End Walk.

(** ** Store relations the parser keeps *)

Section Frames.

Variable course : nat.
Variable allowed : string -> Prop.
Variable P : database -> database -> Prop.

Hypothesis P_refl : forall db, P db db.
Hypothesis P_trans : forall a b c, P a b -> P b c -> P a c.
Hypothesis P_tag : forall g db,
  allowed g -> P db (snd (get_or_create course g db)).

Lemma frames_lift A (o : outcome A) (Post : A -> Prop) :
  (forall a, o = Ok a -> Post a) -> frames P (lift o) Post.
Proof. intros H db. split; [apply P_refl | exact H]. Qed.

Lemma frames_bind A B (m : M A) (k : A -> M B) PostA PostB :
  frames P m PostA -> (forall a, PostA a -> frames P (k a) PostB) ->
  frames P (bind m k) PostB.
Proof.
  intros Hm Hk db. destruct (Hm db) as [HP HA]. unfold bind.
  destruct (m db) as [[a | e |] d]; simpl in *.
  - destruct (Hk a (HA a eq_refl) d) as [HP' HB].
    split; [eapply P_trans; eauto | exact HB].
  - split; [exact HP | discriminate].
  - split; [exact HP | discriminate].
Qed.

Lemma frames_tag B g (k : ParticipationTag -> M B) Post :
  allowed g -> (forall t, frames P (k t) Post) ->
  frames P (bind (get_or_create course g) (fun x => let (ptag, _) := x in k ptag)) Post.
Proof.
  intros Hg Hk db. pose proof (P_tag g db Hg) as HP. unfold bind.
  destruct (get_or_create_spec course g db) as (t & c & d & E & _).
  rewrite E in *. simpl in HP. destruct (Hk t d) as [HP' HB].
  split; [eapply P_trans; eauto | exact HB].
Qed.

Lemma frames_try A (m : M A) (h : exn -> M A) (Post Post' : A -> Prop) :
  frames P m Post -> (forall e, frames P (h e) Post') ->
  (forall a, Post a -> Post' a) -> frames P (try_except m h) Post'.
Proof.
  intros Hm Hh Himp db. destruct (Hm db) as [HP HA]. unfold try_except.
  destruct (m db) as [[a | e |] d]; simpl in *.
  - split; [exact HP | intros a' E; inversion E; subst; auto].
  - destruct (Hh e d) as [HP' HB]. split; [eapply P_trans; eauto | exact HB].
  - split; [exact HP | discriminate].
Qed.

Lemma parse_query_frames s :
  (forall toks g, lex _LEX_TABLE s = Ok toks -> tagged_in toks g -> allowed g) ->
  forall db, P db (snd (parse_query course s db)).
Proof.
  intros Hall db.
  apply (walk_parse_query course allowed (fun A => frames P)
           frames_lift frames_bind frames_tag s Hall db).
Qed.

Lemma query_lines_frames lines pq :
  (forall g, tagged_in_lines (map snd lines) g -> allowed g) ->
  forall db, P db (snd (query_lines course lines pq db)).
Proof.
  intros Hall db.
  apply (walk_query_lines course allowed (fun A => frames P)
           frames_lift frames_bind frames_tag frames_try lines Hall pq db).
Qed.

End Frames.

(** ** New tags only *)

Lemma only_new_tags_refl course allowed db : only_new_tags course allowed db db.
Proof.
  split; [reflexivity|]. exists []. rewrite app_nil_r. split; [reflexivity|].
  intros t [].
Qed.

Lemma only_new_tags_grows course allowed a b :
  only_new_tags course allowed a b -> grows a b.
Proof. intros [Hp [l [Hl _]]]. split; [exact Hp | eauto]. Qed.

Lemma only_new_tags_trans course allowed a b c :
  only_new_tags course allowed a b -> only_new_tags course allowed b c ->
  only_new_tags course allowed a c.
Proof.
  intros Hab Hbc. pose proof (only_new_tags_grows _ _ _ _ Hab) as Hg.
  destruct Hab as [Hp [l [Hl Ht]]]. destruct Hbc as [Hp' [l' [Hl' Ht']]].
  split; [congruence|]. exists (l ++ l'). split.
  - rewrite Hl', Hl, app_assoc. reflexivity.
  - intros t Hin. apply in_app_or in Hin. destruct Hin as [Hin | Hin]; [auto|].
    destruct (Ht' t Hin) as (Hc & Ha & Hh). split; [exact Hc|]. split; [exact Ha|].
    destruct (has_tag a course (tag_name t)) eqn:E; [|reflexivity].
    rewrite (has_tag_grows _ _ _ _ Hg E) in Hh. discriminate.
Qed.

Lemma only_new_tags_get_or_create course (allowed : string -> Prop) g db :
  allowed g -> only_new_tags course allowed db (snd (get_or_create course g db)).
Proof.
  intros Hg. unfold get_or_create.
  destruct (find (tag_matches course g) (participation_tags db)) eqn:F; simpl.
  - apply only_new_tags_refl.
  - split; [reflexivity|]. eexists. split; [reflexivity|].
    intros t [<- | []]. simpl. split; [reflexivity|]. split; [exact Hg|].
    unfold has_tag. rewrite find_existsb, F. reflexivity.
Qed.

(** ** A second run finds the tags of the first *)

Lemma tags_prefix_refl d : tags_prefix d d.
Proof. exists []. rewrite app_nil_r. reflexivity. Qed.

Lemma tags_prefix_trans a b c : tags_prefix a b -> tags_prefix b c -> tags_prefix a c.
Proof.
  intros [l Hl] [l' Hl']. exists (l ++ l'). rewrite Hl', Hl, app_assoc. reflexivity.
Qed.

Lemma grows_tags_prefix a b : grows a b -> tags_prefix a b.
Proof. intros [_ H]. exact H. Qed.

Lemma replays_lift A (o : outcome A) (Post : A -> Prop) :
  (forall a, o = Ok a -> Post a) -> replays (lift o) Post.
Proof.
  intros H db o' d E. unfold lift in *. inversion E; subst.
  split; [apply grows_refl|]. split; [exact H | reflexivity].
Qed.

Lemma replays_bind A B (m : M A) (k : A -> M B) PostA PostB :
  replays m PostA -> (forall a, PostA a -> replays (k a) PostB) ->
  replays (bind m k) PostB.
Proof.
  intros Hm Hk db o d E. unfold bind in E.
  destruct (m db) as [oa da] eqn:Em. destruct (Hm _ _ _ Em) as (Hg & HA & Hr).
  destruct oa as [a | e |].
  - destruct (Hk a (HA a eq_refl) _ _ _ E) as (Hg' & HB & Hr').
    split; [eapply grows_trans; eauto|]. split; [exact HB|].
    intros d2 Hd2. unfold bind.
    rewrite (Hr d2 (tags_prefix_trans _ _ _ (grows_tags_prefix _ _ Hg') Hd2)).
    apply Hr'. exact Hd2.
  - inversion E; subst. split; [exact Hg|]. split; [discriminate|].
    intros d2 Hd2. unfold bind. rewrite (Hr d2 Hd2). reflexivity.
  - inversion E; subst. split; [exact Hg|]. split; [discriminate|].
    intros d2 Hd2. unfold bind. rewrite (Hr d2 Hd2). reflexivity.
Qed.

Lemma get_or_create_found course g db t c d :
  get_or_create course g db = (Ok (t, c), d) ->
  grows db d /\ find (tag_matches course g) (participation_tags d) = Some t.
Proof.
  unfold get_or_create.
  destruct (find (tag_matches course g) (participation_tags db)) as [t0|] eqn:F.
  - intros E. inversion E; subst. split; [apply grows_refl | exact F].
  - intros E. inversion E; subst. simpl. split; [split; simpl; eauto|].
    rewrite find_app, F. simpl. unfold tag_matches. simpl.
    rewrite Nat.eqb_refl, String.eqb_refl. reflexivity.
Qed.

Lemma get_or_create_again course g d2 t :
  find (tag_matches course g) (participation_tags d2) = Some t ->
  get_or_create course g d2 = (Ok (t, false), d2).
Proof. intros F. unfold get_or_create. rewrite F. reflexivity. Qed.

Lemma find_prefix course g d d2 t :
  find (tag_matches course g) (participation_tags d) = Some t ->
  tags_prefix d d2 ->
  find (tag_matches course g) (participation_tags d2) = Some t.
Proof. intros F [l Hl]. rewrite Hl, find_app, F. reflexivity. Qed.

Lemma replays_tag course B g (k : ParticipationTag -> M B) Post :
  (forall t, replays (k t) Post) ->
  replays (bind (get_or_create course g) (fun x => let (ptag, _) := x in k ptag)) Post.
Proof.
  intros Hk db o d E. unfold bind in E.
  destruct (get_or_create_spec course g db) as (t & c & da & Eg & _).
  rewrite Eg in E. destruct (get_or_create_found _ _ _ _ _ _ Eg) as [Hg F].
  destruct (Hk t _ _ _ E) as (Hg' & HB & Hr).
  split; [eapply grows_trans; eauto|]. split; [exact HB|].
  intros d2 Hd2. unfold bind.
  rewrite (get_or_create_again course g d2 t).
  - apply Hr. exact Hd2.
  - apply (find_prefix _ _ da); [exact F|].
    apply (tags_prefix_trans _ d); [apply grows_tags_prefix; exact Hg' | exact Hd2].
Qed.

Lemma replays_try A (m : M A) (h : exn -> M A) (Post Post' : A -> Prop) :
  replays m Post -> (forall e, replays (h e) Post') ->
  (forall a, Post a -> Post' a) -> replays (try_except m h) Post'.
Proof.
  intros Hm Hh Himp db o d E. unfold try_except in E.
  destruct (m db) as [oa da] eqn:Em. destruct (Hm _ _ _ Em) as (Hg & HA & Hr).
  destruct oa as [a | e |].
  - inversion E; subst. split; [exact Hg|].
    split; [intros a' E'; inversion E'; subst; auto|].
    intros d2 Hd2. unfold try_except. rewrite (Hr d2 Hd2). reflexivity.
  - destruct (Hh e _ _ _ E) as (Hg' & HB & Hr').
    split; [eapply grows_trans; eauto|]. split; [exact HB|].
    intros d2 Hd2. unfold try_except.
    rewrite (Hr d2 (tags_prefix_trans _ _ _ (grows_tags_prefix _ _ Hg') Hd2)).
    apply Hr'. exact Hd2.
  - inversion E; subst. split; [exact Hg|]. split; [discriminate|].
    intros d2 Hd2. unfold try_except. rewrite (Hr d2 Hd2). reflexivity.
Qed.

Lemma parse_query_replays course s : replays (parse_query course s) (fun _ => True).
Proof.
  apply (walk_parse_query course (fun _ => True) (fun A => replays)
           replays_lift replays_bind
           (fun B g k Post _ => replays_tag course B g k Post) s).
  auto.
Qed.

Lemma query_lines_replays course lines pq :
  replays (query_lines course lines pq) (fun _ => True).
Proof.
  apply (walk_query_lines course (fun _ => True) (fun A => replays)
           replays_lift replays_bind
           (fun B g k Post _ => replays_tag course B g k Post) replays_try lines).
  auto.
Qed.

(** ** Bulk operations on the selected rows *)

Lemma for_each_update f l : forall db,
  (forall r, part_pk (f r) = part_pk r) -> (forall r, f (f r) = f r) ->
  for_each l (fun p => update_participation (part_pk p) f) db = (Ok tt, bulk f l db).
Proof.
  induction l as [|x l IH]; intros db Hpk Hid.
  - unfold bulk. simpl. rewrite map_id. destruct db; reflexivity.
  - cbn [for_each]. unfold bind. unfold update_participation at 1.
    rewrite IH by assumption. unfold bulk. simpl. rewrite map_map. do 2 f_equal.
    apply map_ext. intros r. destruct (part_pk r =? part_pk x) eqn:E; simpl.
    + rewrite Hpk, Hid. destruct (existsb _ _); reflexivity.
    + reflexivity.
Qed.

Lemma with_status_pk st r : part_pk (with_status st r) = part_pk r.
Proof. reflexivity. Qed.

Lemma with_status_twice st r : with_status st (with_status st r) = with_status st r.
Proof. reflexivity. Qed.

Lemma add_tag_pk ptag r : part_pk (add_tag ptag r) = part_pk r.
Proof. unfold add_tag. destruct (existsb _ _); reflexivity. Qed.

Lemma add_tag_has ptag r : existsb (Nat.eqb (tag_pk ptag)) (part_tags (add_tag ptag r)) = true.
Proof.
  unfold add_tag. destruct (existsb _ (part_tags r)) eqn:E; [exact E|].
  simpl. rewrite existsb_app. simpl. rewrite Nat.eqb_refl. apply orb_true_iff.
  right. reflexivity.
Qed.

Lemma add_tag_twice ptag r : add_tag ptag (add_tag ptag r) = add_tag ptag r.
Proof. unfold add_tag at 1. rewrite add_tag_has. reflexivity. Qed.

Lemma without_tag_pk ptag r : part_pk (without_tag ptag r) = part_pk r.
Proof. reflexivity. Qed.

Lemma filter_twice {A} (f : A -> bool) l : filter f (filter f l) = filter f l.
Proof.
  induction l as [|x l IH]; simpl; [reflexivity|].
  destruct (f x) eqn:E; simpl; [rewrite E, IH|]; auto.
Qed.

Lemma without_tag_twice ptag r :
  without_tag ptag (without_tag ptag r) = without_tag ptag r.
Proof. unfold without_tag, with_tags. simpl. rewrite filter_twice. reflexivity. Qed.

Lemma same_key_same_row (l : list Participation) x r :
  NoDup (map part_pk l) -> In x l -> In r l -> part_pk x = part_pk r -> x = r.
Proof.
  induction l as [|y l IH]; intros Hnd Hx Hr E; [destruct Hx|].
  simpl in Hnd. inversion Hnd as [|? ? Hnot Hnd']; subst.
  destruct Hx as [<- | Hx], Hr as [<- | Hr]; auto.
  - exfalso. apply Hnot. rewrite E. apply in_map. exact Hr.
  - exfalso. apply Hnot. rewrite <- E. apply in_map. exact Hx.
Qed.

Lemma selected_same course q d d' :
  participations d = participations d' -> selected course q d = selected course q d'.
Proof. unfold selected. intros ->. reflexivity. Qed.

Lemma selected_keys course q d r :
  NoDup (map part_pk (participations d)) -> In r (participations d) ->
  existsb (Nat.eqb (part_pk r)) (map part_pk (selected course q d))
  = (part_course r =? course) && matches q r.
Proof.
  intros Hnd Hr.
  destruct (existsb _ _) eqn:E.
  - apply existsb_exists in E. destruct E as [k [Hk Ek]].
    apply Nat.eqb_eq in Ek. apply in_map_iff in Hk. destruct Hk as [x [Hx Hin]].
    apply In_selected in Hin. destruct Hin as (Hin & Hc & Hm).
    assert (x = r) by (apply (same_key_same_row _ _ _ Hnd Hin Hr); congruence).
    subst x. rewrite Hc, Nat.eqb_refl, Hm. reflexivity.
  - destruct ((part_course r =? course) && matches q r) eqn:S; [|reflexivity].
    apply andb_prop in S. destruct S as [Hc Hm]. apply Nat.eqb_eq in Hc.
    assert (Hin : In r (selected course q d)) by (apply In_selected; auto).
    assert (Ex : existsb (Nat.eqb (part_pk r)) (map part_pk (selected course q d)) = true).
    { apply existsb_exists. exists (part_pk r). split; [apply in_map; exact Hin|].
      apply Nat.eqb_refl. }
    congruence.
Qed.

Lemma bulk_selected course q f d :
  NoDup (map part_pk (participations d)) ->
  bulk f (selected course q d) d
  = {| participation_tags := participation_tags d;
       participations := on_selected course q f (participations d) |}.
Proof.
  intros Hnd. unfold bulk, on_selected. f_equal. apply map_ext_in.
  intros r Hr. rewrite (selected_keys _ _ _ _ Hnd Hr). reflexivity.
Qed.

Lemma filter_participations_selected course q db :
  filter_participations course q db = (Ok (selected course q db), db).
Proof. reflexivity. Qed.

(** The view, once its lines have been compiled. *)
Lemma query_participations_compiled course cd db q d :
  query_lines course (numbered_lines cd) None db = (Ok (inl (Some q)), d) ->
  apply cd = true ->
  query_participations course cd db =
  match op cd with
  | apply_tag =>
      match get_or_create course (tag_field cd) d with
      | (Ok (ptag, _), d') =>
          (Ok {| messages := [INFO_successful (List.length (selected course q d))];
                 result := Some (selected course q d) |},
           bulk (add_tag ptag) (selected course q d) d')
      | (Raise e, d') => (Raise e, d')
      | (OutOfFuel, d') => (OutOfFuel, d')
      end
  | remove_tag =>
      match get_or_create course (tag_field cd) d with
      | (Ok (ptag, _), d') =>
          (Ok {| messages := [INFO_successful (List.length (selected course q d))];
                 result := Some (selected course q d) |},
           bulk (without_tag ptag) (selected course q d) d')
      | (Raise e, d') => (Raise e, d')
      | (OutOfFuel, d') => (OutOfFuel, d')
      end
  | drop =>
      (Ok {| messages := [INFO_successful (List.length (selected course q d))];
             result := Some (map (with_status dropped) (selected course q d)) |},
       bulk (with_status dropped) (selected course q d) d)
  end.
Proof.
  intros L Ha. unfold query_participations, numbered_lines in *.
  unfold bind at 1. rewrite L. cbv iota beta.
  unfold bind at 1. rewrite filter_participations_selected. cbv iota beta.
  rewrite Ha. destruct (op cd).
  - unfold bind at 1. unfold bind at 1.
    destruct (get_or_create course (tag_field cd) d) as [[[ptag c]|e|] d']; try reflexivity.
    unfold bind at 1. unfold tags_add.
    change (fun p : Participation => update_participation (part_pk p) ?f)
      with (fun p : Participation => update_participation (part_pk p) (add_tag ptag)).
    rewrite (for_each_update (add_tag ptag)) by (intros; auto using add_tag_pk, add_tag_twice).
    unfold ret. simpl. rewrite length_map || idtac. reflexivity.
  - unfold bind at 1. unfold bind at 1.
    destruct (get_or_create course (tag_field cd) d) as [[[ptag c]|e|] d']; try reflexivity.
    unfold bind at 1. unfold tags_remove.
    change (fun p : Participation => update_participation (part_pk p) ?f)
      with (fun p : Participation => update_participation (part_pk p) (without_tag ptag)).
    rewrite (for_each_update (without_tag ptag))
      by (intros; auto using without_tag_pk, without_tag_twice).
    unfold ret. simpl. reflexivity.
  - unfold bind at 1. unfold bind at 1. unfold save_dropped.
    rewrite (for_each_update (with_status dropped)) by reflexivity.
    unfold ret. simpl. rewrite length_map. reflexivity.
Qed.

(** ** Well-formed stores *)

Lemma query_participations_store course cd db o d :
  query_lines course (numbered_lines cd) None db = (o, d) ->
  (forall q, o = Ok (inl (Some q)) -> apply cd = false) ->
  snd (query_participations course cd db) = d.
Proof.
  intros L Hq. unfold query_participations, numbered_lines in *.
  unfold bind at 1. rewrite L.
  destruct o as [[[q|] | [lineno e]] | e |]; try reflexivity.
  rewrite (Hq q eq_refl). reflexivity.
Qed.

Lemma NoDup_snoc {A} (l : list A) x : NoDup l -> ~ In x l -> NoDup (l ++ [x]).
Proof.
  induction l as [|y l IH]; intros Hn Hx; simpl.
  - constructor; [intros [] | constructor].
  - inversion Hn; subst. constructor.
    + intros H. apply in_app_or in H. destruct H as [H | [-> | []]]; [auto|].
      apply Hx. left. reflexivity.
    + apply IH; [assumption|]. intros H. apply Hx. right. exact H.
Qed.

Lemma get_or_create_well_formed course g db :
  well_formed db -> well_formed (snd (get_or_create course g db)).
Proof.
  intros (Hn & Hu & Hp & Hk). unfold get_or_create.
  destruct (find (tag_matches course g) (participation_tags db)) as [t|] eqn:F; simpl;
    [repeat split; assumption|].
  assert (Hnone : forall t, In t (participation_tags db) ->
                            tag_course t = course -> tag_name t = g -> False).
  { intros t Hin Hc Hg. apply (find_none _ _ F) in Hin.
    unfold tag_matches in Hin. rewrite Hc, Hg, Nat.eqb_refl, String.eqb_refl in Hin.
    discriminate. }
  split; [|split; [|split]]; simpl.
  - unfold pks. rewrite map_app. simpl.
    apply NoDup_snoc; [exact Hn | apply next_pk_new].
  - intros t1 t2 H1 H2 Hc Hg.
    apply in_app_or in H1. apply in_app_or in H2.
    destruct H1 as [H1 | [<- | []]], H2 as [H2 | [<- | []]]; auto; simpl in *.
    + exfalso. eapply Hnone; eauto.
    + exfalso. eapply Hnone; eauto.
  - exact Hp.
  - intros p Hin v Hv. simpl in *. unfold pks. rewrite map_app. apply in_or_app.
    left. apply (Hk p Hin v Hv).
Qed.

Lemma bulk_well_formed f l db :
  (forall r, part_pk (f r) = part_pk r) ->
  (forall r v, In v (part_tags (f r)) ->
     In v (part_tags r) \/ In v (pks (participation_tags db))) ->
  well_formed db -> well_formed (bulk f l db).
Proof.
  intros Hpk Ht (Hn & Hu & Hp & Hk). unfold bulk.
  split; [exact Hn|]. split; [exact Hu|]. split; simpl.
  - rewrite map_map.
    rewrite (map_ext _ part_pk); [exact Hp|].
    intros r. destruct (existsb _ _); [apply Hpk | reflexivity].
  - intros p Hin v Hv. simpl in *. apply in_map_iff in Hin.
    destruct Hin as [r [<- Hr]].
    destruct (existsb _ _); [|apply (Hk r Hr v Hv)].
    destruct (Ht r v Hv) as [H | H]; [apply (Hk r Hr v H) | exact H].
Qed.

Lemma add_tag_tags ptag r v :
  In v (part_tags (add_tag ptag r)) -> In v (part_tags r) \/ v = tag_pk ptag.
Proof.
  unfold add_tag. destruct (existsb _ _); [auto|]. simpl. intros H.
  apply in_app_or in H. destruct H as [H | [<- | []]]; auto.
Qed.

Lemma without_tag_tags ptag r v :
  In v (part_tags (without_tag ptag r)) -> In v (part_tags r).
Proof. unfold without_tag. simpl. intros H. apply filter_In in H. tauto. Qed.

Lemma query_lines_well_formed course lines pq db :
  well_formed db -> well_formed (snd (query_lines course lines pq db)).
Proof.
  apply (query_lines_frames course (fun _ => True)
           (fun a b => well_formed a -> well_formed b)); auto.
  intros g d _. apply get_or_create_well_formed.
Qed.

Lemma query_participations_well_formed course cd db :
  well_formed db -> well_formed (snd (query_participations course cd db)).
Proof.
  intros Hwf.
  destruct (query_lines course (numbered_lines cd) None db) as [o d] eqn:L.
  assert (Hd : well_formed d).
  { pose proof (query_lines_well_formed course (numbered_lines cd) None db Hwf) as H.
    rewrite L in H. exact H. }
  destruct (apply cd) eqn:Ha.
  2:{ rewrite (query_participations_store _ _ _ _ _ L); auto. }
  destruct o as [[[q|] | [lineno e]] | e |];
    try (rewrite (query_participations_store _ _ _ _ _ L); [exact Hd | discriminate]).
  rewrite (query_participations_compiled _ _ _ _ _ L Ha).
  destruct (op cd).
  - pose proof (get_or_create_well_formed course (tag_field cd) d Hd) as Hd'.
    destruct (get_or_create_spec course (tag_field cd) d)
      as (ptag & c & d' & E & _ & _ & _ & _ & Hin & _).
    rewrite E in *. simpl in *. apply bulk_well_formed; auto using add_tag_pk.
    intros r v Hv. apply add_tag_tags in Hv. destruct Hv as [Hv | ->]; [auto|].
    right. apply in_map. exact Hin.
  - pose proof (get_or_create_well_formed course (tag_field cd) d Hd) as Hd'.
    destruct (get_or_create_spec course (tag_field cd) d)
      as (ptag & c & d' & E & _).
    rewrite E in *. simpl in *. apply bulk_well_formed; auto using without_tag_pk.
    intros r v Hv. left. apply (without_tag_tags _ _ _ Hv).
  - simpl. apply bulk_well_formed; auto.
Qed.

(** ** The same submission a second time *)

Lemma bulk_selected_after course q f d d' :
  participations d' = participations d ->
  NoDup (map part_pk (participations d)) ->
  bulk f (selected course q d) d'
  = {| participation_tags := participation_tags d';
       participations := on_selected course q f (participations d) |}.
Proof.
  intros Hp Hnd. unfold bulk, on_selected. rewrite Hp. f_equal. apply map_ext_in.
  intros r Hr. rewrite (selected_keys _ _ _ _ Hnd Hr). reflexivity.
Qed.

Lemma on_selected_twice course q f l :
  (forall r, f (f r) = f r) ->
  on_selected course q f (on_selected course q f l) = on_selected course q f l.
Proof.
  intros Hid. unfold on_selected. rewrite map_map. apply map_ext. intros r.
  destruct ((part_course r =? course) && matches q r) eqn:E.
  - rewrite Hid.
    destruct ((part_course (f r) =? course) && matches q (f r)); reflexivity.
  - rewrite E. reflexivity.
Qed.

Lemma on_selected_keys course q f l :
  (forall r, part_pk (f r) = part_pk r) ->
  map part_pk (on_selected course q f l) = map part_pk l.
Proof.
  intros Hpk. unfold on_selected. rewrite map_map. apply map_ext. intros r.
  destruct ((part_course r =? course) && matches q r); [apply Hpk | reflexivity].
Qed.

Lemma bulk_again course q f d d' :
  participations d' = participations d ->
  NoDup (map part_pk (participations d)) ->
  (forall r, part_pk (f r) = part_pk r) -> (forall r, f (f r) = f r) ->
  bulk f (selected course q (bulk f (selected course q d) d'))
         (bulk f (selected course q d) d')
  = bulk f (selected course q d) d'.
Proof.
  intros Hp Hnd Hpk Hid.
  rewrite (bulk_selected_after _ _ _ _ _ Hp Hnd).
  rewrite bulk_selected.
  - simpl. rewrite on_selected_twice by exact Hid. reflexivity.
  - simpl. rewrite on_selected_keys by exact Hpk. exact Hnd.
Qed.

Lemma query_participations_twice course cd db :
  NoDup (map part_pk (participations db)) ->
  snd (query_participations course cd (snd (query_participations course cd db)))
  = snd (query_participations course cd db).
Proof.
  intros Hnd.
  destruct (query_lines course (numbered_lines cd) None db) as [o d] eqn:L.
  destruct (query_lines_replays course (numbered_lines cd) None _ _ _ L)
    as ([Hp _] & _ & Hr).
  rewrite <- Hp in Hnd.
  assert (Hsame : (forall q, o = Ok (inl (Some q)) -> apply cd = false) ->
            snd (query_participations course cd
                   (snd (query_participations course cd db)))
            = snd (query_participations course cd db)).
  { intros Hq. rewrite (query_participations_store _ _ _ _ _ L Hq).
    apply (query_participations_store _ _ _ o); [|exact Hq].
    apply Hr. apply tags_prefix_refl. }
  destruct (apply cd) eqn:Ha; [|apply Hsame; reflexivity].
  destruct o as [[[q|] | [lineno e]] | e |]; try (apply Hsame; discriminate).
  clear Hsame. rewrite (query_participations_compiled _ _ _ _ _ L Ha).
  assert (Hagain : forall f d',
            grows d d' ->
            (forall r, part_pk (f r) = part_pk r) -> (forall r, f (f r) = f r) ->
            query_lines course (numbered_lines cd) None
              (bulk f (selected course q d) d')
            = (Ok (inl (Some q)), bulk f (selected course q d) d')).
  { intros f d' Hg _ _. apply Hr. apply grows_tags_prefix in Hg. exact Hg. }
  destruct (op cd) eqn:Eop.
  - destruct (get_or_create_spec course (tag_field cd) d) as (ptag & c & d' & E & Hg & _).
    rewrite E. simpl snd.
    rewrite (query_participations_compiled _ _ _ q _
               (Hagain (add_tag ptag) d' Hg (add_tag_pk ptag) (add_tag_twice ptag)) Ha).
    rewrite Eop.
    destruct (get_or_create_found _ _ _ _ _ _ E) as [_ F].
    rewrite (get_or_create_again course (tag_field cd) _ ptag) by exact F.
    simpl snd. destruct Hg as [Hp' _].
    apply bulk_again; auto using add_tag_pk, add_tag_twice.
  - destruct (get_or_create_spec course (tag_field cd) d) as (ptag & c & d' & E & Hg & _).
    rewrite E. simpl snd.
    rewrite (query_participations_compiled _ _ _ q _
               (Hagain (without_tag ptag) d' Hg (without_tag_pk ptag)
                  (without_tag_twice ptag)) Ha).
    rewrite Eop.
    destruct (get_or_create_found _ _ _ _ _ _ E) as [_ F].
    rewrite (get_or_create_again course (tag_field cd) _ ptag) by exact F.
    simpl snd. destruct Hg as [Hp' _].
    apply bulk_again; auto using without_tag_pk, without_tag_twice.
  - simpl snd.
    rewrite (query_participations_compiled _ _ _ q _
               (Hagain (with_status dropped) d (grows_refl d)
                  (with_status_pk dropped) (with_status_twice dropped)) Ha).
    rewrite Eop. simpl snd. apply bulk_again; auto.
Qed.

(** ** Enrollment decisions *)

Lemma decide_enrollment_loop_run approved queryset : forall count db,
  decide_enrollment_loop approved queryset count db
  = (Ok (count + List.length (pending queryset),
         map (fun p => send_enrollment_decision
                         (with_status (decided approved) p) approved)
             (pending queryset)),
     bulk (with_status (decided approved)) (pending queryset) db).
Proof.
  induction queryset as [|p rest IH]; intros count db.
  - simpl. unfold ret, bulk. simpl. rewrite map_id, Nat.add_0_r.
    destruct db; reflexivity.
  - cbn [decide_enrollment_loop pending filter]. fold (pending rest).
    change (String.eqb (part_status p) requested) with (is_requested p).
    destruct (is_requested p) eqn:E; cbn [negb].
    + unfold bind at 1. unfold save_status, update_participation at 1.
      unfold bind at 1. rewrite IH. unfold ret. cbn [List.length map].
      f_equal.
      * f_equal. replace (count + 1 + List.length (pending rest))
          with (count + S (List.length (pending rest))) by lia. reflexivity.
      * unfold bulk. simpl. rewrite map_map. f_equal. apply map_ext. intros r.
        destruct (part_pk r =? part_pk p); simpl; [|reflexivity].
        destruct (existsb _ _); reflexivity.
    + apply IH.
Qed.

Lemma pending_keys queryset db r :
  NoDup (map part_pk (participations db)) ->
  (forall p, In p queryset -> In p (participations db)) ->
  In r (participations db) ->
  existsb (Nat.eqb (part_pk r)) (map part_pk (pending queryset))
  = existsb (Nat.eqb (part_pk r)) (map part_pk queryset) && is_requested r.
Proof.
  intros Hnd Hsub Hr.
  destruct (existsb _ (map part_pk (pending queryset))) eqn:E.
  - apply existsb_exists in E. destruct E as [k [Hk Ek]].
    apply Nat.eqb_eq in Ek. apply in_map_iff in Hk. destruct Hk as [x [Hx Hin]].
    unfold pending in Hin. apply filter_In in Hin. destruct Hin as [Hin Hq].
    assert (x = r) by (apply (same_key_same_row _ _ _ Hnd (Hsub _ Hin) Hr); congruence).
    subst x. rewrite Hq, andb_true_r. symmetry. apply existsb_exists.
    exists (part_pk r). split; [apply in_map; exact Hin | apply Nat.eqb_refl].
  - destruct (existsb _ (map part_pk queryset)) eqn:E'; [|reflexivity].
    destruct (is_requested r) eqn:Hq; [|reflexivity].
    apply existsb_exists in E'. destruct E' as [k [Hk Ek]].
    apply Nat.eqb_eq in Ek. apply in_map_iff in Hk. destruct Hk as [x [Hx Hin]].
    assert (x = r) by (apply (same_key_same_row _ _ _ Hnd (Hsub _ Hin) Hr); congruence).
    subst x.
    assert (Ex : existsb (Nat.eqb (part_pk r)) (map part_pk (pending queryset)) = true).
    { apply existsb_exists. exists (part_pk r). split; [|apply Nat.eqb_refl].
      apply in_map. unfold pending. apply filter_In. auto. }
    congruence.
Qed.

Lemma decided_not_requested approved r :
  is_requested (with_status (decided approved) r) = false.
Proof. destruct approved; reflexivity. Qed.

Lemma pending_refreshed approved queryset db :
  NoDup (map part_pk (participations db)) ->
  (forall p, In p queryset -> In p (participations db)) ->
  pending (refreshed queryset
             (bulk (with_status (decided approved)) (pending queryset) db)) = [].
Proof.
  intros Hnd Hsub. unfold pending, refreshed, bulk. cbn [participations].
  assert (H : forall l, (forall r, In r l -> In r (participations db)) ->
            filter is_requested
              (filter (fun r => existsb (Nat.eqb (part_pk r)) (map part_pk queryset))
                 (map (fun r =>
                         if existsb (Nat.eqb (part_pk r))
                              (map part_pk (filter is_requested queryset))
                         then with_status (decided approved) r else r) l)) = []).
  { induction l as [|r l IH]; intros Hl; [reflexivity|]. cbn [map filter].
    assert (Hr : In r (participations db)) by (apply Hl; left; reflexivity).
    pose proof (pending_keys queryset db r Hnd Hsub Hr) as K. unfold pending in K.
    rewrite K.
    destruct (existsb (Nat.eqb (part_pk r)) (map part_pk queryset)) eqn:E;
      destruct (is_requested r) eqn:Q; cbn [andb].
    - rewrite with_status_pk, E. cbn [filter].
      rewrite decided_not_requested. apply IH. intros x Hx. apply Hl. right. exact Hx.
    - rewrite E. cbn [filter]. rewrite Q. apply IH. intros x Hx. apply Hl. right. exact Hx.
    - rewrite E. apply IH. intros x Hx. apply Hl. right. exact Hx.
    - rewrite E. apply IH. intros x Hx. apply Hl. right. exact Hx. }
  apply H. auto.
Qed.

(** ** Where the lexer fails *)

Lemma lex_at_raises_within lex_table s : forall i k e,
  lex_at lex_table s i k = Raise e ->
  exists j, e = InvalidTokenError j /\ i <= j < i + String.length s.
Proof.
  induction s as [|c s IH]; intros i k e; simpl; [discriminate|].
  destruct k.
  - destruct (first_rule lex_table (String c s)) as [[name m]|].
    + destruct (lex_at lex_table s (S i) (m_end m - 1)) eqn:L'; try discriminate.
      intros H. inversion H; subst. destruct (IH _ _ _ L') as [j [E Hj]].
      exists j. split; [exact E | lia].
    + intros H. inversion H; subst. exists i. split; [reflexivity | lia].
  - intros H. destruct (IH _ _ _ H) as [j [E Hj]]. exists j. split; [exact E | lia].
Qed.



(** ** What the view leaves alone *)

Lemma combine_seq_snd {A} (l : list A) : forall n,
  map snd (combine (seq n (List.length l)) l) = l.
Proof. induction l as [|x l IH]; intros n; simpl; [reflexivity|]. rewrite IH. reflexivity. Qed.

Lemma numbered_lines_snd cd : map snd (numbered_lines cd) = split_lines (queries cd).
Proof. apply combine_seq_snd. Qed.

Lemma same_but_status_and_tags_refl r : same_but_status_and_tags r r.
Proof. destruct r; reflexivity. Qed.

Lemma bulk_rows course q f d d' :
  participations d' = participations d ->
  NoDup (map part_pk (participations d)) ->
  (forall r, same_but_status_and_tags r (f r)) ->
  Forall2 (fun r r' => same_but_status_and_tags r r' /\
                       (part_course r <> course -> r' = r))
    (participations d)
    (participations (bulk f (selected course q d) d')).
Proof.
  intros Hp Hnd Hf. rewrite (bulk_selected_after _ _ _ _ _ Hp Hnd). simpl.
  unfold on_selected. clear Hnd Hp.
  induction (participations d) as [|r l IH]; simpl; constructor; [|exact IH].
  destruct (part_course r =? course) eqn:E; simpl.
  - destruct (matches q r).
    + split; [apply Hf|]. apply Nat.eqb_eq in E. congruence.
    + split; [apply same_but_status_and_tags_refl | reflexivity].
  - split; [apply same_but_status_and_tags_refl | reflexivity].
Qed.

Lemma same_rows l :
  Forall2 (fun r r' => same_but_status_and_tags r r' /\ r' = r) l l.
Proof.
  induction l; constructor; auto. split; [apply same_but_status_and_tags_refl | reflexivity].
Qed.

Lemma with_status_same_but st r : same_but_status_and_tags r (with_status st r).
Proof. destruct r; reflexivity. Qed.

Lemma add_tag_same_but ptag r : same_but_status_and_tags r (add_tag ptag r).
Proof. unfold add_tag. destruct (existsb _ _); destruct r; reflexivity. Qed.

Lemma without_tag_same_but ptag r : same_but_status_and_tags r (without_tag ptag r).
Proof. destruct r; reflexivity. Qed.

Lemma query_lines_only_new_tags course cd db :
  only_new_tags course (names_of cd) db
    (snd (query_lines course (numbered_lines cd) None db)).
Proof.
  apply (query_lines_frames course (names_of cd) (only_new_tags course (names_of cd))).
  - apply only_new_tags_refl.
  - apply only_new_tags_trans.
  - intros g d Hg. apply only_new_tags_get_or_create. exact Hg.
  - intros g Hg. left. rewrite numbered_lines_snd in Hg. exact Hg.
Qed.

(** ** The sample store *)

Lemma sample_database_keys : NoDup (map part_pk (participations sample_database)).
Proof.
  simpl. repeat constructor; simpl; intuition discriminate.
Qed.

Lemma sample_database_well_formed : well_formed sample_database.
Proof.
  split; [|split; [|split]].
  - simpl. repeat constructor; simpl; intuition.
  - simpl. intros t1 t2 [<- | []] [<- | []] _ _. reflexivity.
  - exact sample_database_keys.
  - exact sample_database_tags_known.
Qed.

(** ** The parser reads the grammar *)

Lemma parse_terminal_ok course ps db q ps' db' :
  parse_terminal course ps db = (Ok (q, ps'), db') ->
  exists t, next_token ps = Some t /\ is_terminal_tag (tok_tag t) = true /\
            ps' = advance ps.
Proof.
  intros H. destruct (next_token ps) as [t|] eqn:E.
  - exists t. split; [reflexivity|].
    assert (Hend : is_at_end ps = false) by (eapply next_token_not_end; eauto).
    pose proof (parse_terminal_run course ps db Hend) as R.
    unfold run, parse_terminal_post in R. rewrite H in R. simpl in R.
    destruct R as (_ & -> & _). split; [|reflexivity].
    destruct (is_terminal_tag (tok_tag t)) eqn:T; [reflexivity|].
    exfalso. exact (parse_terminal_other course ps t E T _ _ _ H).
  - unfold parse_terminal, bind, lift, next_tag in H. rewrite E in H. discriminate.
Qed.

Lemma parse_terminal_one course ps t db q db' :
  next_token ps = Some t ->
  parse_terminal course ps db = (Ok (q, advance ps), db') ->
  parse_terminal course (one_token t) db = (Ok (q, advance (one_token t)), db').
Proof.
  intros E H.
  destruct (parse_terminal_like course ps (one_token t) t t (fun _ _ => True)
              E eq_refl (tok_like_refl t) I _ _ _ H) as [[q2 p2] [H2 [Hq _]]].
  simpl in Hq. subst q2.
  destruct (parse_terminal_ok _ _ _ _ _ _ H2) as (_ & _ & _ & ->). exact H2.
Qed.

Lemma parse_terminal_at course ps t db q p db' :
  next_token ps = Some t ->
  parse_terminal course (one_token t) db = (Ok (q, p), db') ->
  parse_terminal course ps db = (Ok (q, advance ps), db').
Proof.
  intros E H.
  destruct (parse_terminal_like course (one_token t) ps t t (fun _ _ => True)
              eq_refl E (tok_like_refl t) I _ _ _ H) as [[q2 p2] [H2 [Hq _]]].
  simpl in Hq. subst q2.
  destruct (parse_terminal_ok _ _ _ _ _ _ H2) as (_ & _ & _ & ->). exact H2.
Qed.

Lemma level_of_cases mp :
  ((mp <? _PREC_OR) = true /\ (mp <? _PREC_AND) = true /\ level_of mp = Disj) \/
  ((mp <? _PREC_OR) = false /\ (mp <? _PREC_AND) = true /\ level_of mp = Conj) \/
  ((mp <? _PREC_OR) = false /\ (mp <? _PREC_AND) = false /\ level_of mp = Primary).
Proof.
  unfold level_of, _PREC_OR, _PREC_AND.
  destruct (mp <? 10) eqn:A; destruct (mp <? 20) eqn:B; auto.
  apply Nat.ltb_lt in A. apply Nat.ltb_ge in B. lia.
Qed.

Lemma loop_inv_primary course mp toks db q rest db' :
  reads course Primary toks db q rest db' ->
  loop_inv course mp toks db q rest db'.
Proof.
  intros H. unfold loop_inv. destruct (level_of mp).
  - exact H.
  - apply R_primary. exact H.
  - split; [apply R_conj, R_primary; exact H | left; apply R_primary; exact H].
Qed.

Lemma loop_inv_reads course mp toks db q rest db' :
  loop_inv course mp toks db q rest db' ->
  reads course (level_of mp) toks db q rest db'.
Proof. unfold loop_inv. destruct (level_of mp); tauto. Qed.

Lemma stopped_nil mp : stopped mp [].
Proof. split; intros _; exact I. Qed.

Lemma tag_is_true a b : tag_is a b = true <-> a = b.
Proof. unfold tag_is. destruct (tag_eq_dec a b); split; congruence. Qed.

Lemma tag_is_false a b : tag_is a b = false <-> a <> b.
Proof. unfold tag_is. destruct (tag_eq_dec a b); split; congruence. Qed.

Lemma existsb_tag_is t l : existsb (tag_is t) l = true <-> In t l.
Proof.
  rewrite existsb_exists. split.
  - intros [x [Hx E]]. apply tag_is_true in E. subst. exact Hx.
  - intros H. exists t. split; [exact H | apply tag_is_true; reflexivity].
Qed.

Lemma bind_ok {A B} (m : M A) (k : A -> M B) db b d :
  bind m k db = (Ok b, d) ->
  exists a d1, m db = (Ok a, d1) /\ k a d1 = (Ok b, d).
Proof.
  unfold bind. destruct (m db) as [[a | e |] d1]; try discriminate. eauto.
Qed.

Lemma expect_not_end_ok ps db u d :
  expect_not_end ps db = (Ok u, d) -> is_at_end ps = false /\ d = db.
Proof.
  unfold expect_not_end. destruct (is_at_end ps); [discriminate|].
  unfold ret. intros H. inversion H. auto.
Qed.

Lemma expect_ok ps t db u d :
  expect ps t db = (Ok u, d) ->
  is_at_end ps = false /\ is_next ps t = true /\ d = db.
Proof.
  unfold expect. intros H. apply bind_ok in H. destruct H as (u1 & d1 & He & H).
  apply expect_not_end_ok in He. destruct He as [He ->].
  destruct (is_next ps t); [|discriminate]. unfold ret in H. inversion H. auto.
Qed.

Lemma inner_parse_sound course fuel :
  (forall ps mp db q ps' db',
      inner_parse fuel course ps mp db = (Ok (q, ps'), db') ->
      reads course (level_of mp) (ahead ps) db q (ahead ps') db' /\
      stopped mp (ahead ps')) /\
  (forall left ps mp db q ps' db' toks db0,
      inner_parse_loop fuel course left ps mp db = (Ok (q, ps'), db') ->
      loop_inv course mp toks db0 left (ahead ps) db ->
      reads course (level_of mp) toks db0 q (ahead ps') db' /\
      stopped mp (ahead ps')).
Proof.
  induction fuel as [|f [IHp IHl]].
  - split; intros; discriminate.
  - split.
    + intros ps mp db q ps' db' H. cbn [inner_parse] in H.
      apply bind_ok in H. destruct H as (u0 & d0 & He & H).
      apply expect_not_end_ok in He. destruct He as [End ->].
      destruct (is_at_end_false _ End) as [t [Ht _]].
      destruct (next_token_cons _ _ Ht) as [r Ea].
      assert (Eadv : ahead (advance ps) = r) by (rewrite ahead_advance, Ea; reflexivity).
      apply bind_ok in H. destruct H as ([q1 ps1] & d1 & Hprim & Hloop).
      apply (IHl _ _ _ _ _ _ _ (ahead ps) db) in Hloop; [exact Hloop|].
      apply loop_inv_primary. rewrite Ea.
      destruct (is_next ps _not) eqn:Enot; [|destruct (is_next ps _openpar) eqn:Epar].
      * apply bind_ok in Hprim. destruct Hprim as ([q2 ps2] & d2 & Hin & Hret).
        unfold ret in Hret. injection Hret as Hq Hp Hd. subst q1 ps1 d1.
        apply IHp in Hin. destruct Hin as [Hin _].
        rewrite Eadv in Hin. apply R_not; [|exact Hin].
        destruct (is_next_token _ _ Enot) as [t' [Ht' Htag]]. congruence.
      * apply bind_ok in Hprim. destruct Hprim as ([q2 ps2] & d2 & Hin & Hrest).
        apply bind_ok in Hrest. destruct Hrest as (u3 & d3 & Hexp & Hret).
        apply expect_ok in Hexp. destruct Hexp as (_ & Ecl & ->).
        unfold ret in Hret. injection Hret as Hq Hp Hd. subst q1 ps1 d1.
        apply IHp in Hin. destruct Hin as [Hin _].
        rewrite Eadv in Hin.
        destruct (is_next_token _ _ Ecl) as [c [Hc Hctag]].
        destruct (next_token_cons _ _ Hc) as [r2 Ea2].
        rewrite Ea2 in Hin. rewrite ahead_advance, Ea2. simpl tl.
        destruct (is_next_token _ _ Epar) as [t' [Ht' Htag]].
        apply (R_paren course t r db q2 c r2 d2); [congruence | exact Hin | exact Hctag].
      * destruct (parse_terminal_ok _ _ _ _ _ _ Hprim) as (t' & Ht' & _ & ->).
        rewrite Eadv.
        apply (R_terminal course t r db q1 (advance (one_token t)) d1).
        apply (parse_terminal_one course ps); assumption.
    + intros left ps mp db q ps' db' toks db0 H Hinv. cbn [inner_parse_loop] in H.
      destruct (is_at_end ps) eqn:End.
      { unfold ret in H. injection H as Hq Hp Hd. subst q ps' db'.
        split; [apply loop_inv_reads; exact Hinv|].
        apply is_at_end_ahead in End. rewrite End. apply stopped_nil. }
      destruct (is_at_end_false _ End) as [t [Ht _]].
      destruct (next_token_cons _ _ Ht) as [r Ea].
      assert (Eadv : ahead (advance ps) = r) by (rewrite ahead_advance, Ea; reflexivity).
      rewrite (bind_next_tag _ _ _ Ht) in H. rewrite Ea in Hinv.
      assert (Hconj : (mp <? _PREC_AND) = true ->
                tok_tag t = _and \/ In (tok_tag t) (_TERMINALS ++ [_not; _openpar]) ->
                reads course Conj toks db0 left (t :: r) db).
      { intros Hlt Hor. unfold loop_inv in Hinv.
        destruct (level_of_cases mp) as [(_ & _ & L) | [(_ & _ & L) | (_ & B & _)]];
          [| |congruence]; rewrite L in Hinv.
        - destruct Hinv as [_ [Hc | [Hna Hnl]]]; [exact Hc|]. tauto.
        - exact Hinv. }
      assert (Hnext : forall q2 ps2 d2,
                (mp <? _PREC_AND) = true ->
                reads course Conj toks db0 (QAnd left q2) (ahead ps2) d2 ->
                inner_parse_loop f course (QAnd left q2) ps2 mp d2 = (Ok (q, ps'), db') ->
                reads course (level_of mp) toks db0 q (ahead ps') db' /\
                stopped mp (ahead ps')).
      { intros q2 ps2 d2 Hlt Hr Hl.
        apply (IHl _ _ _ _ _ _ _ toks db0) in Hl; [exact Hl|].
        unfold loop_inv.
        destruct (level_of_cases mp) as [(_ & _ & L) | [(_ & _ & L) | (_ & B & _)]];
          [| |congruence]; rewrite L.
        - split; [apply R_conj; exact Hr | left; exact Hr].
        - exact Hr. }
      destruct (tag_is (tok_tag t) _and && (mp <? _PREC_AND)) eqn:Band.
      { apply andb_prop in Band. destruct Band as [Btag Blt]. apply tag_is_true in Btag.
        apply bind_ok in H. destruct H as ([q2 ps2] & d2 & Hop & Hl).
        apply IHp in Hop. destruct Hop as [Hop _]. rewrite Eadv in Hop.
        change (level_of _PREC_AND) with Primary in Hop.
        apply (Hnext q2 ps2 d2); [exact Blt | | exact Hl].
        apply (R_and course toks db0 left t r db q2 _ d2); auto. }
      destruct (tag_is (tok_tag t) _or && (mp <? _PREC_OR)) eqn:Bor.
      { apply andb_prop in Bor. destruct Bor as [Btag Blt]. apply tag_is_true in Btag.
        apply bind_ok in H. destruct H as ([q2 ps2] & d2 & Hop & Hl).
        apply IHp in Hop. destruct Hop as [Hop [Hstop _]]. rewrite Eadv in Hop.
        change (level_of _PREC_OR) with Conj in Hop.
        apply (IHl _ _ _ _ _ _ _ toks db0) in Hl; [exact Hl|].
        unfold loop_inv in *.
        destruct (level_of_cases mp) as [(_ & _ & L) | [(A & _ & _) | (A & _ & _)]];
          [|congruence|congruence].
        rewrite L in *. destruct Hinv as [Hd _]. split.
        - apply (R_or course toks db0 left t r db q2 _ d2); auto.
        - right. apply Hstop. unfold _PREC_OR, _PREC_AND. lia. }
      destruct (existsb (tag_is (tok_tag t)) (_TERMINALS ++ [_not; _openpar])
                && (mp <? _PREC_AND)) eqn:Bimp.
      { apply andb_prop in Bimp. destruct Bimp as [Btag Blt].
        apply existsb_tag_is in Btag.
        apply bind_ok in H. destruct H as ([q2 ps2] & d2 & Hop & Hl).
        apply IHp in Hop. destruct Hop as [Hop _]. rewrite Ea in Hop.
        change (level_of _PREC_AND) with Primary in Hop.
        apply (Hnext q2 ps2 d2); [exact Blt | | exact Hl].
        apply (R_implicit course toks db0 left t r db q2 _ d2); auto. }
      unfold ret in H. injection H as Hq Hp Hd. subst q ps' db'. rewrite Ea. split.
      { apply loop_inv_reads. exact Hinv. }
      split.
      * intros Hlt. apply Nat.ltb_lt in Hlt. rewrite Hlt in Band, Bimp.
        rewrite andb_true_r in Band, Bimp. unfold and_stop. split.
        -- apply tag_is_false. exact Band.
        -- intros Hin. apply existsb_tag_is in Hin. congruence.
      * intros Hlt. apply Nat.ltb_lt in Hlt. rewrite Hlt in Bor.
        rewrite andb_true_r in Bor. unfold or_stop. apply tag_is_false. exact Bor.
Qed.

(** ** The parser reads all of the grammar *)

Lemma loop_stops course f left ps mp db :
  stopped mp (ahead ps) ->
  inner_parse_loop (S f) course left ps mp db = (Ok (left, ps), db).
Proof.
  intros [Hand Hor]. cbn [inner_parse_loop].
  destruct (is_at_end ps) eqn:End; [reflexivity|].
  destruct (is_at_end_false _ End) as [t [Ht _]].
  destruct (next_token_cons _ _ Ht) as [r Ea]. rewrite Ea in *.
  rewrite (bind_next_tag _ _ _ Ht).
  assert (A : (tag_is (tok_tag t) _and && (mp <? _PREC_AND)) = false).
  { destruct (mp <? _PREC_AND) eqn:B; [|apply andb_false_r].
    apply Nat.ltb_lt in B. destruct (Hand B) as [Hn _].
    apply tag_is_false in Hn. rewrite Hn. reflexivity. }
  assert (O : (tag_is (tok_tag t) _or && (mp <? _PREC_OR)) = false).
  { destruct (mp <? _PREC_OR) eqn:B; [|apply andb_false_r].
    apply Nat.ltb_lt in B. specialize (Hor B). simpl in Hor.
    apply tag_is_false in Hor. rewrite Hor. reflexivity. }
  assert (P : (existsb (tag_is (tok_tag t)) (_TERMINALS ++ [_not; _openpar])
               && (mp <? _PREC_AND)) = false).
  { destruct (mp <? _PREC_AND) eqn:B; [|apply andb_false_r].
    apply Nat.ltb_lt in B. destruct (Hand B) as [_ Hn].
    destruct (existsb _ _) eqn:E; [|reflexivity].
    apply existsb_tag_is in E. contradiction. }
  rewrite A, O, P. reflexivity.
Qed.

Lemma is_next_tag ps t tg :
  next_token ps = Some t -> is_next ps tg = tag_is (tok_tag t) tg.
Proof. intros H. unfold is_next. rewrite H. reflexivity. Qed.

Lemma is_next_true ps t tg :
  next_token ps = Some t -> tok_tag t = tg -> is_next ps tg = true.
Proof. intros H E. rewrite (is_next_tag _ _ _ H). apply tag_is_true. exact E. Qed.

Lemma is_next_other ps t tg :
  next_token ps = Some t -> tok_tag t <> tg -> is_next ps tg = false.
Proof. intros H E. rewrite (is_next_tag _ _ _ H). apply tag_is_false. exact E. Qed.

Lemma inner_parse_at_not course f ps mp db t q ps1 db1 :
  next_token ps = Some t -> tok_tag t = _not ->
  inner_parse f course (advance ps) _PREC_NOT db = (Ok (q, ps1), db1) ->
  inner_parse (S f) course ps mp db = inner_parse_loop f course (QNot q) ps1 mp db1.
Proof.
  intros Ht Hn H. cbn [inner_parse]. unfold expect_not_end.
  rewrite (next_token_not_end _ _ Ht), (is_next_true _ _ _ Ht Hn).
  unfold bind, ret. rewrite H. reflexivity.
Qed.

Lemma inner_parse_at_openpar course f ps mp db t q ps1 db1 c :
  next_token ps = Some t -> tok_tag t = _openpar ->
  inner_parse f course (advance ps) 0 db = (Ok (q, ps1), db1) ->
  next_token ps1 = Some c -> tok_tag c = _closepar ->
  inner_parse (S f) course ps mp db
  = inner_parse_loop f course q (advance ps1) mp db1.
Proof.
  intros Ht Ho H Hc Hcl. cbn [inner_parse]. unfold expect_not_end at 1.
  rewrite (next_token_not_end _ _ Ht), (is_next_true _ _ _ Ht Ho).
  rewrite (is_next_other ps t _not Ht) by (rewrite Ho; discriminate).
  unfold bind, ret. rewrite H. unfold expect, expect_not_end, bind, ret.
  rewrite (next_token_not_end _ _ Hc), (is_next_true _ _ _ Hc Hcl). reflexivity.
Qed.

Lemma inner_parse_at_terminal course f ps mp db t q ps1 db1 :
  next_token ps = Some t ->
  parse_terminal course ps db = (Ok (q, ps1), db1) ->
  inner_parse (S f) course ps mp db = inner_parse_loop f course q ps1 mp db1.
Proof.
  intros Ht H. cbn [inner_parse]. unfold expect_not_end.
  rewrite (next_token_not_end _ _ Ht).
  destruct (parse_terminal_ok _ _ _ _ _ _ H) as (t' & Ht' & Hk & _).
  assert (t' = t) by congruence. subst t'.
  rewrite (is_next_other ps t _not Ht) by (intros E; rewrite E in Hk; discriminate).
  rewrite (is_next_other ps t _openpar Ht) by (intros E; rewrite E in Hk; discriminate).
  unfold bind, ret. rewrite H. reflexivity.
Qed.

Lemma loop_at_and course f left ps mp db t q2 ps2 db2 :
  next_token ps = Some t -> tok_tag t = _and -> mp < _PREC_AND ->
  inner_parse f course (advance ps) _PREC_AND db = (Ok (q2, ps2), db2) ->
  inner_parse_loop (S f) course left ps mp db
  = inner_parse_loop f course (QAnd left q2) ps2 mp db2.
Proof.
  intros Ht Ha Hmp H. cbn [inner_parse_loop].
  rewrite (next_token_not_end _ _ Ht), (bind_next_tag _ _ _ Ht).
  apply Nat.ltb_lt in Hmp. rewrite Hmp.
  assert (E : tag_is (tok_tag t) _and = true) by (apply tag_is_true; exact Ha).
  rewrite E. cbn [andb]. unfold bind. rewrite H. reflexivity.
Qed.

Lemma loop_at_or course f left ps mp db t q2 ps2 db2 :
  next_token ps = Some t -> tok_tag t = _or -> mp < _PREC_OR ->
  inner_parse f course (advance ps) _PREC_OR db = (Ok (q2, ps2), db2) ->
  inner_parse_loop (S f) course left ps mp db
  = inner_parse_loop f course (QOr left q2) ps2 mp db2.
Proof.
  intros Ht Ho Hmp H. cbn [inner_parse_loop].
  rewrite (next_token_not_end _ _ Ht), (bind_next_tag _ _ _ Ht).
  apply Nat.ltb_lt in Hmp. rewrite Hmp.
  assert (E : tag_is (tok_tag t) _or = true) by (apply tag_is_true; exact Ho).
  assert (E' : tag_is (tok_tag t) _and = false)
    by (apply tag_is_false; rewrite Ho; discriminate).
  rewrite E, E'. cbn [andb]. unfold bind. rewrite H. reflexivity.
Qed.

Lemma loop_at_primary course f left ps mp db t q2 ps2 db2 :
  next_token ps = Some t ->
  In (tok_tag t) (_TERMINALS ++ [_not; _openpar]) -> mp < _PREC_AND ->
  inner_parse f course ps _PREC_AND db = (Ok (q2, ps2), db2) ->
  inner_parse_loop (S f) course left ps mp db
  = inner_parse_loop f course (QAnd left q2) ps2 mp db2.
Proof.
  intros Ht Hin Hmp H. cbn [inner_parse_loop].
  rewrite (next_token_not_end _ _ Ht), (bind_next_tag _ _ _ Ht).
  apply Nat.ltb_lt in Hmp. rewrite Hmp.
  destruct (primary_start_tags _ Hin) as (Hex & Hna & Hno & _).
  rewrite Hna, Hno, Hex. cbn [andb]. unfold bind. rewrite H. reflexivity.
Qed.

Lemma and_stop_closepar c rest : tok_tag c = _closepar -> and_stop (c :: rest).
Proof.
  intros Hc. unfold and_stop. rewrite Hc. split; [discriminate|].
  simpl. intuition discriminate.
Qed.

Lemma and_stop_or o rest : tok_tag o = _or -> and_stop (o :: rest).
Proof.
  intros Ho. unfold and_stop. rewrite Ho. split; [discriminate|].
  simpl. intuition discriminate.
Qed.

Lemma reads_complete course lvl toks db q rest db' :
  reads course lvl toks db q rest db' ->
  forall ps, ahead ps = toks -> reaches_loop course lvl ps db q rest db'.
Proof.
  induction 1 as
    [ t rest db q p db' Hterm
    | n toks db q rest db' Hn Hr IH
    | o toks db q c rest db' Ho Hr IH Hc
    | toks db q rest db' Hr IH
    | toks db q1 a mid db1 q2 rest db2 Hl IHl Ha Hr IHr
    | toks db q1 t mid db1 q2 rest db2 Hl IHl Ht Hr IHr
    | toks db q rest db' Hr IH
    | toks db q1 o mid db1 q2 rest db2 Hl IHl Ho Hr IHr ];
    intros ps Ea.
  - (* a terminal *)
    destruct (ahead_cons _ _ _ Ea) as (Ht & End & Eadv).
    exists (advance ps), 1, 0. split; [exact Eadv|].
    intros f mp _ _.
    apply (inner_parse_at_terminal _ _ _ _ _ t); [exact Ht|].
    apply (parse_terminal_at _ _ _ _ _ _ _ Ht Hterm).
  - (* not *)
    destruct (ahead_cons _ _ _ Ea) as (Ht & End & Eadv).
    destruct (IH _ Eadv) as (ps1 & k & f0 & E1 & Hrun).
    exists ps1, 1, (k + S f0). split; [exact E1|].
    intros f mp Hf _.
    apply (inner_parse_at_not _ _ _ _ _ n); [exact Ht | exact Hn|].
    replace f with (k + (S (f - k - 1))) by lia.
    rewrite (Hrun _ _PREC_NOT) by (try lia; exact I).
    apply loop_stops. split; unfold _PREC_NOT, _PREC_AND, _PREC_OR; lia.
  - (* parentheses *)
    destruct (ahead_cons _ _ _ Ea) as (Ht & End & Eadv).
    destruct (IH _ Eadv) as (ps1 & k & f0 & E1 & Hrun).
    destruct (ahead_cons _ _ _ E1) as (Hc1 & End1 & Eadv1).
    exists (advance ps1), 1, (k + S f0). split; [exact Eadv1|].
    intros f mp Hf _.
    apply (inner_parse_at_openpar _ _ _ _ _ o _ _ _ c); auto.
    replace f with (k + (S (f - k - 1))) by lia.
    rewrite (Hrun _ 0).
    + apply loop_stops. rewrite E1. split; intros _.
      * apply and_stop_closepar. exact Hc.
      * unfold or_stop. rewrite Hc. discriminate.
    + lia.
    + split; [unfold _PREC_OR; lia | apply and_stop_closepar; exact Hc].
  - (* a primary is a conjunction *)
    destruct (IH _ Ea) as (ps1 & k & f0 & E1 & Hrun).
    exists ps1, k, f0. split; [exact E1|].
    intros f mp Hf _. apply Hrun; [exact Hf | exact I].
  - (* and *)
    destruct (IHl _ Ea) as (ps1 & k & f0 & E1 & Hrun).
    destruct (ahead_cons _ _ _ E1) as (Ht1 & End1 & Eadv1).
    destruct (IHr _ Eadv1) as (ps2 & k2 & f2 & E2 & Hrun2).
    exists ps2, (k + 1), (f0 + k2 + S f2). split; [exact E2|].
    intros f mp Hf Hmp. simpl in Hmp.
    replace (k + 1 + f) with (k + S f) by lia.
    rewrite (Hrun _ mp) by (try lia; exact Hmp).
    apply (loop_at_and _ _ _ _ _ _ a); auto.
    replace f with (k2 + (S (f - k2 - 1))) by lia.
    rewrite (Hrun2 _ _PREC_AND) by (try lia; exact I).
    apply loop_stops. split; unfold _PREC_AND, _PREC_OR; lia.
  - (* an implicit and *)
    destruct (IHl _ Ea) as (ps1 & k & f0 & E1 & Hrun).
    destruct (ahead_cons _ _ _ E1) as (Ht1 & End1 & Eadv1).
    destruct (IHr _ E1) as (ps2 & k2 & f2 & E2 & Hrun2).
    exists ps2, (k + 1), (f0 + k2 + S f2). split; [exact E2|].
    intros f mp Hf Hmp. simpl in Hmp.
    replace (k + 1 + f) with (k + S f) by lia.
    rewrite (Hrun _ mp) by (try lia; exact Hmp).
    apply (loop_at_primary _ _ _ _ _ _ t); auto.
    replace f with (k2 + (S (f - k2 - 1))) by lia.
    rewrite (Hrun2 _ _PREC_AND) by (try lia; exact I).
    apply loop_stops. split; unfold _PREC_AND, _PREC_OR; lia.
  - (* a conjunction is an expression *)
    destruct (IH _ Ea) as (ps1 & k & f0 & E1 & Hrun).
    exists ps1, k, f0. split; [exact E1|].
    intros f mp Hf [Hmp _]. apply Hrun; [exact Hf|].
    simpl. unfold _PREC_OR, _PREC_AND in *. lia.
  - (* or *)
    destruct (IHl _ Ea) as (ps1 & k & f0 & E1 & Hrun).
    destruct (ahead_cons _ _ _ E1) as (Ht1 & End1 & Eadv1).
    destruct (IHr _ Eadv1) as (ps2 & k2 & f2 & E2 & Hrun2).
    exists ps2, (k + 1), (f0 + k2 + S f2). split; [exact E2|].
    intros f mp Hf [Hmp Hstop].
    replace (k + 1 + f) with (k + S f) by lia.
    rewrite (Hrun _ mp).
    2:{ lia. }
    2:{ split; [exact Hmp | apply and_stop_or; exact Ho]. }
    apply (loop_at_or _ _ _ _ _ _ o); auto.
    replace f with (k2 + (S (f - k2 - 1))) by lia.
    rewrite (Hrun2 _ _PREC_OR).
    + apply loop_stops. rewrite E2. split; [intros _; exact Hstop|].
      unfold _PREC_OR. intros Hlt. lia.
    + lia.
    + simpl. unfold _PREC_OR, _PREC_AND. lia.
Qed.

Lemma reads_some course lvl toks db q rest db' :
  reads course lvl toks db q rest db' -> toks <> [].
Proof. induction 1; auto; discriminate. Qed.

Lemma parse_tokens_reads course raw toks db q db' :
  parse_tokens course raw toks db = (Ok q, db') <->
  reads course Disj toks db q [] db'.
Proof.
  split.
  - intros H. destruct (parse_tokens_ok _ _ _ _ _ _ H) as [ps [Hp End]].
    apply (proj1 (inner_parse_sound course _)) in Hp. destruct Hp as [Hp _].
    apply is_at_end_ahead in End. rewrite End in Hp. exact Hp.
  - intros H.
    destruct (reads_complete _ _ _ _ _ _ _ H
                {| lexed := toks; raw_string := raw; index := 0 |} eq_refl)
      as (ps1 & k & f0 & E1 & Hrun).
    apply (parse_tokens_from _ _ _ _ _ ps1).
    + apply (inner_parse_ok_any_fuel _ _ _ _ (k + S f0)).
      * rewrite (Hrun _ 0).
        -- apply loop_stops. rewrite E1. apply stopped_nil.
        -- lia.
        -- split; [unfold _PREC_OR; lia | exact I].
      * unfold remaining, parse_fuel. simpl. lia.
    + apply is_at_end_ahead. exact E1.
    + apply (reads_some _ _ _ _ _ _ _ H).
Qed.

(** * Further properties of the code *)

(** X1.  [parse_query] ends in one of three ways: with a predicate; with the
    lexer's [InvalidTokenError] at an offset inside the text, the store
    untouched; or with a [ParseError] for text that the lexer accepts.  It
    raises nothing else, and whatever it does to the store is to add tags. *)
Theorem parse_query_raises_only course s db :
  match parse_query course s db with
  | (Ok _, d) => grows db d
  | (Raise (InvalidTokenError i), d) =>
      d = db /\ i < String.length s /\
      lex _LEX_TABLE s = Raise (InvalidTokenError i)
  | (Raise (ParseError _ _), d) =>
      grows db d /\ exists toks, lex _LEX_TABLE s = Ok toks
  | _ => False
  end.
Proof.
  pose proof (parse_query_run course s db) as H. unfold run, parse_query_post in H.
  destruct H as [Hg H].
  destruct (lex _LEX_TABLE s) as [toks | e |] eqn:L.
  - specialize (H toks eq_refl).
    destruct (parse_query course s db) as [[q | e |] d]; simpl in *.
    + exact Hg.
    + destruct H as [msg [tok ->]]. split; [exact Hg | eauto].
    + exact H.
  - unfold lex in L. destruct (lex_at_raises_within _ _ _ _ _ L) as [j [-> Hj]].
    rewrite parse_query_tokens. unfold bind, lift, lex. rewrite L.
    split; [reflexivity|]. split; [lia | reflexivity].
  - exfalso. exact (lex_at_total _ _ _ _ L).
Qed.

(** X2.  [inner_parse] terminates: a budget of twice the number of tokens
    ahead of the cursor, and one, is never used up, and with any larger
    budget the call ends in the same way and leaves the same store. *)
Theorem inner_parse_terminates course ps mp db fuel :
  2 * remaining ps + 1 <= fuel ->
  fst (inner_parse fuel course ps mp db) <> OutOfFuel /\
  inner_parse fuel course ps mp db
  = inner_parse (2 * remaining ps + 1) course ps mp db.
Proof.
  intros H. split.
  - apply inner_parse_enough. exact H.
  - apply inner_parse_any_fuel; [exact H | lia].
Qed.

Lemma inner_parse_terminates_witness :
  inner_parse 10 1
    {| lexed := [Token _role "role:ta" 0 (MatchObj 7 (Some "ta"))];
       raw_string := "role:ta"; index := 0 |} 0 sample_database
  = inner_parse 3 1
      {| lexed := [Token _role "role:ta" 0 (MatchObj 7 (Some "ta"))];
         raw_string := "role:ta"; index := 0 |} 0 sample_database.
Proof.
  apply (inner_parse_terminates 1
           {| lexed := [Token _role "role:ta" 0 (MatchObj 7 (Some "ta"))];
              raw_string := "role:ta"; index := 0 |} 0 sample_database 10).
  vm_compute. lia.
Defined.

(** X3.  An explicit [and] is optional in front of a token of one of the
    eight kinds of [_TERMINALS], of [not] and of [(]: when a query compiles,
    the query without some of these [and] tokens compiles to the same
    predicate and leaves the same store. *)
Theorem explicit_and_is_optional course s1 s2 toks1 toks2 db q db' :
  lex _LEX_TABLE s1 = Ok toks1 -> lex _LEX_TABLE s2 = Ok toks2 ->
  drops_and (significant toks1) (significant toks2) = true ->
  parse_query course s1 db = (Ok q, db') ->
  parse_query course s2 db = (Ok q, db').
Proof.
  intros L1 L2 Hd. rewrite !parse_query_tokens. unfold bind, lift.
  rewrite L1, L2. apply parse_tokens_without_and. exact Hd.
Qed.

Lemma explicit_and_is_optional_witness :
  parse_query 1 "role:ta not (status:dropped id:7) tagged:foo" sample_database
  = (Ok (QAnd (QAnd (Q_ (role "ta"))
                    (QNot (QAnd (Q_ (status "dropped")) (Q_ (user__id 7%Z)))))
              (Q_ (tags__pk 1))), sample_database).
Proof.
  eapply (explicit_and_is_optional 1
            "role:ta and not (status:dropped and id:7) and tagged:foo"
            "role:ta not (status:dropped id:7) tagged:foo").
  - vm_compute. reflexivity.
  - vm_compute. reflexivity.
  - vm_compute. reflexivity.
  - vm_compute. reflexivity.
Defined.

(** X4.  Parentheses around a whole query change nothing: when [s]
    compiles, [(s)] compiles to the same predicate and leaves the same
    store. *)
Theorem parentheses_around_query course s db q db' :
  parse_query course s db = (Ok q, db') ->
  parse_query course ("(" ++ s ++ ")") db = (Ok q, db').
Proof.
  rewrite !parse_query_tokens. unfold bind, lift.
  destruct (lex _LEX_TABLE s) as [toks | e |] eqn:L; try discriminate.
  destruct (lex_parenthesized _ _ L) as [toks' [L' Ha]]. rewrite L'.
  intros H.
  assert (E : significant (openpar_token 0 :: toks'
                             ++ [closepar_token (1 + String.length s)])
              = openpar_token 0 :: significant toks'
                  ++ [closepar_token (1 + String.length s)]).
  { unfold significant. simpl. rewrite filter_app. reflexivity. }
  rewrite E.
  apply (parse_tokens_parenthesized _ s _ (significant toks)); auto.
  apply alike_significant. exact Ha.
Qed.

Lemma parentheses_around_query_witness :
  parse_query 1 "(role:ta or tagged:foo)" sample_database
  = (Ok (QOr (Q_ (role "ta")) (Q_ (tags__pk 1))), sample_database).
Proof.
  apply (parentheses_around_query 1 "role:ta or tagged:foo").
  vm_compute. reflexivity.
Defined.

(** X5.  All [parse_query] does to the store is to create, for this course,
    tags that were missing and that a [tagged:] token of the text names;
    participations are not touched.  Text without a [tagged:] token leaves
    the store as it was. *)
Theorem parse_query_creates_named_tags_only course s db toks :
  lex _LEX_TABLE s = Ok toks ->
  only_new_tags course (tagged_in toks) db (snd (parse_query course s db)) /\
  (no_tagged toks = true -> snd (parse_query course s db) = db).
Proof.
  intros L.
  assert (H : only_new_tags course (tagged_in toks) db (snd (parse_query course s db))).
  { apply (parse_query_frames course (tagged_in toks)
             (only_new_tags course (tagged_in toks))).
    - apply only_new_tags_refl.
    - apply only_new_tags_trans.
    - intros g d Hg. apply only_new_tags_get_or_create. exact Hg.
    - intros toks' g L' Hg. assert (toks' = toks) by congruence. subst. exact Hg. }
  split; [exact H|]. intros Hno.
  destruct H as [Hp [l [Hl Ht]]].
  destruct l as [|t l].
  - rewrite app_nil_r in Hl.
    destruct (snd (parse_query course s db)), db; simpl in *; congruence.
  - destruct (Ht t (or_introl eq_refl)) as (_ & (tok & Hin & Htag & _) & _).
    unfold no_tagged in Hno. rewrite forallb_forall in Hno.
    specialize (Hno tok Hin). rewrite Htag in Hno. discriminate.
Qed.

Lemma parse_query_creates_named_tags_only_witness :
  snd (parse_query 1 "role:ta or not status:active" sample_database)
  = sample_database.
Proof.
  eapply (parse_query_creates_named_tags_only 1 "role:ta or not status:active").
  - vm_compute. reflexivity.
  - vm_compute. reflexivity.
Defined.

(** X6.  [query_participations] neither adds nor deletes nor reorders
    participations; it changes nothing of a row but status and tags, and
    nothing at all of a row of another course (keys being unique).  The
    tags it creates are tags of this course that were missing, with a name
    from a [tagged:] token of the lines or from the tag field.  With the
    list button no participation changes. *)
Theorem query_participations_frame course cd db :
  NoDup (map part_pk (participations db)) ->
  Forall2 (fun r r' => same_but_status_and_tags r r' /\
                       (part_course r <> course -> r' = r))
    (participations db)
    (participations (snd (query_participations course cd db))) /\
  (exists l,
      participation_tags (snd (query_participations course cd db))
      = participation_tags db ++ l /\
      forall t, In t l ->
        tag_course t = course /\ names_of cd (tag_name t) /\
        has_tag db course (tag_name t) = false) /\
  (apply cd = false ->
   participations (snd (query_participations course cd db)) = participations db).
Proof.
  intros Hnd.
  destruct (query_lines course (numbered_lines cd) None db) as [o d] eqn:L.
  pose proof (query_lines_only_new_tags course cd db) as Hd. rewrite L in Hd.
  simpl in Hd.
  assert (Hsame : snd (query_participations course cd db) = d ->
            Forall2 (fun r r' => same_but_status_and_tags r r' /\
                                 (part_course r <> course -> r' = r))
              (participations db)
              (participations (snd (query_participations course cd db))) /\
            (exists l,
                participation_tags (snd (query_participations course cd db))
                = participation_tags db ++ l /\
                forall t, In t l ->
                  tag_course t = course /\ names_of cd (tag_name t) /\
                  has_tag db course (tag_name t) = false) /\
            (apply cd = false ->
             participations (snd (query_participations course cd db))
             = participations db)).
  { intros ->. destruct Hd as [Hp Ht]. rewrite Hp. split; [|split; auto].
    eapply Forall2_impl; [|apply same_rows]. simpl. intros a b [H ->]. auto. }
  destruct (apply cd) eqn:Ha.
  2:{ apply Hsame. apply (query_participations_store _ _ _ _ _ L). auto. }
  destruct o as [[[q|] | [lineno e]] | e |];
    try (apply Hsame; apply (query_participations_store _ _ _ _ _ L); discriminate).
  clear Hsame. rewrite (query_participations_compiled _ _ _ _ _ L Ha).
  split; [|split; [|discriminate]].
  - pose proof Hd as [Hp _]. rewrite <- Hp in *.
    destruct (op cd).
    + destruct (get_or_create_spec course (tag_field cd) d)
        as (ptag & c & d' & E & [Hp' _] & _).
      rewrite E. simpl snd. apply bulk_rows; auto using add_tag_same_but.
    + destruct (get_or_create_spec course (tag_field cd) d)
        as (ptag & c & d' & E & [Hp' _] & _).
      rewrite E. simpl snd. apply bulk_rows; auto using without_tag_same_but.
    + simpl snd. apply bulk_rows; auto using with_status_same_but.
  - assert (Htag : forall d', only_new_tags course (names_of cd) d d' ->
              exists l, participation_tags d' = participation_tags db ++ l /\
                forall t, In t l ->
                  tag_course t = course /\ names_of cd (tag_name t) /\
                  has_tag db course (tag_name t) = false).
    { intros d' Hd'.
      destruct (only_new_tags_trans _ _ _ _ _ Hd Hd') as [_ H]. exact H. }
    pose proof (only_new_tags_get_or_create course (names_of cd) (tag_field cd) d
                  (or_intror eq_refl)) as Hg.
    destruct (op cd).
    + destruct (get_or_create course (tag_field cd) d) as [[[ptag c]|e|] d'];
        simpl in *; apply Htag; exact Hg.
    + destruct (get_or_create course (tag_field cd) d) as [[[ptag c]|e|] d'];
        simpl in *; apply Htag; exact Hg.
    + simpl. apply Htag. apply only_new_tags_refl.
Qed.

Lemma query_participations_frame_witness :
  participations
    (snd (query_participations 1 (list_only "tagged:new or role:student")
            sample_database))
  = participations sample_database.
Proof.
  apply (query_participations_frame 1 (list_only "tagged:new or role:student")
           sample_database).
  - exact sample_database_keys.
  - reflexivity.
Defined.

(** X7.  The [drop] operation sets the status of exactly the rows of the
    course that satisfy the compiled predicate to [dropped] and leaves every
    other row as it was (keys being unique); the rows are reported with
    their new status, and their number in the message. *)
Theorem drop_changes_selected_rows course cd db q d :
  op cd = drop -> apply cd = true ->
  NoDup (map part_pk (participations db)) ->
  query_lines course (numbered_lines cd) None db = (Ok (inl (Some q)), d) ->
  query_participations course cd db
  = (Ok {| messages := [INFO_successful (List.length (selected course q db))];
           result := Some (map (with_status dropped) (selected course q db)) |},
     {| participation_tags := participation_tags d;
        participations :=
          on_selected course q (with_status dropped) (participations db) |}).
Proof.
  intros Hop Ha Hnd L.
  destruct (query_lines_replays _ _ _ _ _ _ L) as ([Hp _] & _).
  rewrite (query_participations_compiled _ _ _ _ _ L Ha), Hop.
  rewrite <- Hp in Hnd. rewrite (bulk_selected _ _ _ _ Hnd).
  rewrite (selected_same course q d db Hp), Hp. reflexivity.
Qed.

Lemma drop_changes_selected_rows_witness :
  query_participations 1
    {| queries := "role:student"; op := drop; tag_field := ""; apply := true |}
    sample_database
  = (Ok {| messages := [INFO_successful 2];
           result := Some [with_status dropped alice; with_status dropped bob] |},
     {| participation_tags := participation_tags sample_database;
        participations := [carol; with_status dropped alice;
                           with_status dropped bob] |}).
Proof.
  apply (drop_changes_selected_rows 1
           {| queries := "role:student"; op := drop; tag_field := "";
              apply := true |}
           sample_database (Q_ (role "student")) sample_database).
  - reflexivity.
  - reflexivity.
  - exact sample_database_keys.
  - vm_compute. reflexivity.
Defined.

(** X8.  The [apply_tag] operation gets or creates the tag of the tag field
    and gives it to exactly the rows of the course that satisfy the compiled
    predicate; they keep the tags they had, and every other row stays as it
    was (keys being unique). *)
Theorem apply_tag_changes_selected_rows course cd db q d :
  op cd = apply_tag -> apply cd = true ->
  NoDup (map part_pk (participations db)) ->
  query_lines course (numbered_lines cd) None db = (Ok (inl (Some q)), d) ->
  exists ptag created d',
    get_or_create course (tag_field cd) d = (Ok (ptag, created), d') /\
    tag_course ptag = course /\ tag_name ptag = tag_field cd /\
    query_participations course cd db
    = (Ok {| messages := [INFO_successful (List.length (selected course q db))];
             result := Some (selected course q db) |},
       {| participation_tags := participation_tags d';
          participations :=
            on_selected course q (add_tag ptag) (participations db) |}) /\
    forall r,
      In (tag_pk ptag) (part_tags (add_tag ptag r)) /\
      forall v, In v (part_tags r) -> In v (part_tags (add_tag ptag r)).
Proof.
  intros Hop Ha Hnd L.
  destruct (query_lines_replays _ _ _ _ _ _ L) as ([Hp _] & _).
  destruct (get_or_create_spec course (tag_field cd) d)
    as (ptag & c & d' & E & [Hp' _] & _ & Hc & Hn & _).
  exists ptag, c, d'. split; [exact E|]. split; [exact Hc|]. split; [exact Hn|].
  split.
  - rewrite (query_participations_compiled _ _ _ _ _ L Ha), Hop, E.
    rewrite <- Hp in Hnd. rewrite (bulk_selected_after _ _ _ _ _ Hp' Hnd).
    rewrite (selected_same course q d db Hp), Hp. reflexivity.
  - intros r. split.
    + pose proof (add_tag_has ptag r) as H. apply existsb_exists in H.
      destruct H as [v [Hv Ev]]. apply Nat.eqb_eq in Ev. subst v. exact Hv.
    + intros v Hv. unfold add_tag. destruct (existsb _ _); [exact Hv|].
      simpl. apply in_or_app. left. exact Hv.
Qed.

Lemma apply_tag_changes_selected_rows_witness :
  exists ptag created d',
    get_or_create 1 "late" sample_database = (Ok (ptag, created), d') /\
    tag_course ptag = 1 /\ tag_name ptag = "late" /\
    query_participations 1
      {| queries := "status:requested"; op := apply_tag; tag_field := "late";
         apply := true |} sample_database
    = (Ok {| messages :=
               [INFO_successful
                  (List.length (selected 1 (Q_ (status "requested")) sample_database))];
             result := Some (selected 1 (Q_ (status "requested")) sample_database) |},
       {| participation_tags := participation_tags d';
          participations :=
            on_selected 1 (Q_ (status "requested")) (add_tag ptag)
              (participations sample_database) |}) /\
    forall r,
      In (tag_pk ptag) (part_tags (add_tag ptag r)) /\
      forall v, In v (part_tags r) -> In v (part_tags (add_tag ptag r)).
Proof.
  apply (apply_tag_changes_selected_rows 1
           {| queries := "status:requested"; op := apply_tag; tag_field := "late";
              apply := true |}
           sample_database (Q_ (status "requested")) sample_database).
  - reflexivity.
  - reflexivity.
  - exact sample_database_keys.
  - vm_compute. reflexivity.
Defined.

(** X9.  The [remove_tag] operation gets or creates the tag of the tag field
    and takes it from exactly the rows of the course that satisfy the
    compiled predicate; they keep their other tags, and every other row
    stays as it was (keys being unique). *)
Theorem remove_tag_changes_selected_rows course cd db q d :
  op cd = remove_tag -> apply cd = true ->
  NoDup (map part_pk (participations db)) ->
  query_lines course (numbered_lines cd) None db = (Ok (inl (Some q)), d) ->
  exists ptag created d',
    get_or_create course (tag_field cd) d = (Ok (ptag, created), d') /\
    tag_course ptag = course /\ tag_name ptag = tag_field cd /\
    query_participations course cd db
    = (Ok {| messages := [INFO_successful (List.length (selected course q db))];
             result := Some (selected course q db) |},
       {| participation_tags := participation_tags d';
          participations :=
            on_selected course q (without_tag ptag) (participations db) |}) /\
    forall r v,
      In v (part_tags (without_tag ptag r)) <->
      In v (part_tags r) /\ v <> tag_pk ptag.
Proof.
  intros Hop Ha Hnd L.
  destruct (query_lines_replays _ _ _ _ _ _ L) as ([Hp _] & _).
  destruct (get_or_create_spec course (tag_field cd) d)
    as (ptag & c & d' & E & [Hp' _] & _ & Hc & Hn & _).
  exists ptag, c, d'. split; [exact E|]. split; [exact Hc|]. split; [exact Hn|].
  split.
  - rewrite (query_participations_compiled _ _ _ _ _ L Ha), Hop, E.
    rewrite <- Hp in Hnd. rewrite (bulk_selected_after _ _ _ _ _ Hp' Hnd).
    rewrite (selected_same course q d db Hp), Hp. reflexivity.
  - intros r v. unfold without_tag. simpl. rewrite filter_In.
    rewrite negb_true_iff, Nat.eqb_neq. reflexivity.
Qed.

Lemma remove_tag_changes_selected_rows_witness :
  exists ptag created d',
    get_or_create 1 "foo" sample_database = (Ok (ptag, created), d') /\
    tag_course ptag = 1 /\ tag_name ptag = "foo" /\
    query_participations 1
      {| queries := "role:student"; op := remove_tag; tag_field := "foo";
         apply := true |} sample_database
    = (Ok {| messages :=
               [INFO_successful
                  (List.length (selected 1 (Q_ (role "student")) sample_database))];
             result := Some (selected 1 (Q_ (role "student")) sample_database) |},
       {| participation_tags := participation_tags d';
          participations :=
            on_selected 1 (Q_ (role "student")) (without_tag ptag)
              (participations sample_database) |}) /\
    forall r v,
      In v (part_tags (without_tag ptag r)) <->
      In v (part_tags r) /\ v <> tag_pk ptag.
Proof.
  apply (remove_tag_changes_selected_rows 1
           {| queries := "role:student"; op := remove_tag; tag_field := "foo";
              apply := true |}
           sample_database (Q_ (role "student")) sample_database).
  - reflexivity.
  - reflexivity.
  - exact sample_database_keys.
  - vm_compute. reflexivity.
Defined.

(** X10.  [query_participations] keeps the store well formed: the keys of
    tags and of participations stay unique, a course keeps at most one tag
    of each name, and participations only carry tags of the store. *)
Theorem query_participations_keeps_well_formed course cd db :
  well_formed db -> well_formed (snd (query_participations course cd db)).
Proof. apply query_participations_well_formed. Qed.

Lemma query_participations_keeps_well_formed_witness :
  well_formed
    (snd (query_participations 1
            {| queries := "tagged:new or role:student"; op := apply_tag;
               tag_field := "late"; apply := true |} sample_database)).
Proof.
  apply (query_participations_keeps_well_formed 1
           {| queries := "tagged:new or role:student"; op := apply_tag;
              tag_field := "late"; apply := true |} sample_database).
  exact sample_database_well_formed.
Defined.

(** X11.  A submission is idempotent on the store: sent a second time, the
    same form leaves the store as the first run left it, whatever the
    operation and whether or not the lines compile (keys being unique). *)
Theorem submission_is_idempotent course cd db :
  NoDup (map part_pk (participations db)) ->
  snd (query_participations course cd (snd (query_participations course cd db)))
  = snd (query_participations course cd db).
Proof. apply query_participations_twice. Qed.

Lemma submission_is_idempotent_witness :
  snd (query_participations 1
         {| queries := "not tagged:late"; op := apply_tag; tag_field := "late";
            apply := true |}
         (snd (query_participations 1
                 {| queries := "not tagged:late"; op := apply_tag;
                    tag_field := "late"; apply := true |} sample_database)))
  = snd (query_participations 1
           {| queries := "not tagged:late"; op := apply_tag; tag_field := "late";
              apply := true |} sample_database).
Proof.
  apply (submission_is_idempotent 1
           {| queries := "not tagged:late"; op := apply_tag; tag_field := "late";
              apply := true |} sample_database).
  exact sample_database_keys.
Defined.



(** X13.  [decide_enrollment] changes exactly the rows of the queryset whose
    status is [requested]: they become [active] on approval and [denied]
    otherwise, each of their users is sent the decision, and the message
    counts them; every other row stays as it was (the queryset being rows
    of the store, with unique keys). *)
Theorem decide_enrollment_changes_requested_rows approved queryset db :
  NoDup (map part_pk (participations db)) ->
  (forall p, In p queryset -> In p (participations db)) ->
  decide_enrollment approved queryset db
  = (Ok (INFO_requests_processed (List.length (pending queryset)),
         map (fun p => {| email_to := user_email p;
                          email_course := part_course p;
                          email_approved := approved |})
             (pending queryset)),
     {| participation_tags := participation_tags db;
        participations :=
          map (fun r =>
                 if existsb (Nat.eqb (part_pk r)) (map part_pk queryset)
                    && is_requested r
                 then with_status (decided approved) r else r)
              (participations db) |}).
Proof.
  intros Hnd Hsub. unfold decide_enrollment, bind.
  rewrite decide_enrollment_loop_run. unfold ret, bulk. simpl. f_equal.
  f_equal. apply map_ext_in. intros r Hr.
  rewrite (pending_keys _ _ _ Hnd Hsub Hr). reflexivity.
Qed.

Lemma decide_enrollment_changes_requested_rows_witness :
  decide_enrollment true [alice; bob] sample_database
  = (Ok (INFO_requests_processed 1,
         [{| email_to := "bob@example.com"; email_course := 1;
             email_approved := true |}]),
     {| participation_tags := participation_tags sample_database;
        participations := [carol; alice; with_status active bob] |}).
Proof.
  apply (decide_enrollment_changes_requested_rows true [alice; bob] sample_database).
  - exact sample_database_keys.
  - simpl. intuition.
Defined.

(** X14.  A decision is taken once: after [decide_enrollment], the same
    selection read again from the store holds no request, so that a second
    run, to approve or to deny, changes nothing, sends nothing and counts
    zero. *)
Theorem decide_enrollment_once approved again queryset db :
  NoDup (map part_pk (participations db)) ->
  (forall p, In p queryset -> In p (participations db)) ->
  decide_enrollment again
    (refreshed queryset (snd (decide_enrollment approved queryset db)))
    (snd (decide_enrollment approved queryset db))
  = (Ok (INFO_requests_processed 0, []),
     snd (decide_enrollment approved queryset db)).
Proof.
  intros Hnd Hsub.
  assert (E : snd (decide_enrollment approved queryset db)
              = bulk (with_status (decided approved)) (pending queryset) db).
  { unfold decide_enrollment, bind. rewrite decide_enrollment_loop_run. reflexivity. }
  rewrite E. unfold decide_enrollment, bind.
  rewrite decide_enrollment_loop_run.
  rewrite (pending_refreshed approved queryset db Hnd Hsub).
  unfold ret, bulk. simpl. rewrite map_id. reflexivity.
Qed.

Lemma decide_enrollment_once_witness :
  decide_enrollment false
    (refreshed [alice; bob] (snd (decide_enrollment true [alice; bob] sample_database)))
    (snd (decide_enrollment true [alice; bob] sample_database))
  = (Ok (INFO_requests_processed 0, []),
     snd (decide_enrollment true [alice; bob] sample_database)).
Proof.
  apply (decide_enrollment_once true false [alice; bob] sample_database).
  - exact sample_database_keys.
  - simpl. intuition.
Defined.

(** X15.  [parse_query] reads the grammar of [reads], all of it and nothing
    else: text the lexer accepts compiles to [q] exactly when its tokens,
    whitespace apart, are an expression of the grammar with predicate [q].
    So [not] takes one primary, [and] (written or not) binds tighter than
    [or], both group from the left, and the tags of [tagged:] terminals are
    got or created from left to right. *)
Theorem parse_query_reads_the_grammar course s toks db q db' :
  lex _LEX_TABLE s = Ok toks ->
  (parse_query course s db = (Ok q, db') <->
   reads course Disj (significant toks) db q [] db').
Proof.
  intros L. rewrite parse_query_tokens. unfold bind, lift. rewrite L.
  apply parse_tokens_reads.
Qed.

Lemma parse_query_reads_the_grammar_witness :
  exists toks,
    lex _LEX_TABLE "not role:ta or tagged:foo status:active or id:3" = Ok toks /\
    reads 1 Disj (significant toks) sample_database
      (QOr (QOr (QNot (Q_ (role "ta")))
                (QAnd (Q_ (tags__pk 1)) (Q_ (status "active"))))
           (Q_ (user__id 3%Z)))
      [] sample_database.
Proof.
  eexists. split.
  - vm_compute. reflexivity.
  - apply (proj1 (parse_query_reads_the_grammar 1
                    "not role:ta or tagged:foo status:active or id:3" _
                    sample_database _ sample_database eq_refl)).
    vm_compute. reflexivity.
Defined.
